(** * similarweb_extract.DataFetcher: the fetch layer

    A shallow embedding of [src/similarweb_extract/DataFetcher.py]:
    the URL normalisation of [RequestsCache], the SQLite-backed response
    cache, the retrying HTTP transport [HttpFetcher], the cache-first
    facade [CachedDataFetcher] and the [Singleton] metaclass.

    Conventions.
    - Python [str] values are byte strings (UTF-8), Rocq's [string].
    - A Python value that came out of [json.loads] is a [json]; Python's
      [None] is [JNull], exactly as [json.loads("null")] gives it.
    - Code that mutates the cache, talks to the network or logs runs in
      the state monad [M]; a call returns, raises, or waits for ever.
    - One call runs at a time; the remote server, [json.loads] and
      [json.dumps] are parameters ([Environment]).

    The callers of the fetcher in [helpers.py] and [gui.py], and the
    functions on dates they share, follow the classes. *)

From Stdlib Require Import ZArith NArith Ascii String List Lia Permutation.
From stdpp Require Import gmap strings list pretty.

Import ListNotations.

Set Warnings "-register-all".

(** ** urllib.parse, as far as [_normalize_url] uses it

    [urlsplit], [parse_qsl], [urlencode] and [urlunsplit] belong to the
    Python standard library, not to this repository. They are transcribed
    from CPython 3.11's [Lib/urllib/parse.py]. Two simplifications are made
    and hold for every URL the application builds: the host checks of
    [urlsplit] that raise [ValueError] (unbalanced brackets, a bracketed
    host that is no IP literal, a non-ASCII host that changes under NFKC)
    are left out, and percent-decoding yields the decoded bytes without
    replacing ill-formed UTF-8 sequences by U+FFFD. *)
Module urllib.

Definition code (c : ascii) : N := N_of_ascii c.

Definition in_range (lo hi c : ascii) : bool :=
  ((code lo <=? code c) && (code c <=? code hi))%N.

Definition is_lower (c : ascii) : bool := in_range "a" "z" c.
Definition is_upper (c : ascii) : bool := in_range "A" "Z" c.
Definition is_alpha (c : ascii) : bool := is_lower c || is_upper c.
Definition is_digit (c : ascii) : bool := in_range "0" "9" c.

Fixpoint has_char (c : ascii) (s : string) : bool :=
  match s with
  | EmptyString => false
  | String a s' => Ascii.eqb a c || has_char c s'
  end.

Fixpoint all_chars (p : ascii -> bool) (s : string) : bool :=
  match s with
  | EmptyString => true
  | String a s' => p a && all_chars p s'
  end.

Fixpoint map_chars (f : ascii -> ascii) (s : string) : string :=
  match s with
  | EmptyString => EmptyString
  | String a s' => String (f a) (map_chars f s')
  end.

Fixpoint remove_chars (p : ascii -> bool) (s : string) : string :=
  match s with
  | EmptyString => EmptyString
  | String a s' => if p a then remove_chars p s' else String a (remove_chars p s')
  end.

(** [s.split(c, 1)] when [c in s]: the text before the first [c] and the
    text after it; [None] when [c] does not occur. *)
Fixpoint partition (c : ascii) (s : string) : option (string * string) :=
  match s with
  | EmptyString => None
  | String a s' =>
      if Ascii.eqb a c then Some (EmptyString, s')
      else match partition c s' with
           | Some (h, t) => Some (String a h, t)
           | None => None
           end
  end.

(** The longest prefix without a character of [p], and what follows it. *)
Fixpoint span_until (p : ascii -> bool) (s : string) : string * string :=
  match s with
  | EmptyString => (EmptyString, EmptyString)
  | String a s' =>
      if p a then (EmptyString, s)
      else let '(h, t) := span_until p s' in (String a h, t)
  end.

(** [s.split(sep)]: never empty, [[""]] for the empty string. *)
Fixpoint split_on (sep : ascii) (s : string) : list string :=
  match s with
  | EmptyString => [EmptyString]
  | String a s' =>
      if Ascii.eqb a sep then EmptyString :: split_on sep s'
      else match split_on sep s' with
           | h :: t => String a h :: t
           | [] => [String a EmptyString]
           end
  end.

(** [_WHATWG_C0_CONTROL_OR_SPACE]: the bytes 0x00..0x20. *)
Definition is_c0_or_space (c : ascii) : bool := (code c <=? 32)%N.

Fixpoint lstrip (s : string) : string :=
  match s with
  | EmptyString => EmptyString
  | String a s' => if is_c0_or_space a then lstrip s' else s
  end.

(** [_UNSAFE_URL_BYTES_TO_REMOVE]: tab, carriage return, line feed. *)
Definition is_unsafe_byte (c : ascii) : bool :=
  ((code c =? 9) || (code c =? 13) || (code c =? 10))%N.

Definition is_scheme_char (c : ascii) : bool :=
  is_alpha c || is_digit c || Ascii.eqb c "+" || Ascii.eqb c "-" || Ascii.eqb c ".".

Definition lower_char (c : ascii) : ascii :=
  if is_upper c then ascii_of_N (code c + 32) else c.

Definition lower : string -> string := map_chars lower_char.

Record SplitResult := mkSplitResult {
  scheme : string;
  netloc : string;
  path : string;
  query : string;
  fragment : string
}.

(** [split_url._replace(query=q)] *)
Definition _replace_query (v : SplitResult) (q : string) : SplitResult :=
  {| scheme := scheme v; netloc := netloc v; path := path v;
     query := q; fragment := fragment v |}.

(** The scheme step of [urlsplit]: [i = url.find(':')], and when [i > 0],
    [url[0]] is an ASCII letter and [url[:i]] holds scheme characters
    only, the scheme is [url[:i].lower()] and the rest is [url[i+1:]]. *)
Definition split_scheme (url : string) : string * string :=
  match partition ":" url with
  | Some (String c0 pre, rest) =>
      if is_alpha c0 && all_chars is_scheme_char (String c0 pre)
      then (lower (String c0 pre), rest)
      else (EmptyString, url)
  | _ => (EmptyString, url)
  end.

Definition is_netloc_delim (c : ascii) : bool :=
  Ascii.eqb c "/" || Ascii.eqb c "?" || Ascii.eqb c "#".

(** [if url[:2] == '//': netloc, url = _splitnetloc(url, 2)] *)
Definition split_netloc (url : string) : string * string :=
  match url with
  | String "/" (String "/" rest) => span_until is_netloc_delim rest
  | _ => (EmptyString, url)
  end.

Definition urlsplit (url : string) : SplitResult :=
  let url := lstrip url in
  let url := remove_chars is_unsafe_byte url in
  let '(scheme, url) := split_scheme url in
  let '(netloc, url) := split_netloc url in
  let '(url, fragment) :=
    match partition "#" url with
    | Some (u, f) => (u, f)
    | None => (url, EmptyString)
    end in
  let '(url, query) :=
    match partition "?" url with
    | Some (u, q) => (u, q)
    | None => (url, EmptyString)
    end in
  mkSplitResult scheme netloc url query fragment.

Definition uses_netloc : list string :=
  [""; "ftp"; "http"; "gopher"; "nntp"; "telnet";
   "imap"; "wais"; "file"; "mms"; "https"; "shttp";
   "snews"; "prospero"; "rtsp"; "rtspu"; "rsync";
   "svn"; "svn+ssh"; "sftp"; "nfs"; "git"; "git+ssh";
   "ws"; "wss"].

Definition nonempty (s : string) : bool :=
  match s with EmptyString => false | _ => true end.

Definition starts_with_2slash (s : string) : bool :=
  match s with String "/" (String "/" _) => true | _ => false end.

Definition starts_with_slash (s : string) : bool :=
  match s with String "/" _ => true | _ => false end.

Definition urlunsplit (v : SplitResult) : string :=
  let url := path v in
  let url :=
    if nonempty (netloc v)
       || (nonempty (scheme v)
           && existsb (String.eqb (scheme v)) uses_netloc
           && negb (starts_with_2slash url))
    then
      let url := if nonempty url && negb (starts_with_slash url)
                 then "/" +:+ url else url in
      "//" +:+ netloc v +:+ url
    else url in
  let url := if nonempty (scheme v) then scheme v +:+ ":" +:+ url else url in
  let url := if nonempty (query v) then url +:+ "?" +:+ query v else url in
  let url := if nonempty (fragment v) then url +:+ "#" +:+ fragment v else url in
  url.

(** *** Query strings *)

Definition replace_plus : string -> string :=
  map_chars (fun c => if Ascii.eqb c "+" then " "%char else c).

Definition hex_val (c : ascii) : option N :=
  if is_digit c then Some (code c - 48)%N
  else if in_range "a" "f" c then Some (code c - 87)%N
  else if in_range "A" "F" c then Some (code c - 55)%N
  else None.

(** [unquote]: every [%XY] with two hexadecimal digits becomes the byte
    [0xXY]; a [%] not followed by two such digits stays. *)
Fixpoint unquote (s : string) : string :=
  match s with
  | EmptyString => EmptyString
  | String c s1 =>
      if Ascii.eqb c "%" then
        match s1 with
        | String x (String y s3) =>
            match hex_val x, hex_val y with
            | Some h, Some l => String (ascii_of_N (16 * h + l)) (unquote s3)
            | _, _ => String c (unquote s1)
            end
        | _ => String c (unquote s1)
        end
      else String c (unquote s1)
  end.

(** [parse_qsl(qs)] with its defaults: fields are separated by [&]; a
    field without [=] or with a blank value is dropped; [+] is a space
    and percent escapes are decoded in names and values. *)
Definition parse_field (name_value : string) : option (string * string) :=
  match partition "=" name_value with
  | Some (n, v) =>
      if nonempty v
      then Some (unquote (replace_plus n), unquote (replace_plus v))
      else None
  | None => None
  end.

Definition parse_qsl (qs : string) : list (string * string) :=
  omap parse_field (split_on "&" qs).

Definition is_always_safe (c : ascii) : bool :=
  is_alpha c || is_digit c
  || Ascii.eqb c "_" || Ascii.eqb c "." || Ascii.eqb c "-" || Ascii.eqb c "~".

Definition hex_digit (n : N) : ascii :=
  if (n <? 10)%N then ascii_of_N (48 + n) else ascii_of_N (55 + n).

(** [quote_plus(s, safe='')], one byte at a time. *)
Definition quote_plus_char (c : ascii) : string :=
  if is_always_safe c then String c EmptyString
  else if Ascii.eqb c " " then "+"
  else String "%" (String (hex_digit (code c / 16))
                     (String (hex_digit (code c mod 16)) EmptyString)).

Fixpoint quote_plus (s : string) : string :=
  match s with
  | EmptyString => EmptyString
  | String c s' => quote_plus_char c +:+ quote_plus s'
  end.

(** [urlencode(query)] for a list of pairs of strings. *)
Definition urlencode (query : list (string * string)) : string :=
  String.concat "&"
    (map (fun kv => quote_plus (fst kv) +:+ "=" +:+ quote_plus (snd kv)) query).

(** *** Sorting

    [list.sort(key=...)] is stable and compares [str] keys code point by
    code point, which on UTF-8 bytes is [String.leb]. A stable sort has
    one possible result (see [sorted_stable_unique] below), so insertion
    from the right stands for it. *)
Fixpoint insert_by_name (p : string * string) (l : list (string * string))
  : list (string * string) :=
  match l with
  | [] => [p]
  | q :: l' =>
      if String.leb (fst p) (fst q) then p :: q :: l'
      else q :: insert_by_name p l'
  end.

Fixpoint sort_by_name (l : list (string * string)) : list (string * string) :=
  match l with
  | [] => []
  | p :: l' => insert_by_name p (sort_by_name l')
  end.

End urllib.

(** ** Python values *)

(** What [json.loads] returns. [JNull] is Python's [None]. Numbers are
    restricted to integers; no property below looks inside a number. *)
Inductive json :=
| JNull
| JBool (b : bool)
| JNum (n : Z)
| JStr (s : string)
| JArr (items : list json)
| JObj (members : list (string * json)).

(** [x is None] *)
Definition is_None (v : json) : bool :=
  match v with JNull => true | _ => false end.

(** [bool(x)]: [None], [False], [0], [""], [[]] and [{}] are false. *)
Definition truthy (v : json) : bool :=
  match v with
  | JNull => false
  | JBool b => b
  | JNum n => negb (n =? 0)%Z
  | JStr s => urllib.nonempty s
  | JArr items => match items with [] => false | _ => true end
  | JObj members => match members with [] => false | _ => true end
  end.

(** A [dict] with [str] keys: insertion-ordered, one entry per key.
    [d[k] = v] keeps the place of a key that is already there. *)
Definition dict (V : Type) : Type := list (string * V).

Fixpoint dict_set {V} (d : dict V) (k : string) (v : V) : dict V :=
  match d with
  | [] => [(k, v)]
  | (k', v') :: d' =>
      if String.eqb k' k then (k', v) :: d' else (k', v') :: dict_set d' k v
  end.

Fixpoint dict_get {V} (d : dict V) (k : string) : option V :=
  match d with
  | [] => None
  | (k', v') :: d' => if String.eqb k' k then Some v' else dict_get d' k
  end.

(** [d.update(other)] *)
Definition dict_update {V} (d other : dict V) : dict V :=
  fold_left (fun acc kv => dict_set acc (fst kv) (snd kv)) other d.

(** The value bound to [results] in [CachedDataFetcher.fetch_all]: the
    source binds it to a [dict] on one path and to a [list] on the other. *)
Inductive pyobj :=
| PyList (items : list json)
| PyDict (d : dict json).

(** The message of a [ClientResponseError]: the response text, or the
    formatted [Similarweb error <code> - <message>]. *)
Inductive message :=
| BodyText (text : string)
| SimilarwebError (error_code error_message : json).

Inductive exn :=
| RetriableError (status : Z) (msg : message)
| ClientResponseError (status : Z) (msg : message)
| ClientConnectionError
| ValueError
| AttributeError.

(** [except aiohttp.ClientResponseError]: [RetriableError] subclasses it. *)
Definition is_ClientResponseError (e : exn) : bool :=
  match e with
  | RetriableError _ _ | ClientResponseError _ _ => true
  | _ => false
  end.

Definition is_ClientConnectionError (e : exn) : bool :=
  match e with ClientConnectionError => true | _ => false end.

(** Lines written to the logger at WARNING and ERROR level (DEBUG and
    INFO lines are not modelled). *)
Inductive log_record :=
| ERROR_cache_parse (method : string) (normalized_url : string)
| WARNING_retrying (status : Z) (url : string)
| ERROR_non_json (text : string) (status : Z)
| ERROR_http (url : string) (msg : message)
| ERROR_connection (url : string).

(** ** The world outside the program *)

(** What [session.get(url)] meets. *)
Inductive http_outcome :=
| ConnectionFailed
| Response (status : Z) (content_type : string) (body : string).

(** [json.loads] ([None] when it raises [ValueError]) and [json.dumps]
    are library functions; the remote server answers a GET as a function
    of the requests sent so far (latest first) and of the URL. *)
Class Environment := {
  loads : string -> option json;
  dumps : json -> string;
  server : list string -> string -> http_outcome
}.

(** ** Program state *)

(** A row of the table [responses]; [url] is the key of the table.
    [last_accessed] counts seconds, as SQLite's [datetime] text orders. *)
Record row := mkRow {
  response : string;
  last_accessed : Z
}.

Record state := mkState {
  (** [RequestsCache._conn]: the table behind the connection *)
  _conn : option (gmap string row);
  _actions_pending : Z;
  (** what [datetime('now')] reads *)
  clock : Z;
  (** [HttpFetcher._sem_throttle]: free slots *)
  _sem_throttle : nat;
  (** releases scheduled by [call_later] that have not fired yet *)
  timers : nat;
  (** GET requests sent by the session, latest first *)
  requests : list string;
  (** waits drawn by the retry decorator, latest first *)
  sleeps : list Z;
  (** log lines, latest first *)
  log : list log_record
}.

Definition set_conn (c : option (gmap string row)) (s : state) : state :=
  mkState c (_actions_pending s) (clock s) (_sem_throttle s) (timers s)
          (requests s) (sleeps s) (log s).
Definition set_actions_pending (n : Z) (s : state) : state :=
  mkState (_conn s) n (clock s) (_sem_throttle s) (timers s)
          (requests s) (sleeps s) (log s).
Definition set_clock (t : Z) (s : state) : state :=
  mkState (_conn s) (_actions_pending s) t (_sem_throttle s) (timers s)
          (requests s) (sleeps s) (log s).
Definition set_sem_throttle (n : nat) (s : state) : state :=
  mkState (_conn s) (_actions_pending s) (clock s) n (timers s)
          (requests s) (sleeps s) (log s).
Definition set_timers (n : nat) (s : state) : state :=
  mkState (_conn s) (_actions_pending s) (clock s) (_sem_throttle s) n
          (requests s) (sleeps s) (log s).
Definition set_requests (l : list string) (s : state) : state :=
  mkState (_conn s) (_actions_pending s) (clock s) (_sem_throttle s) (timers s)
          l (sleeps s) (log s).
Definition set_sleeps (l : list Z) (s : state) : state :=
  mkState (_conn s) (_actions_pending s) (clock s) (_sem_throttle s) (timers s)
          (requests s) l (log s).
Definition set_log (l : list log_record) (s : state) : state :=
  mkState (_conn s) (_actions_pending s) (clock s) (_sem_throttle s) (timers s)
          (requests s) (sleeps s) l.

(** How a call ends: it returns, it raises, or it waits for ever on a
    semaphore that nothing will release. *)
Inductive outcome (A : Type) :=
| Ok (a : A)
| Raise (e : exn)
| Blocked.
Arguments Ok {A} a.
Arguments Raise {A} e.
Arguments Blocked {A}.

Definition M (A : Type) : Type := state -> outcome A * state.

Definition ret {A} (a : A) : M A := fun s => (Ok a, s).
Definition raise {A} (e : exn) : M A := fun s => (Raise e, s).
Definition bind {A B} (m : M A) (k : A -> M B) : M B :=
  fun s =>
    match m s with
    | (Ok a, s') => k a s'
    | (Raise e, s') => (Raise e, s')
    | (Blocked, s') => (Blocked, s')
    end.

Notation "'let*' x ':=' m 'in' k" := (bind m (fun x => k))
  (at level 10, x name, m at level 100, k at level 200).
Notation "'let*' ' pat ':=' m 'in' k" := (bind m (fun x => let 'pat := x in k))
  (at level 10, pat pattern, m at level 100, k at level 200).

(** [try: m except <classes matched by handles> as e: handler e] *)
Definition try_except {A} (m : M A) (handles : exn -> bool) (handler : exn -> M A)
  : M A :=
  fun s =>
    match m s with
    | (Raise e, s') => if handles e then handler e s' else (Raise e, s')
    | r => r
    end.

Definition get_state : M state := fun s => (Ok s, s).
Definition modify (f : state -> state) : M unit := fun s => (Ok tt, f s).
Definition logger (r : log_record) : M unit := modify (fun s => set_log (r :: log s) s).

Fixpoint mapM {A B} (f : A -> M B) (l : list A) : M (list B) :=
  match l with
  | [] => ret []
  | a :: l' => let* b := f a in let* bs := mapM f l' in ret (b :: bs)
  end.

Definition MAX_HTTP_RETRIES : nat := 3.
Definition CACHE_DATA_LIFESPAN : Z := 50.
Definition SQL_MAX_VARIABLES : nat := 900.

(** [chunks(lst, n)]: the slices [lst[i:i + n]] for [i] in
    [range(0, len(lst), n)]. *)
Definition range_step (stop step : nat) : list nat :=
  map (fun k => k * step) (seq 0 ((stop + step - 1) / step)).

Definition chunks {A} (lst : list A) (n : nat) : list (list A) :=
  map (fun i => take n (drop i lst)) (range_step (length lst) n).

(** ** class RequestsCache *)
Module RequestsCache.

Definition not_api_key (param : string * string) : bool :=
  negb (String.eqb (fst param) "api_key").

(** The query parameters [_normalize_url] keeps, in the order it gives
    them: [parse_qsl], the [api_key] filter, the sort by name. *)
Definition normalized_params (query : string) : list (string * string) :=
  urllib.sort_by_name (List.filter not_api_key (urllib.parse_qsl query)).

Definition _normalize_url (url : string) : string :=
  let split_url := urllib.urlsplit url in
  let query := urllib.query split_url in
  let query_params := normalized_params query in
  urllib.urlunsplit (urllib._replace_query split_url (urllib.urlencode query_params)).

Section WithEnvironment.
Context `{Environment}.

(** [self._conn.commit()] makes the pending statements durable; a read on
    the same connection sees them before and after, so only the counter
    is kept. *)
Definition _update_count (count : Z) : M unit :=
  modify (fun s =>
    match _conn s with
    | Some _ =>
        let pending := (_actions_pending s + count)%Z in
        if (100 <=? pending)%Z then set_actions_pending 0 s
        else set_actions_pending pending s
    | None => s
    end).

Definition retrieve (url : string) : M json :=
  let* s := get_state in
  match _conn s with
  | None => ret JNull
  | Some db =>
      let normalized_url := _normalize_url url in
      (* SELECT response FROM responses WHERE url=?, then fetchone() *)
      match db !! normalized_url with
      | None => ret JNull
      | Some results =>
          match loads (response results) with
          | Some result => ret result
          | None =>
              let* _ := logger (ERROR_cache_parse "retrieve" normalized_url) in
              ret JNull
          end
      end
  end.

(** [SELECT url, response FROM responses WHERE url IN (?,...,?)], then
    [fetchall()]: one row per stored key that occurs among the
    parameters. *)
Definition select_in (db : gmap string row) (norm_urls : list string)
  : list (string * string) :=
  map_to_list (response <$> filter (fun kv => kv.1 ∈ norm_urls) db).

(** The first loop of [retrieve_all]: one query per chunk, each result
    merged with [cache_results.update(dict(rows))]. *)
Definition query_chunks (db : gmap string row) (urls_chunks : list (list string))
  : gmap string string :=
  fold_left
    (fun cache_results chunk =>
       let norm_urls := map _normalize_url chunk in
       let rows := select_in db norm_urls in
       (list_to_map rows : gmap string string) ∪ cache_results)
    urls_chunks ∅.

(** The second loop of [retrieve_all]. *)
Fixpoint classify (cache_results : gmap string string) (urls : list string)
    (hits : dict json) (missed : list string) : M (dict json * list string) :=
  match urls with
  | [] => ret (hits, missed)
  | url :: urls' =>
      let normalized_url := _normalize_url url in
      match cache_results !! normalized_url with
      | None => classify cache_results urls' hits (missed ++ [url])
      | Some text =>
          match loads text with
          | Some v => classify cache_results urls' (dict_set hits url v) missed
          | None =>
              let* _ := logger (ERROR_cache_parse "retrieve_all" normalized_url) in
              classify cache_results urls' (dict_set hits url JNull) missed
          end
      end
  end.

Definition retrieve_all (urls : list string) : M (dict json * list string) :=
  let* s := get_state in
  let urls_chunks := chunks urls SQL_MAX_VARIABLES in
  let cache_results :=
    match _conn s with
    | Some db => query_chunks db urls_chunks
    | None => ∅
    end in
  classify cache_results urls [] [].

(** [INSERT OR REPLACE INTO responses(url, response, last_accessed)
    VALUES (?, ?, datetime('now'))] *)
Definition insert_or_replace (url text : string) : M unit :=
  modify (fun s =>
    match _conn s with
    | Some db => set_conn (Some (<[url := mkRow text (clock s)]> db)) s
    | None => s
    end).

Definition create_or_update (url : string) (response : json) : M unit :=
  let* s := get_state in
  match _conn s with
  | Some _ =>
      if is_None response then ret tt
      else
        let normalized_url := _normalize_url url in
        let* _ := insert_or_replace normalized_url (dumps response) in
        _update_count 1
  | None => ret tt
  end.

(** [executemany]: the statement once per tuple, in order. *)
Fixpoint executemany_insert (values : list (string * string)) : M unit :=
  match values with
  | [] => ret tt
  | (url, text) :: values' =>
      let* _ := insert_or_replace url text in executemany_insert values'
  end.

Definition create_or_update_all (data : dict json) : M unit :=
  let* s := get_state in
  match _conn s with
  | Some _ =>
      let values :=
        map (fun item => (_normalize_url item.1, dumps item.2))
            (List.filter (fun item => negb (is_None item.2)) data) in
      let* _ := executemany_insert values in
      _update_count (Z.of_nat (length values))
  | None => ret tt
  end.

(** [DELETE FROM responses WHERE last_accessed <= datetime('now', '-N day')] *)
Definition flush (max_age : Z) : M unit :=
  if (max_age <? 0)%Z then raise ValueError
  else
    let* s := get_state in
    match _conn s with
    | Some db =>
        let kept :=
          filter (fun kv => (clock s - 86400 * max_age < last_accessed kv.2)%Z) db in
        let* _ := modify (set_conn (Some kept)) in
        _update_count 1
    | None => ret tt
    end.

End WithEnvironment.
End RequestsCache.

(** ** class HttpFetcher

    One call at a time: [asyncio.gather] is run as one fetch after the
    other in list order, and [self._sem_concurrency], which only orders
    overlapping calls, is always free. The throttle semaphore is kept: a
    slot is taken before each GET and given back by a timer that is set
    once a response has arrived. *)
Module HttpFetcher.
Section WithEnvironment.
Context `{Environment}.

(** [await self._sem_throttle.acquire()]: takes a free slot; with none
    free it waits for a scheduled release; with none scheduled either it
    waits for ever. *)
Definition acquire_throttle : M unit :=
  fun s =>
    match _sem_throttle s with
    | S n => (Ok tt, set_sem_throttle n s)
    | O =>
        match timers s with
        | S t => (Ok tt, set_timers t s)
        | O => (Blocked, s)
        end
    end.

(** [self._loop.call_later(self._time_period, self._sem_throttle.release)] *)
Definition call_later_release : M unit :=
  modify (fun s => set_timers (S (timers s)) s).

(** [self._session.get(url, ...)] *)
Definition session_get (url : string) : M http_outcome :=
  fun s => (Ok (server (requests s) url), set_requests (url :: requests s) s).

Definition is_space (c : ascii) : bool :=
  let n := urllib.code c in ((n =? 32) || ((9 <=? n) && (n <=? 13)))%N.

(** [await response.json()]: aiohttp gives [None] for a blank body and
    [json.loads] of the text otherwise. *)
Definition response_json (body : string) : M json :=
  if urllib.all_chars is_space body then ret JNull
  else match loads body with
       | Some v => ret v
       | None => raise ValueError
       end.

(** [o.get(key, default)]: only a [dict] has [get]. *)
Definition py_get (o : json) (key : string) (default : json) : M json :=
  match o with
  | JObj members =>
      ret (match dict_get members key with Some v => v | None => default end)
  | _ => raise AttributeError
  end.

(** The body of [_fetch_retry], one attempt. *)
Definition _fetch_retry_attempt (url : string) : M json :=
  let* _ := acquire_throttle in
  let* got := session_get url in
  match got with
  | ConnectionFailed => raise ClientConnectionError
  | Response status content_type body =>
      let* _ := call_later_release in
      if ((status =? 429) || ((500 <=? status) && (status <? 600)))%Z then
        let* _ := logger (WARNING_retrying status url) in
        raise (RetriableError status (BodyText body))
      else if (status =? 400)%Z && String.eqb content_type "application/json" then
        let* content := response_json body in
        let* meta := py_get content "meta" (JObj []) in
        let* error_code := py_get meta "error_code" JNull in
        let* error_message := py_get meta "error_message" JNull in
        raise (ClientResponseError status (SimilarwebError error_code error_message))
      else if ((400 <=? status) && negb (status =? 404))%Z then
        raise (ClientResponseError status (BodyText body))
      else if String.eqb content_type "application/json" then
        response_json body
      else
        let* _ := logger (ERROR_non_json body status) in
        ret JNull
  end.

(** [backoff.fibo]: 1, 1, 2, 3, 5, ... *)
Fixpoint fibo_from (a b : Z) (n : nat) : Z :=
  match n with
  | O => a
  | S n' => fibo_from b (a + b) n'
  end.

Definition fibo (n : nat) : Z := fibo_from 1 1 n.

(** The exceptions named in the decorator. *)
Definition is_retriable (e : exn) : bool :=
  match e with
  | RetriableError _ _ | ClientConnectionError => true
  | _ => false
  end.

(** [asyncio.sleep] of the next value of the wait generator (the library
    shortens it by a random jitter; the value drawn is what is logged). *)
Definition sleep (seconds : Z) : M unit :=
  modify (fun s => set_sleeps (seconds :: sleeps s) s).

(** [@backoff.on_exception(backoff.fibo, ..., max_tries=...)]: call the
    target; on a listed exception give up and re-raise when
    [tries == max_tries], else sleep and call again. [left] is
    [max_tries - tries]. *)
Fixpoint on_exception {A} (left tries : nat) (target : M A) : M A :=
  fun s =>
    match target s with
    | (Raise e, s') =>
        if is_retriable e then
          match left with
          | O => (Raise e, s')
          | S left' =>
              (let* _ := sleep (fibo (tries - 1)) in
               on_exception left' (S tries) target) s'
          end
        else (Raise e, s')
    | r => r
    end.

Definition _fetch_retry (url : string) : M json :=
  on_exception (MAX_HTTP_RETRIES - 1) 1 (_fetch_retry_attempt url).

Definition fetch (url : string) (no_concurrency : bool) : M json :=
  try_except (_fetch_retry url)
    (fun e => is_ClientResponseError e || is_ClientConnectionError e)
    (fun e =>
       let* _ :=
         logger (match e with
                 | RetriableError _ msg | ClientResponseError _ msg => ERROR_http url msg
                 | _ => ERROR_connection url
                 end) in
       ret JNull).

Definition fetch_all (urls : list string) (no_concurrency : bool) : M (dict json) :=
  let* responses := mapM (fun url => fetch url no_concurrency) urls in
  ret (fold_left (fun results item => dict_set results item.1 item.2)
                 (combine urls responses) []).

End WithEnvironment.
End HttpFetcher.

(** ** class CachedDataFetcher *)
Module CachedDataFetcher.
Section WithEnvironment.
Context `{Environment}.

Definition fetch (url : string) (no_concurrency skip_cache : bool) : M json :=
  let* result :=
    (if negb skip_cache then RequestsCache.retrieve url else ret JNull) in
  let* result :=
    (if negb (truthy result) then HttpFetcher.fetch url no_concurrency
     else ret result) in
  let* _ :=
    (if negb skip_cache && negb (is_None result)
     then RequestsCache.create_or_update url result
     else ret tt) in
  ret result.

(** [results.update(api_results)]: a [list] has no [update]. *)
Definition py_update (results : pyobj) (other : dict json) : M pyobj :=
  match results with
  | PyDict d => ret (PyDict (dict_update d other))
  | PyList _ => raise AttributeError
  end.

(** [self._cache.create_or_update_all(results)], which reads
    [data.items()]. *)
Definition py_create_or_update_all (results : pyobj) : M unit :=
  match results with
  | PyDict d => RequestsCache.create_or_update_all d
  | PyList _ =>
      let* s := get_state in
      match _conn s with
      | Some _ => raise AttributeError
      | None => ret tt
      end
  end.

Definition fetch_all (urls : list string) (no_concurrency skip_cache : bool)
  : M pyobj :=
  let* '(results, misses) :=
    (if negb skip_cache
     then let* '(hits, missed) := RequestsCache.retrieve_all urls in
          ret (PyDict hits, missed)
     else ret (PyList [], urls)) in
  let* api_results := HttpFetcher.fetch_all misses no_concurrency in
  let* results := py_update results api_results in
  let* _ :=
    (if negb skip_cache then py_create_or_update_all results else ret tt) in
  ret results.

End WithEnvironment.
End CachedDataFetcher.

(** ** class Singleton(type)

    Objects live in a heap and are identified by their address. The
    class attribute [_instances] is one dictionary for the whole process. *)
Module Singleton.

(** The classes declared with [metaclass=Singleton]. *)
Inductive cls := HttpFetcher | CachedDataFetcher.

#[global] Instance cls_eq_dec : EqDecision cls.
Proof. solve_decision. Defined.

#[global] Instance cls_countable : Countable cls.
Proof.
  refine (inj_countable'
            (fun c => match c with HttpFetcher => false | CachedDataFetcher => true end)
            (fun b : bool => if b then CachedDataFetcher else HttpFetcher) _).
  intros []; reflexivity.
Defined.

Inductive object :=
| HttpFetcherObject (_max_nb_requests : Z) (_sem_throttle : Z)
| RequestsCacheObject
| CachedDataFetcherObject (_api_fetcher : nat) (_cache : nat).

Record process := mkProcess {
  _instances : gmap cls nat;
  heap : list object
}.

Definition initial : process := mkProcess ∅ [].

Definition alloc (o : object) (p : process) : nat * process :=
  (length (heap p), mkProcess (_instances p) (heap p ++ [o])).

(** A constructor call as written by a caller: [HttpFetcher()],
    [HttpFetcher(n)] or [CachedDataFetcher()]. *)
Inductive construction :=
| NewHttpFetcher (max_nb_requests : option Z)
| NewCachedDataFetcher.

Definition class_of (k : construction) : cls :=
  match k with
  | NewHttpFetcher _ => HttpFetcher
  | NewCachedDataFetcher => CachedDataFetcher
  end.

(** [Singleton.__call__] with the class and its arguments; [init] stands
    for the call to [super(Singleton, cls).__call__] with the same
    arguments, which builds the object and runs its [__init__]. *)
Definition __call__ (c : cls) (init : process -> nat * process) (p : process)
  : nat * process :=
  match _instances p !! c with
  | Some inst => (inst, p)
  | None =>
      let '(inst, p') := init p in
      (inst, mkProcess (<[c := inst]> (_instances p')) (heap p'))
  end.

(** [HttpFetcher.__init__(self, max_nb_requests=9)] *)
Definition HttpFetcher_init (max_nb_requests : option Z) (p : process)
  : nat * process :=
  let n := match max_nb_requests with Some n => n | None => 9%Z end in
  alloc (HttpFetcherObject n n) p.

(** [CachedDataFetcher.__init__(self)]: [self._api_fetcher = HttpFetcher()]
    and [self._cache = RequestsCache()]. *)
Definition CachedDataFetcher_init (p : process) : nat * process :=
  let '(api_fetcher, p1) := __call__ HttpFetcher (HttpFetcher_init None) p in
  let '(cache, p2) := alloc RequestsCacheObject p1 in
  alloc (CachedDataFetcherObject api_fetcher cache) p2.

Definition construct (k : construction) (p : process) : nat * process :=
  match k with
  | NewHttpFetcher n => __call__ HttpFetcher (HttpFetcher_init n) p
  | NewCachedDataFetcher => __call__ CachedDataFetcher CachedDataFetcher_init p
  end.

(** [HttpFetcher.set_rate(self, max_nb_requests)] on the object at
    [self]: [delta] slots are released or taken and the ceiling is
    overwritten. *)
Definition set_rate (self : nat) (max_nb_requests : Z) (p : process) : process :=
  match heap p !! self with
  | Some (HttpFetcherObject old sem) =>
      mkProcess (_instances p)
        (<[self := HttpFetcherObject max_nb_requests (sem + (max_nb_requests - old))]>
           (heap p))
  | _ => p
  end.

(** What the rest of the program does to these objects. *)
Inductive action :=
| Construct (k : construction)
| SetRate (max_nb_requests : Z).

Definition step (p : process) (a : action) : process :=
  match a with
  | Construct k => (construct k p).2
  | SetRate n =>
      match _instances p !! HttpFetcher with
      | Some self => set_rate self n p
      | None => p
      end
  end.

Definition run (actions : list action) (p : process) : process :=
  fold_left step actions p.

End Singleton.

(** ** Vocabulary of the properties *)

(** The parameters called [name], in the order they have in [params]. *)
Definition values_of (name : string) (params : list (string * string))
  : list (string * string) :=
  List.filter (fun p => String.eqb (fst p) name) params.

(** Names never decrease along the list. *)
Fixpoint ascending (l : list (string * string)) : Prop :=
  match l with
  | [] => True
  | p :: l' => Forall (fun q => String.leb (fst p) (fst q) = true) l' /\ ascending l'
  end.

Definition without_fragment (v : urllib.SplitResult) : urllib.SplitResult :=
  {| urllib.scheme := urllib.scheme v; urllib.netloc := urllib.netloc v;
     urllib.path := urllib.path v; urllib.query := urllib.query v;
     urllib.fragment := "" |}.

(** Two URLs with the same scheme, host, path and fragment whose query
    strings hold the same parameters, possibly in another order. *)
Definition differ_only_in_parameter_order (u1 u2 : string) : Prop :=
  let v1 := urllib.urlsplit u1 in
  let v2 := urllib.urlsplit u2 in
  urllib.scheme v1 = urllib.scheme v2 /\ urllib.netloc v1 = urllib.netloc v2
  /\ urllib.path v1 = urllib.path v2 /\ urllib.fragment v1 = urllib.fragment v2
  /\ Permutation (urllib.parse_qsl (urllib.query v1))
                 (urllib.parse_qsl (urllib.query v2)).

(** The state once a throttle slot has been taken. *)
Definition take_slot (s : state) : state :=
  match _sem_throttle s with
  | S n => set_sem_throttle n s
  | O => set_timers (pred (timers s)) s
  end.

(** The state after an attempt that got no connection, and after one
    that got a response. *)
Definition refused (url : string) (s : state) : state :=
  set_requests (url :: requests s) (take_slot s).

Definition answered (url : string) (s : state) : state :=
  set_timers (S (timers (take_slot s))) (refused url s).

(** A response that is not an error status: below 400, or 404. *)
Definition accepted_status (status : Z) : bool :=
  ((status <? 400) || (status =? 404))%Z.

(** [m] leaves the cache, its write counter and the clock alone. *)
Definition keeps_cache {A} (m : M A) : Prop :=
  forall s, _conn (m s).2 = _conn s
            /\ _actions_pending (m s).2 = _actions_pending s
            /\ clock (m s).2 = clock s.

(** The outcomes the transport retries. *)
Definition retriable_outcome (got : http_outcome) : bool :=
  match got with
  | ConnectionFailed => true
  | Response status _ _ =>
      ((status =? 429) || ((500 <=? status) && (status <? 600)))%Z
  end.

(** The table after the rows of [values] have been written at [now], in
    order. *)
Definition written (now : Z) (values : list (string * string))
    (db : gmap string row) : gmap string row :=
  fold_left (fun acc kv => <[kv.1 := mkRow kv.2 now]> acc) values db.

Section CacheVocabulary.
Context `{Environment}.

(** The tuples [create_or_update_all] passes to [executemany]. *)
Definition values_of_results (data : dict json) : list (string * string) :=
  map (fun item => (RequestsCache._normalize_url item.1, dumps item.2))
      (List.filter (fun item => negb (is_None item.2)) data).

(** The response text stored for a key, if any. *)
Definition stored (s : state) (key : string) : option string :=
  match _conn s with
  | Some db => response <$> db !! key
  | None => None
  end.

(** What a lookup makes of a stored text. *)
Definition decoded (text : string) : json :=
  match loads text with Some v => v | None => JNull end.

(** The dictionary [cache_results] that [retrieve_all] builds. *)
Definition cache_results_of (s : state) (urls : list string) : gmap string string :=
  match _conn s with
  | Some db => RequestsCache.query_chunks db (chunks urls SQL_MAX_VARIABLES)
  | None => ∅
  end.

(** The error line a batched or single lookup logs for [url], if any. *)
Definition parse_error (method : string) (cache_results : gmap string string)
    (url : string) : option log_record :=
  match cache_results !! RequestsCache._normalize_url url with
  | Some text =>
      match loads text with
      | Some _ => None
      | None => Some (ERROR_cache_parse method (RequestsCache._normalize_url url))
      end
  | None => None
  end.

(** The batched lookup as the specification words it: [get] once per
    url; a url whose [get] is not [None] is a hit with that payload, every
    other url is a miss. *)
Fixpoint get_each (urls : list string) (hits : dict json) (missed : list string)
  : M (dict json * list string) :=
  match urls with
  | [] => ret (hits, missed)
  | url :: urls' =>
      let* payload := RequestsCache.retrieve url in
      if is_None payload then get_each urls' hits (missed ++ [url])
      else get_each urls' (dict_set hits url payload) missed
  end.

Definition get_many (urls : list string) : M (dict json * list string) :=
  get_each urls [] [].

End CacheVocabulary.

(** The [CachedDataFetcher] of the process, if there is one, holds the
    [HttpFetcher] of the process. *)
Definition shares_transport (p : Singleton.process) : Prop :=
  forall r, Singleton._instances p !! Singleton.CachedDataFetcher = Some r ->
    exists cache api,
      Singleton.heap p !! r = Some (Singleton.CachedDataFetcherObject api cache)
      /\ Singleton._instances p !! Singleton.HttpFetcher = Some api.

(** Every registered instance is an object of its class. *)
Definition well_formed (p : Singleton.process) : Prop :=
  (forall r, Singleton._instances p !! Singleton.HttpFetcher = Some r ->
     exists n sem, Singleton.heap p !! r = Some (Singleton.HttpFetcherObject n sem))
  /\ shares_transport p.

(** The singleton class an object belongs to; [RequestsCache] is an
    ordinary class. *)
Definition class_of_object (o : Singleton.object) : option Singleton.cls :=
  match o with
  | Singleton.HttpFetcherObject _ _ => Some Singleton.HttpFetcher
  | Singleton.CachedDataFetcherObject _ _ => Some Singleton.CachedDataFetcher
  | Singleton.RequestsCacheObject => None
  end.

(** The address [r] holds an object of class [c]. *)
Definition has_class (c : Singleton.cls) (p : Singleton.process) (r : nat) : Prop :=
  exists o, Singleton.heap p !! r = Some o /\ class_of_object o = Some c.

(** Every object of a singleton class is the registered instance of the
    class, every registered instance is an object of its class, the
    [CachedDataFetcher] holds the registered [HttpFetcher] and a cache,
    and every cache is held by a [CachedDataFetcher]. *)
Definition one_of_each (p : Singleton.process) : Prop :=
  (forall r o c, Singleton.heap p !! r = Some o -> class_of_object o = Some c ->
     Singleton._instances p !! c = Some r)
  /\ (forall c r, Singleton._instances p !! c = Some r -> has_class c p r)
  /\ (forall r api cache,
        Singleton.heap p !! r = Some (Singleton.CachedDataFetcherObject api cache) ->
        Singleton._instances p !! Singleton.HttpFetcher = Some api
        /\ Singleton.heap p !! cache = Some Singleton.RequestsCacheObject)
  /\ (forall r, Singleton.heap p !! r = Some Singleton.RequestsCacheObject ->
        exists inst api,
          Singleton.heap p !! inst = Some (Singleton.CachedDataFetcherObject api r)).

(** ** A concrete environment for the examples *)
Module Example.

Definition dq : string := String (ascii_of_nat 34) "".

(** [json.dumps] with its default separators, for strings that need no
    escaping. *)
Fixpoint dumps_json (v : json) : string :=
  match v with
  | JNull => "null"
  | JBool true => "true"
  | JBool false => "false"
  | JNum n => pretty n
  | JStr s => dq +:+ s +:+ dq
  | JArr items => "[" +:+ String.concat ", " (map dumps_json items) +:+ "]"
  | JObj members =>
      "{" +:+ String.concat ", "
               (map (fun '(k, v) => dq +:+ k +:+ dq +:+ ": " +:+ dumps_json v) members)
          +:+ "}"
  end.

Definition no_data : json :=
  JObj [("meta", JObj [("status", JStr "Error"); ("error_code", JNum 401);
                       ("error_message", JStr "Data not found")])].

Definition visits : json :=
  JObj [("visits", JArr [JObj [("date", JStr "2024-01"); ("visits", JNum 100)]])].

(** [json.loads] on the texts of these documents; any other text is
    rejected, as [json.loads] rejects the malformed texts used below. *)
Definition documents : list json :=
  [JNull; JBool true; JBool false; JNum 0; JNum 1; JStr ""; JArr []; JObj [];
   visits; no_data].

Definition loads_known (text : string) : option json :=
  List.find (fun v => String.eqb (dumps_json v) text) documents.

Definition env (server : list string -> string -> http_outcome) : Environment :=
  {| loads := loads_known; dumps := dumps_json; server := server |}.

Definition unreachable : list string -> string -> http_outcome :=
  fun _ _ => ConnectionFailed.

Definition offline : Environment := env unreachable.

Definition answers (status : Z) (content_type body : string)
  : list string -> string -> http_outcome :=
  fun _ _ => Response status content_type body.

(** 503 on the first two requests, then the visits document. *)
Definition recovers : list string -> string -> http_outcome :=
  fun sent _ =>
    if length sent <? 2 then Response 503 "text/plain" "busy"
    else Response 200 "application/json" (dumps_json visits).

Definition not_found_json : Environment :=
  env (answers 404 "application/json" (dumps_json no_data)).

Definition not_found_page : Environment :=
  env (answers 404 "text/html" "<html>Not Found</html>").

Definition online : Environment :=
  env (answers 200 "application/json" (dumps_json visits)).

(** A process that has just opened the table [db], with [slots] free
    throttle slots, at time [now]. *)
Definition opened (db : gmap string row) (slots : nat) (now : Z) : state :=
  mkState (Some db) 0 now slots 0 [] [] [].

Definition url : string := "https://api.example.com/v1/website/acme.com/visits?api_key=K".
Definition key : string := "https://api.example.com/v1/website/acme.com/visits".

(** The table with one row for [key], written at time 0. *)
Definition table (text : string) : gmap string row := {[ key := mkRow text 0 ]}.


(** A row holding the visits document. *)
Definition warm : state := opened (table (dumps_json visits)) 9 1000.

(** A row holding the empty object. *)
Definition holds_empty_object : state := opened (table "{}") 9 1000.

Definition empty_cache : state := opened ∅ 9 1000.

(** 901 URLs, one more than a chunk, and a table that holds a row for
    the last of them only. *)
Definition many_urls : list string :=
  map (fun i => "https://a.com/x?api_key=K&i=" +:+ pretty i) (seq 0 901).

Definition last_row : state :=
  opened {[ "https://a.com/x?i=900" := mkRow (dumps_json visits) 0 ]} 9 1000.

(** The process was started with [--rate 2]. *)
Definition two_slots : state := opened ∅ 2 1000.

End Example.

(** ** The rest of DataFetcher.py *)

(** [RequestsCache.close]: commit what is pending, close the connection. *)
Definition RequestsCache_close : M unit :=
  modify (fun s =>
    match _conn s with
    | Some _ =>
        set_conn None
          (if (0 <? _actions_pending s)%Z then set_actions_pending 0 s else s)
    | None => s
    end).

(** [self._sem_throttle.release()] *)
Definition release_throttle : M unit :=
  modify (fun s => set_sem_throttle (S (_sem_throttle s)) s).

(** [for _ in range(n): m] *)
Fixpoint repeatM (n : nat) (m : M unit) : M unit :=
  match n with
  | O => ret tt
  | S n' => let* _ := m in repeatM n' m
  end.

(** [HttpFetcher.set_rate] on the throttle of the state, where taking a
    slot may have to wait: the ceiling [self._max_nb_requests] is the
    first argument, and the value assigned to it is returned. *)
Definition HttpFetcher_set_rate (_max_nb_requests max_nb_requests : Z) : M Z :=
  let delta := (max_nb_requests - _max_nb_requests)%Z in
  let* _ :=
    (if (0 <? delta)%Z then repeatM (Z.to_nat delta) release_throttle
     else if (delta <? 0)%Z
          then repeatM (Z.to_nat (- delta)) HttpFetcher.acquire_throttle
          else ret tt) in
  ret max_nb_requests.

(** ** More vocabulary *)

(** One [create_or_update] per item of [data.items()], in order. *)
Fixpoint create_or_update_each `{Environment} (data : dict json) : M unit :=
  match data with
  | [] => ret tt
  | (url, response) :: data' =>
      let* _ := RequestsCache.create_or_update url response in
      create_or_update_each data'
  end.

(** The write counter is below the threshold at which [_update_count]
    commits. *)
Definition pending_in_range (s : state) : Prop :=
  (0 <= _actions_pending s < 100)%Z.

Definition keeps_pending_in_range {A} (m : M A) : Prop :=
  forall s, pending_in_range s -> pending_in_range (m s).2.

(** An error status that is neither retried nor taken for an answer. *)
Definition fatal_status (status : Z) : bool :=
  ((400 <=? status) && negb (status =? 404) && negb (status =? 429)
   && negb ((500 <=? status) && (status <? 600)))%Z.

(** [m] returns or raises, and writes to the log at most. *)
Definition logs_only {A} (m : M A) : Prop :=
  forall s, (m s).1 <> Blocked /\ exists l, (m s).2 = set_log l s.


(** ** helpers.py and gui.py: the callers of the fetcher and their dates

    [get_available_date_range] runs in [M]; the functions on dates and
    strings are pure. Where one of them can raise, the exception is the
    only one it can raise, and [None] (or [Raise]) stands for it. *)

(** [get_available_date_range(fetcher)] *)
Definition describe_url : string :=
  "https://api.similarweb.com/v1/website/xxx/traffic-and-engagement/describe".

Definition get_available_date_range `{Environment} : M json :=
  let* data_describe := CachedDataFetcher.fetch describe_url false true in
  if negb (is_None data_describe) then
    let* response := HttpFetcher.py_get data_describe "response" (JObj []) in
    let* traffic := HttpFetcher.py_get response "traffic_and_engagement" (JObj []) in
    let* countries := HttpFetcher.py_get traffic "countries" (JObj []) in
    HttpFetcher.py_get countries "world" (JObj [])
  else ret (JObj []).

(** Slices of a sequence of length [len]: the index an [int] bound
    stands for in [s[:i]] and [s[i:]]. *)
Definition slice_index (len : nat) (i : Z) : nat :=
  Z.to_nat (Z.min (Z.of_nat len)
                  (Z.max 0 (if (i <? 0)%Z then i + Z.of_nat len else i))).

(** [s[:j]] *)
Definition slice_to {A} (s : list A) (j : Z) : list A :=
  take (slice_index (length s) j) s.

(** [s[i:]] *)
Definition slice_from {A} (s : list A) (i : Z) : list A :=
  drop (slice_index (length s) i) s.

(** [mask(unmasked, show_last)], a [str] taken as the list of its
    characters; [star] is the character [*]. *)
Definition mask {char : Type} (star : char) (unmasked : list char) (show_last : Z)
  : list char :=
  repeat star (length (slice_to unmasked (- show_last)))
  ++ slice_from unmasked (- show_last).

(** [date_to_year_month(date)] *)
Definition date_to_year_month (date : string) : string :=
  String.concat "-" (take 2 (urllib.split_on "-" date)).

(** [first_day_of_month(date)] *)
Definition first_day_of_month (date : string) : string :=
  date_to_year_month date +:+ "-01".

(** [MONTHS_NUMBERS] of gui.py *)
Definition MONTHS_NUMBERS : dict string :=
  [("Jan", "01"); ("Feb", "02"); ("Mar", "03"); ("Apr", "04"); ("May", "05");
   ("Jun", "06"); ("Jul", "07"); ("Aug", "08"); ("Sep", "09"); ("Oct", "10");
   ("Nov", "11"); ("Dec", "12")].

(** [encode_month(month, year)]; [None] stands for the [KeyError] of
    [MONTHS_NUMBERS[month]]. *)
Definition encode_month (month year : string) : option string :=
  if urllib.nonempty year && urllib.nonempty month then
    match dict_get MONTHS_NUMBERS month with
    | Some number => Some (year +:+ "-" +:+ number)
    | None => None
    end
  else Some "".

(** The loop of [decode_month]: the first key whose value is
    [month_num], or the empty string. *)
Fixpoint month_name_of (items : list (string * string)) (month_num : string) : string :=
  match items with
  | [] => ""
  | (key, val) :: items' =>
      if String.eqb val month_num then key else month_name_of items' month_num
  end.

(** [decode_month(date)]; [None] stands for the [ValueError] of an
    unpacking that does not find two values. *)
Definition decode_month (date : string) : option (string * string) :=
  if urllib.has_char "-" date then
    match take 2 (urllib.split_on "-" date) with
    | [year; month_num] => Some (month_name_of MONTHS_NUMBERS month_num, year)
    | _ => None
    end
  else Some ("", "").

(** [f'{n:0{width}d}'] *)
Definition zfill (width : nat) (digits : string) : string :=
  string_of_list_ascii (repeat "0"%char (width - String.length digits)) +:+ digits.

Definition format_0d (width : nat) (n : Z) : string :=
  if (n <? 0)%Z then "-" +:+ zfill (width - 1) (pretty (Z.to_N (- n)))
  else zfill width (pretty (Z.to_N n)).

(** [f'{year:04d}-{month:02d}'] *)
Definition format_month (year month : Z) : string :=
  format_0d 4 year +:+ "-" +:+ format_0d 2 month.

(** The [while] loop of [months_between], [Blocked] standing for a loop
    that does not end within [fuel] turns. *)
Fixpoint months_loop (fuel : nat) (year month end_year end_month : Z)
    (result : list string) : outcome (list string) :=
  if ((year <? end_year) || (month <? end_month))%Z then
    match fuel with
    | O => Blocked
    | S fuel' =>
        let result := result ++ [format_month year month] in
        if (month <? 12)%Z
        then months_loop fuel' year (month + 1) end_year end_month result
        else months_loop fuel' (year + 1) 1 end_year end_month result
    end
  else Ok (result ++ [format_month year month]).

Section months.
(** [int(x)] for a [str], [None] standing for its [ValueError]. *)
Variable int : string -> option Z.

(** [(int(x) for x in s.split('-')[:2])] unpacked into two names. *)
Definition year_and_month (s : string) : option (Z * Z) :=
  match take 2 (urllib.split_on "-" s) with
  | [y; m] =>
      match int y, int m with
      | Some year, Some month => Some (year, month)
      | _, _ => None
      end
  | _ => None
  end.

(** Turns of the loop that are enough from [(year, month)]. *)
Definition turns (year month end_year : Z) : nat :=
  Z.to_nat (13 * Z.max 0 (end_year - year) + (12 - month)).

Definition months_between (start_month end_month : string) : outcome (list string) :=
  let '(start_month, end_month) :=
    if String.ltb end_month start_month then (end_month, start_month)
    else (start_month, end_month) in
  match year_and_month start_month, year_and_month end_month with
  | Some (year, month), Some (end_year, end_month) =>
      if ((12 <? month) || (12 <? end_month))%Z then Raise ValueError
      else months_loop (turns year month end_year) year month end_year end_month []
  | _, _ => Raise ValueError
  end.

(** [months_before(month, nb_months)] *)
Definition months_before (month : string) (nb_months : Z) : outcome (list string) :=
  let last_month := String.concat "-" (take 2 (urllib.split_on "-" month)) in
  match months_between "2018-01" last_month with
  | Ok months => Ok (slice_from months (- nb_months))
  | Raise e => Raise e
  | Blocked => Blocked
  end.

End months.

(** [int] on the numerals written with ASCII digits only, for the
    examples. *)
Definition digit_value (c : ascii) : option Z :=
  if urllib.is_digit c then Some (Z.of_N (urllib.code c) - 48)%Z else None.

Fixpoint digits_value (acc : Z) (s : string) : option Z :=
  match s with
  | EmptyString => Some acc
  | String c s' =>
      match digit_value c with
      | Some d => digits_value (10 * acc + d) s'
      | None => None
      end
  end.

Definition int_of_digits (s : string) : option Z :=
  match s with
  | EmptyString => None
  | _ => digits_value 0 s
  end.

(** The [i]-th month after month [month] of year [year], months counted
    from 1 to 12. *)
Definition nth_month (year month : Z) (i : nat) : Z * Z :=
  let t := (month - 1 + Z.of_nat i)%Z in ((year + t / 12)%Z, (t mod 12 + 1)%Z).

Definition format_nth_month (year month : Z) (i : nat) : string :=
  format_month (nth_month year month i).1 (nth_month year month i).2.


(** * Properties *)

Import urllib RequestsCache.

(** ** Strings and sorting *)

Lemma append_cons a s t : String a s +:+ t = String a (s +:+ t).
Proof. reflexivity. Qed.

Lemma append_empty_r s : s +:+ "" = s.
Proof.
  induction s as [|a s IH]; [reflexivity | rewrite append_cons, IH; reflexivity].
Qed.

Lemma ascii_compare_refl a : Ascii.compare a a = Eq.
Proof. unfold Ascii.compare. apply N.compare_refl. Qed.

Lemma string_compare_refl s : String.compare s s = Eq.
Proof.
  induction s as [|a s IH]; simpl; [reflexivity|].
  rewrite ascii_compare_refl. exact IH.
Qed.

Lemma string_leb_refl s : String.leb s s = true.
Proof. unfold String.leb. rewrite string_compare_refl. reflexivity. Qed.

Lemma string_leb_trans s1 s2 s3 :
  String.leb s1 s2 = true -> String.leb s2 s3 = true -> String.leb s1 s3 = true.
Proof.
  unfold String.leb. revert s2 s3.
  induction s1 as [|a s1 IH]; intros [|b s2] [|c s3]; simpl; try congruence.
  unfold Ascii.compare.
  destruct (N.compare_spec (N_of_ascii a) (N_of_ascii b)) as [E1|L1|G1];
  destruct (N.compare_spec (N_of_ascii b) (N_of_ascii c)) as [E2|L2|G2];
  destruct (N.compare_spec (N_of_ascii a) (N_of_ascii c)) as [E3|L3|G3];
  try congruence; try lia; try (intros; reflexivity).
  apply IH.
Qed.

Lemma values_of_cons name p l :
  values_of name (p :: l) =
  if String.eqb (fst p) name then p :: values_of name l else values_of name l.
Proof. reflexivity. Qed.

(** Insertion puts [p] in front of the parameters of the same name. *)
Lemma values_of_insert name p l :
  values_of name (insert_by_name p l) =
  if String.eqb (fst p) name then p :: values_of name l else values_of name l.
Proof.
  induction l as [|q l IH]; simpl.
  - destruct (String.eqb_spec (fst p) name); reflexivity.
  - destruct (String.leb (fst p) (fst q)) eqn:Hle; simpl.
    + destruct (String.eqb_spec (fst p) name); reflexivity.
    + rewrite IH.
      destruct (String.eqb_spec (fst q) name) as [Hq|Hq];
      destruct (String.eqb_spec (fst p) name) as [Hp|Hp]; try reflexivity.
      rewrite Hp, <- Hq, string_leb_refl in Hle. discriminate.
Qed.

(** The sort is stable. *)
Lemma values_of_sort name l :
  values_of name (sort_by_name l) = values_of name l.
Proof.
  induction l as [|p l IH]; simpl; [reflexivity|].
  rewrite values_of_insert, IH. reflexivity.
Qed.

Lemma Forall_insert (P : string * string -> Prop) p l :
  P p -> Forall P l -> Forall P (insert_by_name p l).
Proof.
  intros Hp Hl. induction Hl as [|q l Hq Hl IH]; simpl.
  - repeat constructor; assumption.
  - destruct (String.leb (fst p) (fst q)); repeat constructor; assumption.
Qed.

Lemma ascending_insert p l : ascending l -> ascending (insert_by_name p l).
Proof.
  induction l as [|q l IH]; simpl; intros Hl.
  - split; [constructor | exact I].
  - destruct Hl as [Hq Hl].
    destruct (String.leb (fst p) (fst q)) eqn:Hle; simpl.
    + split; [|split; assumption].
      constructor; [exact Hle|].
      eapply Forall_impl; [exact Hq|].
      intros r Hr. simpl in Hr. eapply string_leb_trans; eassumption.
    + split; [|apply IH; exact Hl].
      apply Forall_insert; [|exact Hq].
      destruct (String.leb_total (fst p) (fst q)) as [H1|H1]; congruence.
Qed.

Lemma ascending_sort l : ascending (sort_by_name l).
Proof.
  induction l as [|p l IH]; simpl; [exact I | apply ascending_insert, IH].
Qed.

Lemma insert_by_name_perm p l : Permutation (insert_by_name p l) (p :: l).
Proof.
  induction l as [|q l IH]; simpl; [reflexivity|].
  destruct (String.leb (fst p) (fst q)); [reflexivity|].
  rewrite IH. apply perm_swap.
Qed.

Lemma sort_by_name_perm l : Permutation (sort_by_name l) l.
Proof.
  induction l as [|p l IH]; simpl; [reflexivity|].
  rewrite insert_by_name_perm, IH. reflexivity.
Qed.

Lemma values_of_nil_inv l : (forall name, values_of name l = []) -> l = [].
Proof.
  destruct l as [|q l]; [reflexivity|]. intros Hv.
  specialize (Hv (fst q)). rewrite values_of_cons, String.eqb_refl in Hv.
  discriminate.
Qed.

Lemma in_values_of name q l : In q (values_of name l) <-> In q l /\ fst q = name.
Proof. unfold values_of. rewrite filter_In, String.eqb_eq. reflexivity. Qed.

Lemma ascending_head_le p l q :
  ascending (p :: l) -> In q (p :: l) -> String.leb (fst p) (fst q) = true.
Proof.
  intros [Hall _] [->|Hin]; [apply string_leb_refl|].
  rewrite Forall_forall in Hall. apply Hall, list_elem_of_In, Hin.
Qed.

(** A list in ascending order of names is determined by what it holds
    under each name: a stable sort has only one possible result. *)
Lemma sorted_stable_unique l1 : forall l2,
  ascending l1 -> ascending l2 ->
  (forall name, values_of name l1 = values_of name l2) -> l1 = l2.
Proof.
  induction l1 as [|p l1 IH]; intros l2 H1 H2 Hv.
  - symmetry. apply values_of_nil_inv. intros name. rewrite <- Hv. reflexivity.
  - destruct l2 as [|q l2].
    + apply values_of_nil_inv. intros name. rewrite Hv. reflexivity.
    + assert (Hpq : fst p = fst q).
      { apply String.leb_antisym.
        - apply (ascending_head_le p l1 q H1).
          apply (in_values_of (fst q)). rewrite Hv.
          apply in_values_of. split; [left|]; reflexivity.
        - apply (ascending_head_le q l2 p H2).
          apply (in_values_of (fst p)). rewrite <- Hv.
          apply in_values_of. split; [left|]; reflexivity. }
      assert (Hhead := Hv (fst p)). rewrite !values_of_cons in Hhead.
      rewrite <- Hpq, String.eqb_refl in Hhead.
      injection Hhead as -> Htail.
      f_equal. apply IH; [apply H1 | apply H2 |].
      intros name. specialize (Hv name). rewrite !values_of_cons in Hv.
      revert Hv. destruct (String.eqb_spec (fst q) name) as [Heq|Hne]; intros Hv.
      * rewrite <- Heq. exact Htail.
      * exact Hv.
Qed.

(** ** RequestsCache._normalize_url *)

Lemma values_of_not_api_key name l :
  values_of name (List.filter not_api_key l) =
  if String.eqb name "api_key" then [] else values_of name l.
Proof.
  induction l as [|p l IH].
  - simpl. destruct (String.eqb name "api_key"); reflexivity.
  - cbn [List.filter]. unfold not_api_key at 1.
    destruct (String.eqb_spec (fst p) "api_key") as [Hp|Hp]; cbn [negb].
    + rewrite IH, values_of_cons.
      destruct (String.eqb_spec name "api_key") as [Hn|Hn]; [reflexivity|].
      destruct (String.eqb_spec (fst p) name); [congruence|reflexivity].
    + rewrite !values_of_cons, IH.
      destruct (String.eqb_spec (fst p) name) as [Hpn|Hpn]; [|reflexivity].
      destruct (String.eqb_spec name "api_key"); [congruence|reflexivity].
Qed.

Lemma values_of_normalized_params name q :
  values_of name (normalized_params q) =
  if String.eqb name "api_key" then [] else values_of name (parse_qsl q).
Proof.
  unfold normalized_params. rewrite values_of_sort. apply values_of_not_api_key.
Qed.

Lemma urlunsplit_fragment v :
  urlunsplit v =
  urlunsplit (without_fragment v)
  +:+ (if nonempty (fragment v) then "#" +:+ fragment v else "").
Proof.
  unfold urlunsplit, without_fragment.
  cbn [scheme netloc path query fragment nonempty].
  destruct (nonempty (fragment v)); [reflexivity | symmetry; apply append_empty_r].
Qed.

Lemma has_char_remove c p s :
  has_char c s = false -> has_char c (remove_chars p s) = false.
Proof.
  induction s as [|a s IH]; simpl; [reflexivity|].
  intros Hc. apply orb_false_iff in Hc as [Ha Hs].
  destruct (p a); simpl; [apply IH, Hs | rewrite Ha; apply IH, Hs].
Qed.

Lemma remove_chars_app p s1 s2 :
  remove_chars p (s1 +:+ s2) = remove_chars p s1 +:+ remove_chars p s2.
Proof.
  induction s1 as [|a s1 IH]; [reflexivity|].
  rewrite append_cons. simpl. destruct (p a); rewrite IH; reflexivity.
Qed.

Lemma has_char_app c s1 s2 :
  has_char c (s1 +:+ s2) = has_char c s1 || has_char c s2.
Proof.
  induction s1 as [|a s1 IH]; [reflexivity|].
  rewrite append_cons. simpl. rewrite IH, orb_assoc. reflexivity.
Qed.

Lemma partition_absent c s : has_char c s = false -> partition c s = None.
Proof.
  induction s as [|a s IH]; simpl; [reflexivity|].
  intros Hc. apply orb_false_iff in Hc as [Ha Hs]. rewrite Ha, (IH Hs). reflexivity.
Qed.

Lemma split_on_app sep s1 s2 :
  has_char sep s1 = false ->
  split_on sep (s1 +:+ String sep s2) = s1 :: split_on sep s2.
Proof.
  induction s1 as [|a s1 IH].
  - intros _. change ("" +:+ String sep s2) with (String sep s2). simpl.
    rewrite Ascii.eqb_refl. reflexivity.
  - rewrite append_cons. simpl.
    intros Hc. apply orb_false_iff in Hc as [Ha Hs]. rewrite Ha, (IH Hs). reflexivity.
Qed.

(** The example of the specification, for every credential [K] that is
    one query value (no [&], no [#]). *)
Lemma normalize_spec_example (K : string) :
  has_char "&" K = false -> has_char "#" K = false ->
  _normalize_url ("https://a.com/x?b=2&api_key=" +:+ K +:+ "&a=1")
  = _normalize_url "https://a.com/x?a=1&b=2".
Proof.
  intros Hamp Hhash.
  set (K' := remove_chars is_unsafe_byte K).
  assert (Hamp' : has_char "&" K' = false) by (apply has_char_remove, Hamp).
  assert (Hhash' : has_char "#" K' = false) by (apply has_char_remove, Hhash).
  assert (Hsplit : urlsplit ("https://a.com/x?b=2&api_key=" +:+ K +:+ "&a=1")
                   = mkSplitResult "https" "a.com" "/x"
                       ("b=2&api_key=" +:+ K' +:+ "&a=1") "").
  { unfold urlsplit.
    change (lstrip _) with ("https://a.com/x?b=2&api_key=" +:+ K +:+ "&a=1").
    rewrite !remove_chars_app. fold K'.
    change (remove_chars is_unsafe_byte "https://a.com/x?b=2&api_key=")
      with "https://a.com/x?b=2&api_key=".
    change (remove_chars is_unsafe_byte "&a=1") with "&a=1".
    change (split_scheme _) with ("https", "//a.com/x?b=2&api_key=" +:+ K' +:+ "&a=1").
    cbv beta iota zeta.
    change (split_netloc _) with ("a.com", "/x?b=2&api_key=" +:+ K' +:+ "&a=1").
    cbv beta iota.
    rewrite (partition_absent "#").
    2:{ rewrite !has_char_app, Hhash'. reflexivity. }
    reflexivity. }
  unfold _normalize_url. rewrite Hsplit.
  cbn [query _replace_query scheme netloc path fragment].
  assert (Hparams : normalized_params ("b=2&api_key=" +:+ K' +:+ "&a=1")
                    = [("a", "1"); ("b", "2")]).
  { unfold normalized_params, parse_qsl.
    change ("b=2&api_key=" +:+ K' +:+ "&a=1")
      with ("b=2" +:+ String "&" (("api_key=" +:+ K') +:+ String "&" "a=1")).
    rewrite split_on_app by reflexivity.
    rewrite split_on_app by (rewrite has_char_app, Hamp'; reflexivity).
    change (split_on "&" "a=1") with ["a=1"].
    cbn [omap list_omap].
    change (parse_field "b=2") with (Some ("b", "2")).
    change (parse_field "a=1") with (Some ("a", "1")).
    change (parse_field ("api_key=" +:+ K'))
      with (if nonempty K' then Some ("api_key", unquote (replace_plus K')) else None).
    destruct (nonempty K'); reflexivity. }
  rewrite Hparams. reflexivity.
Qed.

(** C5 (amended). Two URLs with the same scheme, host, path and fragment
    that give, for every parameter name other than [api_key], the same
    values in the same order have the same normalised key: the value or
    presence of [api_key] and the order of parameters of different names
    do not matter (parameters sharing a name must keep their relative
    order). In particular the key of
    [https://a.com/x?b=2&api_key=K&a=1] is that of
    [https://a.com/x?a=1&b=2] for every credential [K] without [&] and
    [#]. *)
Theorem normalize_ignores_credential_and_order :
  (forall u1 u2,
     scheme (urlsplit u1) = scheme (urlsplit u2) ->
     netloc (urlsplit u1) = netloc (urlsplit u2) ->
     path (urlsplit u1) = path (urlsplit u2) ->
     fragment (urlsplit u1) = fragment (urlsplit u2) ->
     (forall name, name <> "api_key" ->
        values_of name (parse_qsl (query (urlsplit u1))) =
        values_of name (parse_qsl (query (urlsplit u2)))) ->
     _normalize_url u1 = _normalize_url u2)
  /\ (forall K,
        has_char "&" K = false -> has_char "#" K = false ->
        _normalize_url ("https://a.com/x?b=2&api_key=" +:+ K +:+ "&a=1")
        = _normalize_url "https://a.com/x?a=1&b=2").
Proof.
  split.
  - intros u1 u2 Hs Hn Hp Hf Hq. unfold _normalize_url, _replace_query.
    rewrite Hs, Hn, Hp, Hf. do 3 f_equal.
    apply sorted_stable_unique; try apply ascending_sort.
    intros name. rewrite !values_of_normalized_params.
    destruct (String.eqb_spec name "api_key"); [reflexivity | apply Hq; assumption].
  - intros K Hamp Hhash. apply normalize_spec_example; assumption.
Qed.

Lemma values_of_example name :
  name <> "api_key" ->
  values_of name (parse_qsl (query (urlsplit "https://a.com/x?c=3&api_key=S3CR3T&a=1&c=4"))) =
  values_of name (parse_qsl (query (urlsplit "https://a.com/x?a=1&c=3&c=4"))).
Proof.
  intros Hname. vm_compute parse_qsl. rewrite !values_of_cons. cbn [fst].
  destruct (String.eqb_spec "api_key" name); [congruence|].
  destruct (String.eqb_spec "a" name) as [<-|Ha]; [reflexivity|].
  destruct (String.eqb_spec "c" name); reflexivity.
Qed.

Lemma normalize_ignores_credential_and_order_witness :
  _normalize_url "https://a.com/x?c=3&api_key=S3CR3T&a=1&c=4"
  = _normalize_url "https://a.com/x?a=1&c=3&c=4"
  /\ _normalize_url ("https://a.com/x?b=2&api_key=" +:+ "S3CR3T" +:+ "&a=1")
     = _normalize_url "https://a.com/x?a=1&b=2".
Proof.
  split.
  - apply (proj1 normalize_ignores_credential_and_order);
      [reflexivity | reflexivity | reflexivity | reflexivity | exact values_of_example].
  - apply (proj2 normalize_ignores_credential_and_order); reflexivity.
Defined.

(** C5, as stated, fails: these two URLs differ only in the order of
    their query parameters and get different keys, because the sort is
    by name only and keeps parameters of one name in their order. *)
Lemma same_name_order_changes_key :
  differ_only_in_parameter_order "https://a.com/x?a=1&a=2" "https://a.com/x?a=2&a=1"
  /\ _normalize_url "https://a.com/x?a=1&a=2" = "https://a.com/x?a=1&a=2"
  /\ _normalize_url "https://a.com/x?a=2&a=1" = "https://a.com/x?a=2&a=1"
  /\ _normalize_url "https://a.com/x?a=1&a=2" <> _normalize_url "https://a.com/x?a=2&a=1".
Proof.
  repeat split; try reflexivity.
  - vm_compute. apply perm_swap.
  - vm_compute. discriminate.
Qed.

(** C6 (amended). [_normalize_url] is a function of the URL alone. Its
    result is [urlunsplit] of the scheme, host and path of the URL, of
    the re-encoded parameters and of the fragment of the URL, which is
    kept: the result ends with [#] and the fragment whenever there is one.
    The parameters hold no [api_key], are in ascending order of names,
    and are the remaining parameters of the URL, those of one name in
    their original order. *)
Theorem normalize_url_shape (url : string) :
  let v := urlsplit url in
  let params := normalized_params (query v) in
  _normalize_url url =
    urlunsplit (mkSplitResult (scheme v) (netloc v) (path v) (urlencode params) "")
    +:+ (if nonempty (fragment v) then "#" +:+ fragment v else "")
  /\ Forall (fun p => fst p <> "api_key") params
  /\ ascending params
  /\ (forall name, name <> "api_key" ->
        values_of name params = values_of name (parse_qsl (query v)))
  /\ Permutation params (List.filter not_api_key (parse_qsl (query v))).
Proof.
  intros v params. repeat split.
  - unfold _normalize_url. fold v. fold params.
    rewrite (urlunsplit_fragment (_replace_query v (urlencode params))).
    reflexivity.
  - apply Forall_forall. intros p Hp. apply list_elem_of_In in Hp.
    intros Hname.
    assert (Hv : In p (values_of "api_key" params))
      by (apply in_values_of; split; assumption).
    unfold params in Hv. rewrite values_of_normalized_params in Hv. exact Hv.
  - apply ascending_sort.
  - intros name Hname. unfold params. rewrite values_of_normalized_params.
    destruct (String.eqb_spec name "api_key"); [contradiction | reflexivity].
  - apply sort_by_name_perm.
Qed.

(** C6, as stated, fails: the fragment is not dropped, so a URL with a
    fragment and the same URL without it get different keys. *)
Lemma fragment_changes_key :
  _normalize_url "https://a.com/x?a=1#frag" = "https://a.com/x?a=1#frag"
  /\ _normalize_url "https://a.com/x?a=1" = "https://a.com/x?a=1"
  /\ _normalize_url "https://a.com/x?a=1#frag" <> _normalize_url "https://a.com/x?a=1".
Proof.
  repeat split; try reflexivity. vm_compute. discriminate.
Qed.

(** ** The monad *)

Lemma bind_unfold {A B} (m : M A) (k : A -> M B) s :
  bind m k s =
  match m s with
  | (Ok a, s') => k a s'
  | (Raise e, s') => (Raise e, s')
  | (Blocked, s') => (Blocked, s')
  end.
Proof. reflexivity. Qed.

Lemma set_log_set_log l1 l2 s : set_log l1 (set_log l2 s) = set_log l1 s.
Proof. reflexivity. Qed.

Lemma set_log_same s : set_log (log s) s = s.
Proof. destruct s; reflexivity. Qed.

Lemma dict_get_set {V} (d : dict V) k v k' :
  dict_get (dict_set d k v) k' = if String.eqb k k' then Some v else dict_get d k'.
Proof.
  induction d as [|[k0 v0] d IH]; simpl.
  - destruct (String.eqb k k'); reflexivity.
  - destruct (String.eqb_spec k0 k) as [->|Hne]; simpl.
    + destruct (String.eqb k k'); reflexivity.
    + rewrite IH. destruct (String.eqb_spec k0 k') as [->|Hne']; [|reflexivity].
      destruct (String.eqb_spec k k'); [congruence|reflexivity].
Qed.

(** ** chunks *)

Section chunks_facts.
Context {A : Type}.

Lemma slices_concat (n k : nat) : forall (l : list A),
  length l <= k * n ->
  concat (map (fun i => take n (drop i l)) (map (fun j => j * n) (seq 0 k))) = l.
Proof.
  induction k as [|k IH]; intros l Hlen.
  - simpl in *. destruct l; [reflexivity | simpl in Hlen; lia].
  - cbn [seq]. rewrite <- seq_shift. cbn [map concat].
    change (0 * n) with 0. rewrite drop_0.
    transitivity (take n l ++ drop n l); [|apply take_drop]. f_equal.
    rewrite <- (IH (drop n l)) by (rewrite length_drop; lia).
    f_equal. rewrite !map_map. apply map_ext. intros j.
    rewrite drop_drop. reflexivity.
Qed.

(** The chunks, one after the other, are the list. *)
Lemma chunks_concat (l : list A) (n : nat) : 0 < n -> concat (chunks l n) = l.
Proof.
  intros Hn. unfold chunks, range_step. apply slices_concat.
  pose proof (Nat.div_mod_eq (length l + n - 1) n) as Hd.
  pose proof (Nat.mod_upper_bound (length l + n - 1) n ltac:(lia)) as Hm.
  nia.
Qed.

End chunks_facts.

(** ** RequestsCache.retrieve and retrieve_all *)

Section cache_facts.
Context `{Environment}.

Lemma lookup_select_in (db : gmap string row) keys k :
  (list_to_map (select_in db keys) : gmap string string) !! k =
  if decide (k ∈ keys) then response <$> db !! k else None.
Proof.
  unfold select_in. rewrite list_to_map_to_list, lookup_fmap, map_lookup_filter.
  destruct (db !! k) as [r|]; simpl; [|destruct (decide _); reflexivity].
  case_guard; simpl in *; destruct (decide (k ∈ keys)); try reflexivity; contradiction.
Qed.

(** Chunk after chunk, [cache_results] holds the stored rows of the keys
    queried so far. *)
Lemma query_chunks_from (db : gmap string row) cs : forall (acc : gmap string string) k,
  (forall k v, acc !! k = Some v -> response <$> db !! k = Some v) ->
  fold_left
    (fun cache_results chunk =>
       (list_to_map (select_in db (map _normalize_url chunk)) : gmap string string)
       ∪ cache_results) cs acc !! k =
  if decide (k ∈ map _normalize_url (concat cs)) then response <$> db !! k else acc !! k.
Proof.
  induction cs as [|c cs IH]; intros acc k Hacc.
  - cbn [fold_left concat map].
    rewrite decide_False; [reflexivity | apply not_elem_of_nil].
  - cbn [fold_left concat]. rewrite IH.
    + rewrite map_app. rewrite lookup_union, lookup_select_in.
      destruct (decide (k ∈ map _normalize_url (concat cs))) as [Hcs|Hcs].
      * rewrite decide_True; [reflexivity|]. apply elem_of_app. right. exact Hcs.
      * destruct (decide (k ∈ map _normalize_url c)) as [Hc|Hc].
        -- rewrite decide_True by (apply elem_of_app; left; exact Hc).
           destruct (db !! k) as [r|] eqn:Hk; simpl.
           ++ destruct (acc !! k); reflexivity.
           ++ destruct (acc !! k) as [v|] eqn:Ha; [|reflexivity].
              apply Hacc in Ha. rewrite Hk in Ha. discriminate.
        -- rewrite decide_False.
           ++ destruct (acc !! k); reflexivity.
           ++ intros [?|?]%elem_of_app; contradiction.
    + intros k' v [Hnew|[_ Hold]]%lookup_union_Some_raw.
      * rewrite lookup_select_in in Hnew.
        destruct (decide _); [exact Hnew | discriminate].
      * apply Hacc, Hold.
Qed.

Lemma query_chunks_lookup (db : gmap string row) urls k :
  query_chunks db (chunks urls SQL_MAX_VARIABLES) !! k =
  if decide (k ∈ map _normalize_url urls) then response <$> db !! k else None.
Proof.
  unfold query_chunks. rewrite query_chunks_from.
  - rewrite chunks_concat by (unfold SQL_MAX_VARIABLES; lia). reflexivity.
  - intros k' v. rewrite lookup_empty. discriminate.
Qed.

(** However the list is cut into chunks, [cache_results] holds for each
    url of the list what the table stores under its key. *)
Lemma cache_results_stored s urls u :
  u ∈ urls -> cache_results_of s urls !! _normalize_url u = stored s (_normalize_url u).
Proof.
  intros Hin. unfold cache_results_of, stored. destruct (_conn s) as [db|].
  - rewrite query_chunks_lookup, decide_True; [reflexivity|].
    apply list_elem_of_In, in_map, list_elem_of_In, Hin.
  - apply lookup_empty.
Qed.

Lemma retrieve_all_unfold urls s :
  retrieve_all urls s = classify (cache_results_of s urls) urls [] [] s.
Proof. reflexivity. Qed.

Lemma retrieve_stored url s :
  retrieve url s =
  match stored s (_normalize_url url) with
  | None => (Ok JNull, s)
  | Some text =>
      match loads text with
      | Some v => (Ok v, s)
      | None => (Ok JNull,
                 set_log (ERROR_cache_parse "retrieve" (_normalize_url url) :: log s) s)
      end
  end.
Proof.
  unfold retrieve, stored, bind, get_state, ret, logger, modify.
  destruct (_conn s) as [db|]; [|reflexivity].
  destruct (db !! _normalize_url url) as [r|]; [|reflexivity]. simpl.
  destruct (loads (response r)); reflexivity.
Qed.

(** One more url of the second loop, seen from the lookups in [hits]. *)
Lemma hits_step (cr : gmap string string) url urls (hits : dict json) text u :
  cr !! _normalize_url url = Some text ->
  (if decide (u ∈ urls /\ is_Some (cr !! _normalize_url u))
   then decoded <$> cr !! _normalize_url u
   else dict_get (dict_set hits url (decoded text)) u)
  = if decide (u ∈ url :: urls /\ is_Some (cr !! _normalize_url u))
    then decoded <$> cr !! _normalize_url u
    else dict_get hits u.
Proof.
  intros Hcr. rewrite dict_get_set.
  destruct (decide (u ∈ urls /\ is_Some (cr !! _normalize_url u))) as [[Hin Hs]|Hn].
  - rewrite decide_True; [reflexivity|]. split; [right; exact Hin|exact Hs].
  - destruct (String.eqb_spec url u) as [->|Hne].
    + rewrite decide_True.
      * rewrite Hcr. reflexivity.
      * split; [left|]. rewrite Hcr. eexists; reflexivity.
    + rewrite decide_False; [reflexivity|].
      intros [Hin Hs]. apply Hn. split; [|exact Hs].
      apply elem_of_cons in Hin as [->|Hin]; [congruence|exact Hin].
Qed.

(** The second loop of [retrieve_all] always returns: the misses are the
    urls without a row, in order; every url with a row is a hit, with the
    decoded text or [None]; one error line is logged per text that does
    not decode; nothing else changes. *)
Lemma classify_spec cr urls : forall hits missed s,
  exists hits',
    classify cr urls hits missed s =
      (Ok (hits',
           missed ++ List.filter (fun u => bool_decide (cr !! _normalize_url u = None)) urls),
       set_log (rev (omap (parse_error "retrieve_all" cr) urls) ++ log s) s)
    /\ forall u, dict_get hits' u =
         if decide (u ∈ urls /\ is_Some (cr !! _normalize_url u))
         then decoded <$> cr !! _normalize_url u
         else dict_get hits u.
Proof.
  induction urls as [|url urls IH]; intros hits missed s.
  - exists hits. split.
    + cbn. rewrite app_nil_r, set_log_same. reflexivity.
    + intros u. rewrite decide_False; [reflexivity|].
      intros [Hin _]. inversion Hin.
  - cbn [classify List.filter omap list_omap]. unfold parse_error at 1.
    destruct (cr !! _normalize_url url) as [text|] eqn:Hcr.
    + rewrite bool_decide_eq_false_2 by discriminate.
      destruct (loads text) as [v|] eqn:Hl.
      * destruct (IH (dict_set hits url v) missed s) as (hits' & Heq & Hget).
        exists hits'. split; [exact Heq|].
        intros u. rewrite Hget. replace v with (decoded text).
        -- apply hits_step, Hcr.
        -- unfold decoded. rewrite Hl. reflexivity.
      * rewrite bind_unfold. unfold logger, modify.
        destruct (IH (dict_set hits url JNull) missed
                     (set_log (ERROR_cache_parse "retrieve_all" (_normalize_url url) :: log s) s))
          as (hits' & Heq & Hget).
        exists hits'. split.
        -- rewrite Heq. cbn [rev log set_log]. rewrite set_log_set_log.
           rewrite <- app_assoc. reflexivity.
        -- intros u. rewrite Hget. replace JNull with (decoded text).
           ++ apply hits_step, Hcr.
           ++ unfold decoded. rewrite Hl. reflexivity.
    + rewrite bool_decide_eq_true_2 by reflexivity.
      destruct (IH hits (missed ++ [url]) s) as (hits' & Heq & Hget).
      exists hits'. split.
      * rewrite Heq. rewrite <- app_assoc. reflexivity.
      * intros u. rewrite Hget.
        destruct (decide (u ∈ urls /\ is_Some (cr !! _normalize_url u))) as [[Hin Hs]|Hn].
        -- rewrite decide_True; [reflexivity|]. split; [right; exact Hin|exact Hs].
        -- rewrite decide_False; [reflexivity|].
           intros [Hin Hs]. apply Hn. split; [|exact Hs].
           apply elem_of_cons in Hin as [->|Hin]; [|exact Hin].
           rewrite Hcr in Hs. destruct Hs; discriminate.
Qed.


End cache_facts.

(** ** The batched lookup against the single one *)




(** A batch of 901 URLs is queried in two chunks; the hit is in the
    second one, and the result is that of 901 single lookups. *)
Example batch_over_two_chunks :
  map length (chunks Example.many_urls SQL_MAX_VARIABLES) = [900; 1]
  /\ (@retrieve_all Example.offline Example.many_urls Example.last_row).1
     = Ok ([("https://a.com/x?api_key=K&i=900", Example.visits)],
           List.filter
             (fun u => negb (String.eqb u "https://a.com/x?api_key=K&i=900"))
             Example.many_urls)
  /\ @retrieve_all Example.offline Example.many_urls Example.last_row
     = @get_many Example.offline Example.many_urls Example.last_row.
Proof. repeat split; vm_compute; reflexivity. Qed.





(** ** HttpFetcher: what it leaves alone *)

Section frame.
Context `{Environment}.

Lemma keeps_ret {A} (a : A) : keeps_cache (ret a).
Proof. intros s. repeat split. Qed.

Lemma keeps_raise {A} (e : exn) : keeps_cache (@raise A e).
Proof. intros s. repeat split. Qed.

Lemma keeps_bind {A B} (m : M A) (k : A -> M B) :
  keeps_cache m -> (forall a, keeps_cache (k a)) -> keeps_cache (bind m k).
Proof.
  intros Hm Hk s. rewrite bind_unfold. specialize (Hm s).
  destruct (m s) as [[a|e|] s1]; simpl in Hm; [|exact Hm|exact Hm].
  destruct (Hk a s1) as (H1 & H2 & H3). destruct Hm as (H4 & H5 & H6).
  repeat split; congruence.
Qed.

Lemma keeps_try_except {A} (m : M A) handles handler :
  keeps_cache m -> (forall e, keeps_cache (handler e)) ->
  keeps_cache (try_except m handles handler).
Proof.
  intros Hm Hh s. unfold try_except. specialize (Hm s).
  destruct (m s) as [[a|e|] s1]; simpl in Hm; try exact Hm.
  destruct (handles e); [|exact Hm].
  destruct (Hh e s1) as (H1 & H2 & H3). destruct Hm as (H4 & H5 & H6).
  repeat split; congruence.
Qed.

Lemma keeps_logger r : keeps_cache (logger r).
Proof. intros s. repeat split. Qed.

Lemma keeps_acquire : keeps_cache HttpFetcher.acquire_throttle.
Proof.
  intros s. unfold HttpFetcher.acquire_throttle.
  destruct (_sem_throttle s); [destruct (timers s)|]; repeat split.
Qed.

Lemma keeps_session_get url : keeps_cache (HttpFetcher.session_get url).
Proof. intros s. repeat split. Qed.

Lemma keeps_call_later : keeps_cache HttpFetcher.call_later_release.
Proof. intros s. repeat split. Qed.

Lemma keeps_sleep n : keeps_cache (HttpFetcher.sleep n).
Proof. intros s. repeat split. Qed.

Lemma keeps_response_json body : keeps_cache (HttpFetcher.response_json body).
Proof.
  unfold HttpFetcher.response_json.
  destruct (all_chars _ _); [apply keeps_ret|].
  destruct (loads body); [apply keeps_ret | apply keeps_raise].
Qed.

Lemma keeps_py_get o key default : keeps_cache (HttpFetcher.py_get o key default).
Proof. destruct o; simpl; first [apply keeps_ret | apply keeps_raise]. Qed.

Ltac keeps :=
  repeat first
    [ apply keeps_ret | apply keeps_raise | apply keeps_logger
    | apply keeps_acquire | apply keeps_session_get | apply keeps_call_later
    | apply keeps_sleep | apply keeps_response_json | apply keeps_py_get
    | apply keeps_bind; [|intros ?]
    | match goal with
      | |- keeps_cache (match ?x with _ => _ end) => destruct x
      end ].

Lemma keeps_attempt url : keeps_cache (HttpFetcher._fetch_retry_attempt url).
Proof. unfold HttpFetcher._fetch_retry_attempt. keeps. Qed.

Lemma keeps_on_exception {A} (target : M A) left : forall tries,
  keeps_cache target -> keeps_cache (HttpFetcher.on_exception left tries target).
Proof.
  induction left as [|left IH]; intros tries Ht s; cbn [HttpFetcher.on_exception];
    specialize (Ht s) as Hs; destruct (target s) as [[a|e|] s1]; simpl in Hs;
    try exact Hs; destruct (HttpFetcher.is_retriable e); try exact Hs.
  assert (Hk : keeps_cache (bind (HttpFetcher.sleep (HttpFetcher.fibo (tries - 1)))
                (fun _ => HttpFetcher.on_exception left (S tries) target))).
  { apply keeps_bind; [apply keeps_sleep | intros _; apply IH, Ht]. }
  destruct (Hk s1) as (H1 & H2 & H3). destruct Hs as (H4 & H5 & H6).
  repeat split; congruence.
Qed.

Lemma keeps_fetch url nc : keeps_cache (HttpFetcher.fetch url nc).
Proof.
  unfold HttpFetcher.fetch. apply keeps_try_except.
  - apply keeps_on_exception, keeps_attempt.
  - intros e. keeps.
Qed.

Lemma keeps_mapM {A B} (f : A -> M B) l :
  (forall a, keeps_cache (f a)) -> keeps_cache (mapM f l).
Proof. intros Hf. induction l as [|a l IH]; cbn [mapM]; keeps; [apply Hf|exact IH]. Qed.

Lemma keeps_fetch_all urls nc : keeps_cache (HttpFetcher.fetch_all urls nc).
Proof.
  unfold HttpFetcher.fetch_all. keeps. apply keeps_mapM. intros u. apply keeps_fetch.
Qed.

End frame.

Section transport.
Context `{Environment}.

Lemma acquire_free s :
  0 < _sem_throttle s + timers s ->
  HttpFetcher.acquire_throttle s = (Ok tt, take_slot s).
Proof.
  unfold HttpFetcher.acquire_throttle, take_slot.
  destruct (_sem_throttle s); [|reflexivity].
  destruct (timers s); [simpl; lia | reflexivity].
Qed.

Lemma requests_take_slot s : requests (take_slot s) = requests s.
Proof. unfold take_slot. destruct (_sem_throttle s); reflexivity. Qed.

Lemma sleeps_take_slot s : sleeps (take_slot s) = sleeps s.
Proof. unfold take_slot. destruct (_sem_throttle s); reflexivity. Qed.

Lemma log_take_slot s : log (take_slot s) = log s.
Proof. unfold take_slot. destruct (_sem_throttle s); reflexivity. Qed.

Lemma slots_take_slot s :
  0 < _sem_throttle s + timers s ->
  _sem_throttle (take_slot s) + timers (take_slot s) = pred (_sem_throttle s + timers s).
Proof.
  unfold take_slot. destruct (_sem_throttle s) as [|n] eqn:Hn; simpl.
  - destruct s; simpl in *. subst. simpl. lia.
  - destruct s; simpl in *. lia.
Qed.

(** With no free slot and no release scheduled, an attempt never starts. *)
Lemma attempt_blocked url s :
  _sem_throttle s + timers s = 0 ->
  HttpFetcher._fetch_retry_attempt url s = (Blocked, s).
Proof.
  intros Hz. unfold HttpFetcher._fetch_retry_attempt.
  rewrite bind_unfold. unfold HttpFetcher.acquire_throttle.
  destruct (_sem_throttle s); [|lia]. destruct (timers s); [reflexivity|lia].
Qed.

(** An attempt that gets no connection raises before any release is
    scheduled: the slot it took is lost. *)
Lemma attempt_connection_failed url s :
  0 < _sem_throttle s + timers s ->
  server (requests s) url = ConnectionFailed ->
  HttpFetcher._fetch_retry_attempt url s = (Raise ClientConnectionError, refused url s).
Proof.
  intros Hslot Hsrv. unfold HttpFetcher._fetch_retry_attempt.
  rewrite bind_unfold, (acquire_free s Hslot), bind_unfold.
  unfold HttpFetcher.session_get.
  rewrite requests_take_slot, Hsrv. reflexivity.
Qed.

Lemma slots_refused url s :
  0 < _sem_throttle s + timers s ->
  _sem_throttle (refused url s) + timers (refused url s)
  = pred (_sem_throttle s + timers s).
Proof. intros Hs. rewrite <- (slots_take_slot s Hs). reflexivity. Qed.

Lemma repeat_snoc {A} (x : A) n l : repeat x n ++ x :: l = x :: repeat x n ++ l.
Proof. induction n as [|n IH]; simpl; [reflexivity | rewrite IH; reflexivity]. Qed.

Lemma retry_blocks url (n : nat) : forall left tries s,
  1 <= tries ->
  _sem_throttle s + timers s = n ->
  n <= left ->
  (forall i, i < n -> server (repeat url i ++ requests s) url = ConnectionFailed) ->
  exists s',
    HttpFetcher.on_exception left tries (HttpFetcher._fetch_retry_attempt url) s
      = (Blocked, s')
    /\ requests s' = repeat url n ++ requests s
    /\ sleeps s' = rev (map HttpFetcher.fibo (seq (tries - 1) n)) ++ sleeps s.
Proof.
  induction n as [|n IH]; intros left tries s Htries Hn Hle Hsrv.
  - exists s. destruct left; cbn [HttpFetcher.on_exception];
      rewrite (attempt_blocked url s Hn); repeat split; reflexivity.
  - destruct left as [|left]; [lia|]. cbn [HttpFetcher.on_exception].
    rewrite attempt_connection_failed; [|lia|exact (Hsrv 0 ltac:(lia))].
    cbn [HttpFetcher.is_retriable]. rewrite bind_unfold.
    unfold HttpFetcher.sleep at 1, modify.
    destruct (IH left (S tries)
                (set_sleeps (HttpFetcher.fibo (tries - 1) :: sleeps (refused url s))
                            (refused url s)))
      as (s' & Hrun & Hreq & Hsl).
    + lia.
    + change (_sem_throttle (refused url s) + timers (refused url s) = n).
      rewrite slots_refused by lia. lia.
    + lia.
    + intros i Hi.
      change (server (repeat url i ++ url :: requests s) url = ConnectionFailed).
      rewrite repeat_snoc. apply (Hsrv (S i)). lia.
    + exists s'. split; [exact Hrun|]. split.
      * rewrite Hreq.
        change (repeat url n ++ url :: requests s = repeat url (S n) ++ requests s).
        apply repeat_snoc.
      * rewrite Hsl. cbn [sleeps set_sleeps seq map rev].
        change (sleeps (refused url s)) with (sleeps (take_slot s)).
        rewrite sleeps_take_slot.
        replace (S tries - 1) with (S (tries - 1)) by lia.
        rewrite <- app_assoc. reflexivity.
Qed.

(** C3: the code departs from the claim. A connection failure leaves the
    throttle slot of the attempt taken for good, since the release is
    only scheduled once a response has arrived. With fewer than three
    slots left (free or scheduled) and a server that cannot be reached,
    the fetch stops before its third attempt, waiting for a slot for
    ever: it neither returns an absence nor raises. *)
Theorem connection_failures_starve_retries (url : string) (nc : bool) (s : state) :
  _sem_throttle s + timers s < 3 ->
  (forall i, i < _sem_throttle s + timers s ->
     server (repeat url i ++ requests s) url = ConnectionFailed) ->
  exists s',
    HttpFetcher.fetch url nc s = (Blocked, s')
    /\ requests s' = repeat url (_sem_throttle s + timers s) ++ requests s.
Proof.
  intros Hlt Hsrv.
  destruct (retry_blocks url (_sem_throttle s + timers s) 2 1 s) as (s' & Hrun & Hreq & _);
    [lia | reflexivity | lia | exact Hsrv |].
  exists s'. split; [|exact Hreq].
  unfold HttpFetcher.fetch, try_except, HttpFetcher._fetch_retry.
  change (MAX_HTTP_RETRIES - 1) with 2. rewrite Hrun. reflexivity.
Qed.


Lemma slots_answered url s :
  0 < _sem_throttle s + timers s ->
  _sem_throttle (answered url s) + timers (answered url s) = _sem_throttle s + timers s.
Proof.
  intros Hs. unfold answered, refused.
  change (_sem_throttle (take_slot s) + S (timers (take_slot s)) = _sem_throttle s + timers s).
  pose proof (slots_take_slot s Hs). lia.
Qed.

Lemma attempt_response url s status content_type body :
  0 < _sem_throttle s + timers s ->
  server (requests s) url = Response status content_type body ->
  HttpFetcher._fetch_retry_attempt url s =
    (if ((status =? 429) || ((500 <=? status) && (status <? 600)))%Z then
       let* _ := logger (WARNING_retrying status url) in
       raise (RetriableError status (BodyText body))
     else if (status =? 400)%Z && String.eqb content_type "application/json" then
       let* content := HttpFetcher.response_json body in
       let* meta := HttpFetcher.py_get content "meta" (JObj []) in
       let* error_code := HttpFetcher.py_get meta "error_code" JNull in
       let* error_message := HttpFetcher.py_get meta "error_message" JNull in
       raise (ClientResponseError status (SimilarwebError error_code error_message))
     else if ((400 <=? status) && negb (status =? 404))%Z then
       raise (ClientResponseError status (BodyText body))
     else if String.eqb content_type "application/json" then
       HttpFetcher.response_json body
     else
       let* _ := logger (ERROR_non_json body status) in
       ret JNull) (answered url s).
Proof.
  intros Hslot Hsrv. unfold HttpFetcher._fetch_retry_attempt.
  rewrite bind_unfold, (acquire_free s Hslot), bind_unfold.
  unfold HttpFetcher.session_get.
  rewrite requests_take_slot, Hsrv. reflexivity.
Qed.

(** A retriable status raises [RetriableError]; the slot comes back. *)
Lemma attempt_retriable_status url s status content_type body :
  0 < _sem_throttle s + timers s ->
  server (requests s) url = Response status content_type body ->
  retriable_outcome (Response status content_type body) = true ->
  HttpFetcher._fetch_retry_attempt url s =
    (Raise (RetriableError status (BodyText body)),
     set_log (WARNING_retrying status url :: log s) (answered url s)).
Proof.
  intros Hslot Hsrv Hret. rewrite (attempt_response url s _ _ _ Hslot Hsrv).
  cbn [retriable_outcome] in Hret. rewrite Hret.
  rewrite bind_unfold. unfold logger, modify, raise.
  change (log (answered url s)) with (log (take_slot s)). rewrite log_take_slot.
  reflexivity.
Qed.

(** An accepted status with a JSON body that decodes returns the
    payload. *)
Lemma attempt_delivers url s status body v :
  0 < _sem_throttle s + timers s ->
  server (requests s) url = Response status "application/json" body ->
  accepted_status status = true ->
  all_chars HttpFetcher.is_space body = false ->
  loads body = Some v ->
  HttpFetcher._fetch_retry_attempt url s = (Ok v, answered url s).
Proof.
  intros Hslot Hsrv Hacc Hblank Hl. rewrite (attempt_response url s _ _ _ Hslot Hsrv).
  unfold accepted_status in Hacc.
  assert (H429 : (status =? 429)%Z = false) by lia.
  assert (H5 : ((500 <=? status) && (status <? 600))%Z = false) by lia.
  assert (H400 : (status =? 400)%Z = false) by lia.
  assert (H4 : ((400 <=? status) && negb (status =? 404))%Z = false) by lia.
  rewrite H429, H5, H400, H4. cbn [orb andb String.eqb].
  change (String.eqb "application/json" "application/json") with true. cbv iota.
  unfold HttpFetcher.response_json. rewrite Hblank, Hl. reflexivity.
Qed.

(** An accepted status whose content type is not JSON is logged and
    gives [None]. *)
Lemma attempt_non_json url s status content_type body :
  0 < _sem_throttle s + timers s ->
  server (requests s) url = Response status content_type body ->
  accepted_status status = true ->
  String.eqb content_type "application/json" = false ->
  HttpFetcher._fetch_retry_attempt url s =
    (Ok JNull, set_log (ERROR_non_json body status :: log s) (answered url s)).
Proof.
  intros Hslot Hsrv Hacc Hct. rewrite (attempt_response url s _ _ _ Hslot Hsrv).
  unfold accepted_status in Hacc.
  assert (H429 : (status =? 429)%Z = false) by lia.
  assert (H5 : ((500 <=? status) && (status <? 600))%Z = false) by lia.
  assert (H4 : ((400 <=? status) && negb (status =? 404))%Z = false) by lia.
  rewrite H429, H5, H4, Hct. rewrite andb_false_r. cbn [orb].
  rewrite bind_unfold. unfold logger, modify, ret.
  change (log (answered url s)) with (log (take_slot s)). rewrite log_take_slot.
  reflexivity.
Qed.

Lemma fetch_of_first_attempt url nc s v s1 :
  HttpFetcher._fetch_retry_attempt url s = (Ok v, s1) ->
  HttpFetcher.fetch url nc s = (Ok v, s1).
Proof.
  intros Hrun. unfold HttpFetcher.fetch, try_except, HttpFetcher._fetch_retry.
  change (MAX_HTTP_RETRIES - 1) with 2. cbn [HttpFetcher.on_exception].
  rewrite Hrun. reflexivity.
Qed.


Lemma attempt_retriable url s :
  0 < _sem_throttle s + timers s ->
  retriable_outcome (server (requests s) url) = true ->
  exists e s1,
    HttpFetcher._fetch_retry_attempt url s = (Raise e, s1)
    /\ HttpFetcher.is_retriable e = true
    /\ requests s1 = url :: requests s
    /\ sleeps s1 = sleeps s
    /\ pred (_sem_throttle s + timers s) <= _sem_throttle s1 + timers s1.
Proof.
  intros Hslot Hret. destruct (server (requests s) url) as [|status ct body] eqn:Hsrv.
  - eexists _, _. split; [apply attempt_connection_failed; assumption|].
    repeat split.
    + apply sleeps_take_slot.
    + rewrite slots_refused by assumption. lia.
  - eexists _, _. split; [eapply attempt_retriable_status; eassumption|].
    repeat split.
    + apply sleeps_take_slot.
    + change (pred (_sem_throttle s + timers s)
              <= _sem_throttle (answered url s) + timers (answered url s)).
      rewrite slots_answered by assumption. lia.
Qed.

(** [k] attempts that fail with a retriable outcome, each followed by the
    next Fibonacci wait, as long as the budget lasts. *)
Lemma retry_after_failures url (k : nat) : forall left tries s,
  1 <= tries ->
  k <= left ->
  k <= _sem_throttle s + timers s ->
  (forall i, i < k ->
     retriable_outcome (server (repeat url i ++ requests s) url) = true) ->
  exists sk,
    HttpFetcher.on_exception left tries (HttpFetcher._fetch_retry_attempt url) s
    = HttpFetcher.on_exception (left - k) (tries + k)
        (HttpFetcher._fetch_retry_attempt url) sk
    /\ requests sk = repeat url k ++ requests s
    /\ sleeps sk = rev (map HttpFetcher.fibo (seq (tries - 1) k)) ++ sleeps s
    /\ _sem_throttle s + timers s - k <= _sem_throttle sk + timers sk.
Proof.
  induction k as [|k IH]; intros left tries s Htries Hle Hslots Hsrv.
  - exists s. rewrite Nat.sub_0_r, Nat.add_0_r. repeat split. lia.
  - destruct left as [|left]; [lia|].
    destruct (attempt_retriable url s) as (e & s1 & Hrun & He & Hreq1 & Hsl1 & Hslots1);
      [lia | exact (Hsrv 0 ltac:(lia)) |].
    cbn [HttpFetcher.on_exception]. rewrite Hrun, He, bind_unfold.
    unfold HttpFetcher.sleep at 1, modify.
    destruct (IH left (S tries) (set_sleeps (HttpFetcher.fibo (tries - 1) :: sleeps s1) s1))
      as (sk & Heq & Hreq & Hsl & Hsk).
    + lia.
    + lia.
    + change (k <= _sem_throttle s1 + timers s1). lia.
    + intros i Hi. change (requests (set_sleeps _ s1)) with (requests s1).
      rewrite Hreq1, repeat_snoc. apply (Hsrv (S i)). lia.
    + exists sk. split; [|split; [|split]].
      * rewrite Heq. replace (S tries + k) with (tries + S k) by lia. reflexivity.
      * rewrite Hreq. change (requests (set_sleeps _ s1)) with (requests s1).
        rewrite Hreq1. apply repeat_snoc.
      * rewrite Hsl. cbn [sleeps set_sleeps seq map rev]. rewrite Hsl1.
        replace (S tries - 1) with (S (tries - 1)) by lia.
        rewrite <- app_assoc. reflexivity.
      * change (_sem_throttle (set_sleeps _ s1) + timers (set_sleeps _ s1))
          with (_sem_throttle s1 + timers s1) in Hsk. lia.
Qed.

Lemma retriable_is_caught e :
  HttpFetcher.is_retriable e = true ->
  is_ClientResponseError e || is_ClientConnectionError e = true.
Proof. destruct e; simpl; congruence. Qed.

(** Where every attempt finds a throttle slot, the retry policy is the
    one of the claim: [k <= 2] retriable failures followed by an accepted
    JSON response give its payload after [k] Fibonacci waits. *)
Lemma retries_then_payload url nc s k status body v :
  k <= 2 ->
  k < _sem_throttle s + timers s ->
  (forall i, i < k ->
     retriable_outcome (server (repeat url i ++ requests s) url) = true) ->
  server (repeat url k ++ requests s) url = Response status "application/json" body ->
  accepted_status status = true ->
  all_chars HttpFetcher.is_space body = false ->
  loads body = Some v ->
  exists s',
    HttpFetcher.fetch url nc s = (Ok v, s')
    /\ requests s' = repeat url (S k) ++ requests s
    /\ sleeps s' = rev (map HttpFetcher.fibo (seq 0 k)) ++ sleeps s.
Proof.
  intros Hk Hslots Hfail Hsrv Hacc Hblank Hl.
  destruct (retry_after_failures url k 2 1 s) as (sk & Heq & Hreq & Hsl & Hsk);
    [lia | lia | lia | exact Hfail |].
  assert (Hrun : HttpFetcher._fetch_retry_attempt url sk = (Ok v, answered url sk)).
  { eapply attempt_delivers; try eassumption; [lia|]. rewrite Hreq. exact Hsrv. }
  exists (answered url sk). split; [|split].
  - unfold HttpFetcher.fetch, try_except, HttpFetcher._fetch_retry.
    change (MAX_HTTP_RETRIES - 1) with 2. rewrite Heq.
    destruct (2 - k); cbn [HttpFetcher.on_exception]; rewrite Hrun; reflexivity.
  - change (requests (answered url sk)) with (url :: requests sk).
    rewrite Hreq. reflexivity.
  - change (sleeps (answered url sk)) with (sleeps (take_slot sk)).
    rewrite sleeps_take_slot. exact Hsl.
Qed.

(** Three retriable failures use up the budget: the last error is
    logged and the result is [None]. *)
Lemma retries_exhausted url nc s :
  3 <= _sem_throttle s + timers s ->
  (forall i, i < 3 ->
     retriable_outcome (server (repeat url i ++ requests s) url) = true) ->
  exists s',
    HttpFetcher.fetch url nc s = (Ok JNull, s')
    /\ requests s' = repeat url 3 ++ requests s
    /\ sleeps s' = [HttpFetcher.fibo 1; HttpFetcher.fibo 0] ++ sleeps s.
Proof.
  intros Hslots Hfail.
  destruct (retry_after_failures url 2 2 1 s) as (sk & Heq & Hreq & Hsl & Hsk);
    [lia | lia | lia | intros i Hi; apply Hfail; lia |].
  destruct (attempt_retriable url sk) as (e & s3 & Hrun & He & Hreq3 & Hsl3 & _);
    [lia | rewrite Hreq; apply (Hfail 2); lia |].
  eexists. split; [|split].
  - unfold HttpFetcher.fetch, try_except, HttpFetcher._fetch_retry.
    change (MAX_HTTP_RETRIES - 1) with 2. rewrite Heq.
    cbn [Nat.sub HttpFetcher.on_exception]. rewrite Hrun, He.
    rewrite (retriable_is_caught e He). rewrite bind_unfold. reflexivity.
  - cbn [requests set_log]. rewrite Hreq3, Hreq. reflexivity.
  - cbn [sleeps set_log]. rewrite Hsl3, Hsl. reflexivity.
Qed.

End transport.

(** The retry test of the specification, with a single throttle slot:
    503, 503, then 200 gives the payload after two waits of 1. *)
Example two_retries_then_payload :
  exists s',
    @HttpFetcher.fetch (Example.env Example.recovers) Example.url false
       (Example.opened ∅ 1 1000) = (Ok Example.visits, s')
    /\ requests s' = [Example.url; Example.url; Example.url]
    /\ sleeps s' = [1; 1]%Z.
Proof. eexists. split; [vm_compute; reflexivity | split; reflexivity]. Qed.

(** 503 on every attempt: three requests, then absence. *)
Example always_503_gives_absence :
  exists s',
    @HttpFetcher.fetch (Example.env (Example.answers 503 "text/plain" "busy"))
       Example.url false (Example.opened ∅ 1 1000) = (Ok JNull, s')
    /\ requests s' = [Example.url; Example.url; Example.url]
    /\ sleeps s' = [1; 1]%Z.
Proof. eexists. split; [vm_compute; reflexivity | split; reflexivity]. Qed.

(** ** CachedDataFetcher *)

Lemma conn_take_slot s : _conn (take_slot s) = _conn s.
Proof. unfold take_slot. destruct (_sem_throttle s); reflexivity. Qed.

Lemma clock_take_slot s : clock (take_slot s) = clock s.
Proof. unfold take_slot. destruct (_sem_throttle s); reflexivity. Qed.

Section fetcher.
Context `{Environment}.

Lemma create_or_update_writes url v s db :
  _conn s = Some db ->
  is_None v = false ->
  exists s',
    create_or_update url v s = (Ok tt, s')
    /\ _conn s' = Some (<[_normalize_url url := mkRow (dumps v) (clock s)]> db)
    /\ clock s' = clock s /\ requests s' = requests s /\ sleeps s' = sleeps s
    /\ log s' = log s.
Proof.
  intros Hc Hv. unfold create_or_update. rewrite bind_unfold. cbn [get_state].
  rewrite Hc, Hv, bind_unfold. unfold insert_or_replace, modify. rewrite Hc.
  unfold _update_count, modify. cbn [_conn set_conn _actions_pending].
  eexists. split; [reflexivity|].
  destruct (100 <=? _actions_pending s + 1)%Z; repeat split.
Qed.

Lemma create_or_update_None url s : create_or_update url JNull s = (Ok tt, s).
Proof.
  unfold create_or_update. rewrite bind_unfold. cbn [get_state].
  destruct (_conn s); reflexivity.
Qed.

Lemma executemany_writes values : forall s db,
  _conn s = Some db ->
  executemany_insert values s = (Ok tt, set_conn (Some (written (clock s) values db)) s).
Proof.
  induction values as [|[k t] values IH]; intros s db Hc.
  - cbn. rewrite <- Hc. destruct s; reflexivity.
  - cbn [executemany_insert]. rewrite bind_unfold. unfold insert_or_replace, modify.
    rewrite Hc. erewrite IH by reflexivity. reflexivity.
Qed.

Lemma create_or_update_all_writes data s db :
  _conn s = Some db ->
  exists s',
    create_or_update_all data s = (Ok tt, s')
    /\ _conn s' = Some (written (clock s) (values_of_results data) db)
    /\ clock s' = clock s /\ requests s' = requests s /\ log s' = log s.
Proof.
  intros Hc. unfold create_or_update_all. rewrite bind_unfold. cbn [get_state].
  rewrite Hc, bind_unfold. fold (values_of_results data).
  rewrite (executemany_writes _ s db Hc).
  unfold _update_count, modify. cbn [_conn set_conn _actions_pending].
  eexists. split; [reflexivity|].
  destruct (100 <=? _)%Z; repeat split.
Qed.

(** A key that is not written keeps its row. *)
Lemma written_other now values : forall db k,
  k ∉ map fst values -> written now values db !! k = db !! k.
Proof.
  induction values as [|[k0 t0] values IH]; intros db k Hk; [reflexivity|].
  change (written now ((k0, t0) :: values) db)
    with (written now values (<[k0 := mkRow t0 now]> db)).
  cbn [map fst] in Hk. apply not_elem_of_cons in Hk as [Hne Hk].
  rewrite IH by exact Hk. apply lookup_insert_ne. congruence.
Qed.

(** A key that is written holds one of the texts written for it, stamped
    with the time of the write. *)
Lemma written_key now values : forall db k,
  k ∈ map fst values ->
  exists text, (k, text) ∈ values /\ written now values db !! k = Some (mkRow text now).
Proof.
  induction values as [|[k0 t0] values IH]; intros db k Hk; [inversion Hk|].
  change (written now ((k0, t0) :: values) db)
    with (written now values (<[k0 := mkRow t0 now]> db)).
  destruct (decide (k ∈ map fst values)) as [Hin|Hout].
  - destruct (IH (<[k0 := mkRow t0 now]> db) k Hin) as (text & Ht & Hl).
    exists text. split; [right; exact Ht | exact Hl].
  - cbn [map fst] in Hk. apply elem_of_cons in Hk as [->|Hk]; [|contradiction].
    exists t0. split; [left|].
    rewrite written_other by exact Hout. apply lookup_insert_eq.
Qed.

Lemma values_of_results_key data u v :
  (u, v) ∈ data -> is_None v = false ->
  _normalize_url u ∈ map fst (values_of_results data).
Proof.
  intros Hin Hv. unfold values_of_results. rewrite map_map. cbn [fst].
  apply list_elem_of_In, in_map_iff. exists (u, v). split; [reflexivity|].
  apply filter_In. split; [apply list_elem_of_In, Hin|]. cbn. rewrite Hv. reflexivity.
Qed.

Lemma values_of_results_inv data k text :
  (k, text) ∈ values_of_results data ->
  exists u v, (u, v) ∈ data /\ is_None v = false
              /\ k = _normalize_url u /\ text = dumps v.
Proof.
  unfold values_of_results. intros Hin. apply list_elem_of_In, in_map_iff in Hin.
  destruct Hin as ([u v] & Heq & Hin). apply filter_In in Hin as [Hin Hv].
  injection Heq as <- <-. exists u, v. repeat split.
  - apply list_elem_of_In, Hin.
  - cbn in Hv. destruct (is_None v); [discriminate|reflexivity].
Qed.


Lemma flush_row max_age s db :
  _conn s = Some db ->
  (0 <= max_age)%Z ->
  exists s' db',
    flush max_age s = (Ok tt, s')
    /\ _conn s' = Some db'
    /\ forall k, db' !! k =
         match db !! k with
         | Some r =>
             if decide (clock s - 86400 * max_age < last_accessed r)%Z
             then Some r else None
         | None => None
         end.
Proof.
  intros Hc Hage. unfold flush.
  destruct (max_age <? 0)%Z eqn:Hneg; [lia|].
  rewrite bind_unfold. cbn [get_state]. rewrite Hc, bind_unfold.
  unfold modify at 1. unfold _update_count, modify. cbn [_conn set_conn _actions_pending].
  eexists _, _. split; [reflexivity|]. split.
  - destruct (100 <=? _)%Z; reflexivity.
  - intros k. rewrite map_lookup_filter. destruct (db !! k) as [r|]; [|reflexivity].
    cbn.
    destruct (decide (clock s - 86400 * max_age < last_accessed r)%Z) as [Hd|Hd].
    + rewrite option_guard_True by exact Hd. reflexivity.
    + rewrite option_guard_False by exact Hd. reflexivity.
Qed.

Lemma truthy_not_None v : truthy v = true -> is_None v = false.
Proof. destruct v; simpl; congruence. Qed.

Lemma retrieve_returns url s :
  exists s0,
    retrieve url s =
      (Ok (match stored s (_normalize_url url) with
           | Some text => decoded text
           | None => JNull
           end), s0)
    /\ _conn s0 = _conn s /\ _actions_pending s0 = _actions_pending s
    /\ clock s0 = clock s /\ requests s0 = requests s
    /\ _sem_throttle s0 = _sem_throttle s /\ timers s0 = timers s.
Proof.
  rewrite retrieve_stored. unfold decoded.
  destruct (stored s (_normalize_url url)) as [text|]; [|eexists; repeat split].
  destruct (loads text); eexists; repeat split.
Qed.

(** A cached payload that is true in a condition is returned without a
    request, and written back. *)
Lemma truthy_hit_skips_transport url nc s db text v :
  _conn s = Some db ->
  stored s (_normalize_url url) = Some text ->
  loads text = Some v ->
  truthy v = true ->
  exists s',
    CachedDataFetcher.fetch url nc false s = (Ok v, s')
    /\ requests s' = requests s
    /\ _conn s' = Some (<[_normalize_url url := mkRow (dumps v) (clock s)]> db).
Proof.
  intros Hc Hst Hl Ht. unfold CachedDataFetcher.fetch. cbn [negb andb].
  rewrite bind_unfold, retrieve_stored, Hst, Hl, Ht. cbn [negb].
  rewrite bind_unfold. cbn [ret]. rewrite (truthy_not_None v Ht). cbn [negb].
  rewrite bind_unfold.
  destruct (create_or_update_writes url v s db Hc (truthy_not_None v Ht))
    as (s' & Hrun & Hc' & _ & Hreq & _).
  rewrite Hrun. exists s'. repeat split; assumption.
Qed.

(** A cached payload that is false in a condition is dropped: the fetch
    goes on exactly as after a miss. *)
Lemma falsy_hit_is_refetched url nc s text v :
  stored s (_normalize_url url) = Some text ->
  loads text = Some v ->
  truthy v = false ->
  CachedDataFetcher.fetch url nc false s =
    (let* result := HttpFetcher.fetch url nc in
     let* _ := (if negb (is_None result)
                then create_or_update url result else ret tt) in
     ret result) s.
Proof.
  intros Hst Hl Ht. unfold CachedDataFetcher.fetch. cbn [negb andb].
  rewrite bind_unfold, retrieve_stored, Hst, Hl, Ht. reflexivity.
Qed.

Lemma miss_goes_to_transport url nc s :
  stored s (_normalize_url url) = None ->
  CachedDataFetcher.fetch url nc false s =
    (let* result := HttpFetcher.fetch url nc in
     let* _ := (if negb (is_None result)
                then create_or_update url result else ret tt) in
     ret result) s.
Proof.
  intros Hst. unfold CachedDataFetcher.fetch. cbn [negb andb].
  rewrite bind_unfold, retrieve_stored, Hst. reflexivity.
Qed.

Lemma fetch_writes_back url nc s db v s' :
  _conn s = Some db ->
  CachedDataFetcher.fetch url nc false s = (Ok v, s') ->
  _conn s' = Some (if is_None v then db
                   else <[_normalize_url url := mkRow (dumps v) (clock s)]> db).
Proof.
  intros Hc Hrun. unfold CachedDataFetcher.fetch in Hrun. cbn [negb andb] in Hrun.
  rewrite bind_unfold in Hrun.
  destruct (retrieve_returns url s) as (s0 & Hret & Hc0 & _ & Hk0 & _).
  rewrite Hret in Hrun. clear Hret.
  set (r0 := match stored s (_normalize_url url) with
             | Some text => decoded text | None => JNull end) in Hrun.
  rewrite bind_unfold in Hrun. destruct (truthy r0) eqn:Ht; cbn [negb] in Hrun.
  - cbn [ret] in Hrun. rewrite bind_unfold, (truthy_not_None r0 Ht) in Hrun.
    cbn [negb] in Hrun.
    destruct (create_or_update_writes url r0 s0 db) as (s1 & Hw & Hc1 & _);
      [congruence | apply truthy_not_None, Ht |].
    rewrite Hw in Hrun. injection Hrun as <- <-.
    rewrite (truthy_not_None r0 Ht), Hc1, Hk0. reflexivity.
  - destruct (keeps_fetch url nc s0) as (Hc1 & _ & Hk1).
    destruct (HttpFetcher.fetch url nc s0) as [[v1| |] s1]; try discriminate.
    cbn [snd] in Hc1, Hk1. rewrite bind_unfold in Hrun.
    destruct (is_None v1) eqn:Hn; cbn [negb] in Hrun.
    + injection Hrun as <- <-. rewrite Hn. congruence.
    + destruct (create_or_update_writes url v1 s1 db) as (s2 & Hw & Hc2 & _);
        [congruence | exact Hn |].
      rewrite Hw in Hrun. injection Hrun as <- <-.
      rewrite Hn, Hc2, Hk1, Hk0. reflexivity.
Qed.

Lemma retrieve_all_returns urls s :
  exists hits missed s0,
    retrieve_all urls s = (Ok (hits, missed), s0)
    /\ _conn s0 = _conn s /\ clock s0 = clock s.
Proof.
  rewrite retrieve_all_unfold.
  destruct (classify_spec (cache_results_of s urls) urls [] [] s) as (hits & Heq & _).
  eexists _, _, _. split; [exact Heq|]. split; reflexivity.
Qed.

Lemma fetch_all_writes_back urls nc s db results s' :
  _conn s = Some db ->
  CachedDataFetcher.fetch_all urls nc false s = (Ok results, s') ->
  exists d,
    results = PyDict d
    /\ _conn s' = Some (written (clock s) (values_of_results d) db).
Proof.
  intros Hc Hrun. unfold CachedDataFetcher.fetch_all in Hrun. cbn [negb] in Hrun.
  rewrite bind_unfold, bind_unfold in Hrun.
  destruct (retrieve_all_returns urls s) as (hits & missed & s0 & Hret & Hc0 & Hk0).
  rewrite Hret in Hrun. cbn [ret] in Hrun. rewrite bind_unfold in Hrun.
  destruct (keeps_fetch_all missed nc s0) as (Hc1 & _ & Hk1).
  destruct (HttpFetcher.fetch_all missed nc s0) as [[api| |] s1]; try discriminate.
  cbn [snd] in Hc1, Hk1. rewrite bind_unfold in Hrun.
  cbn [CachedDataFetcher.py_update ret] in Hrun. rewrite bind_unfold in Hrun.
  cbn [CachedDataFetcher.py_create_or_update_all] in Hrun.
  destruct (create_or_update_all_writes (dict_update hits api) s1 db)
    as (s2 & Hw & Hc2 & _); [congruence|].
  rewrite Hw in Hrun. injection Hrun as <- <-.
  eexists. split; [reflexivity|]. rewrite Hc2. congruence.
Qed.

End fetcher.

(** ** The keys of a batch *)

Lemma dict_get_update {V} (other : dict V) : forall (d : dict V) u,
  is_Some (dict_get (dict_update d other) u)
  <-> is_Some (dict_get d u) \/ is_Some (dict_get other u).
Proof.
  induction other as [|[k v] other IH]; intros d u.
  - cbn. split; [left; assumption|]. intros [Hd|[x Hx]]; [exact Hd|discriminate].
  - change (dict_update d ((k, v) :: other)) with (dict_update (dict_set d k v) other).
    rewrite IH, dict_get_set. cbn [dict_get].
    destruct (String.eqb k u); [|reflexivity].
    split; intros _; [right|left]; eexists; reflexivity.
Qed.

Lemma dict_of_pairs_keys {V} (us : list string) : forall (vs : list V) (d : dict V) u,
  length vs = length us ->
  is_Some (dict_get (fold_left (fun results item => dict_set results item.1 item.2)
                               (combine us vs) d) u)
  <-> is_Some (dict_get d u) \/ u ∈ us.
Proof.
  induction us as [|u0 us IH]; intros vs d u Hlen.
  - cbn. split; [left; assumption|]. intros [Hd|Hin]; [exact Hd|inversion Hin].
  - destruct vs as [|v vs]; [discriminate|]. cbn [combine fold_left fst snd].
    rewrite IH by (cbn in Hlen; lia). rewrite dict_get_set, elem_of_cons.
    destruct (String.eqb_spec u0 u) as [->|Hne].
    + split; intros _; [right; left; reflexivity | left; eexists; reflexivity].
    + split; intros [Hd|Hin]; auto. destruct Hin as [->|Hin]; [congruence|auto].
Qed.

Lemma mapM_length {A B} (f : A -> M B) l : forall s bs s',
  mapM f l s = (Ok bs, s') -> length bs = length l.
Proof.
  induction l as [|a l IH]; intros s bs s' Hrun.
  - cbn in Hrun. injection Hrun as <- _. reflexivity.
  - cbn [mapM] in Hrun. rewrite bind_unfold in Hrun.
    destruct (f a s) as [[b| |] s1]; try discriminate.
    rewrite bind_unfold in Hrun.
    destruct (mapM f l s1) as [[bs'| |] s2] eqn:Hrest; try discriminate.
    cbn in Hrun. injection Hrun as <- _. cbn. f_equal. eapply IH, Hrest.
Qed.

Section fetch_all_keys_facts.
Context `{Environment}.

Lemma http_fetch_all_keys urls nc s api s' :
  HttpFetcher.fetch_all urls nc s = (Ok api, s') ->
  forall u, is_Some (dict_get api u) <-> u ∈ urls.
Proof.
  unfold HttpFetcher.fetch_all. rewrite bind_unfold.
  destruct (mapM _ urls s) as [[responses| |] s1] eqn:Hm; try discriminate.
  intros [= <- _] u. rewrite dict_of_pairs_keys by (eapply mapM_length, Hm).
  cbn. split; [intros [[x Hx]|Hin]; [discriminate|exact Hin] | right; assumption].
Qed.

Lemma create_or_update_all_returns data s :
  exists s', create_or_update_all data s = (Ok tt, s').
Proof.
  destruct (_conn s) as [db|] eqn:Hc.
  - destruct (create_or_update_all_writes data s db Hc) as (s' & Hw & _). eauto.
  - unfold create_or_update_all. rewrite bind_unfold. cbn [get_state]. rewrite Hc. eauto.
Qed.

(** With the cache in use, the mapping [fetch_all] returns has exactly
    the input URLs as keys. *)
Lemma fetch_all_keys urls nc s results s' :
  CachedDataFetcher.fetch_all urls nc false s = (Ok results, s') ->
  exists d, results = PyDict d /\ forall u, is_Some (dict_get d u) <-> u ∈ urls.
Proof.
  intros Hrun. unfold CachedDataFetcher.fetch_all in Hrun. cbn [negb] in Hrun.
  rewrite bind_unfold, bind_unfold, retrieve_all_unfold in Hrun.
  destruct (classify_spec (cache_results_of s urls) urls [] [] s) as (hits & Heq & Hget).
  rewrite Heq in Hrun. cbn [ret app] in Hrun. rewrite bind_unfold in Hrun.
  destruct (HttpFetcher.fetch_all _ nc _) as [[api| |] s1] eqn:Hapi; try discriminate.
  rewrite bind_unfold in Hrun. cbn [CachedDataFetcher.py_update ret] in Hrun.
  rewrite bind_unfold in Hrun. cbn [CachedDataFetcher.py_create_or_update_all] in Hrun.
  destruct (create_or_update_all_returns (dict_update hits api) s1) as (s2 & Hw).
  rewrite Hw in Hrun. injection Hrun as <- _.
  eexists. split; [reflexivity|]. intros u.
  rewrite dict_get_update, Hget, (http_fetch_all_keys _ _ _ _ _ Hapi u).
  rewrite (list_elem_of_In (List.filter _ _)), filter_In, <- list_elem_of_In, bool_decide_eq_true.
  cbn [dict_get]. split.
  - intros [Hhit|[Hin _]]; [|exact Hin].
    destruct (decide _) as [[Hin _]|]; [exact Hin|]. destruct Hhit; discriminate.
  - intros Hin. destruct (cache_results_of s urls !! _normalize_url u) as [text|] eqn:Hcr.
    + left. rewrite decide_True by (split; [exact Hin | eexists; reflexivity]).
      eexists; reflexivity.
    + right. split; [exact Hin | reflexivity].
Qed.

End fetch_all_keys_facts.

(** ** The claims on the fetcher *)

(** C1: the code departs from the claim. The cache holds the payload
    [{}] for the URL, yet the fetch goes to the transport (three GET
    requests to a server that cannot be reached) and returns [None]: the
    test [if not result] takes every payload that is false in a
    condition for a miss. *)
Theorem cached_empty_object_is_refetched :
  stored Example.holds_empty_object (_normalize_url Example.url) = Some "{}"
  /\ @loads Example.offline "{}" = Some (JObj [])
  /\ exists s',
       @CachedDataFetcher.fetch Example.offline Example.url false false
          Example.holds_empty_object = (Ok JNull, s')
       /\ requests s' = [Example.url; Example.url; Example.url].
Proof.
  split; [vm_compute; reflexivity|]. split; [vm_compute; reflexivity|].
  eexists. split; [vm_compute; reflexivity | reflexivity].
Qed.

Lemma connection_failures_starve_retries_witness :
  exists s',
    @HttpFetcher.fetch Example.offline Example.url false Example.two_slots = (Blocked, s')
    /\ requests s' = [Example.url; Example.url].
Proof.
  apply (@connection_failures_starve_retries Example.offline Example.url false Example.two_slots).
  - vm_compute. lia.
  - intros i _. reflexivity.
Defined.

(** C7: the code departs from the claim. With [skip_cache] set,
    [results] is bound to a list, and [results.update] raises
    [AttributeError] once the transport has returned: for no list of URLs
    does [fetch_all] return a mapping. *)
Theorem fetch_all_bypass_raises `{Environment} (urls : list string) (nc : bool) (s : state) :
  CachedDataFetcher.fetch_all urls nc true s =
    match HttpFetcher.fetch_all urls nc s with
    | (Ok _, s') => (Raise AttributeError, s')
    | (Raise e, s') => (Raise e, s')
    | (Blocked, s') => (Blocked, s')
    end
  /\ forall results, (CachedDataFetcher.fetch_all urls nc true s).1 <> Ok results.
Proof.
  assert (Heq : CachedDataFetcher.fetch_all urls nc true s =
    match HttpFetcher.fetch_all urls nc s with
    | (Ok _, s') => (Raise AttributeError, s')
    | (Raise e, s') => (Raise e, s')
    | (Blocked, s') => (Blocked, s')
    end).
  { unfold CachedDataFetcher.fetch_all. cbn [negb]. rewrite bind_unfold. cbn [ret].
    rewrite bind_unfold.
    destruct (HttpFetcher.fetch_all urls nc s) as [[api|e|] s1]; reflexivity. }
  split; [exact Heq|]. intros results. rewrite Heq.
  destruct (HttpFetcher.fetch_all urls nc s) as [[api|e|] s1]; discriminate.
Qed.

Example fetch_all_bypass_example :
  exists s',
    @CachedDataFetcher.fetch_all Example.online [Example.url] false true Example.empty_cache
    = (Raise AttributeError, s')
    /\ requests s' = [Example.url].
Proof. eexists. split; [vm_compute; reflexivity | reflexivity]. Qed.

(** C4 (amended). For every URL whose response has status 404, content
    type [application/json] and a body that decodes to a payload other
    than [None], the transport returns that payload after one request,
    without retry, log line or exception, and a cache-enabled fetch that
    misses the cache returns it and writes it to the cache. *)
Theorem not_found_json_is_cached `{Environment}
    (url : string) (nc : bool) (s : state) (db : gmap string row)
    (body : string) (v : json) :
  0 < _sem_throttle s + timers s ->
  server (requests s) url = Response 404 "application/json" body ->
  all_chars HttpFetcher.is_space body = false ->
  loads body = Some v ->
  is_None v = false ->
  _conn s = Some db ->
  db !! _normalize_url url = None ->
  HttpFetcher.fetch url nc s = (Ok v, answered url s)
  /\ exists s',
       CachedDataFetcher.fetch url nc false s = (Ok v, s')
       /\ requests s' = url :: requests s
       /\ sleeps s' = sleeps s
       /\ _conn s' = Some (<[_normalize_url url := mkRow (dumps v) (clock s)]> db).
Proof.
  intros Hslot Hsrv Hblank Hl Hv Hc Hmiss.
  assert (Hfetch : HttpFetcher.fetch url nc s = (Ok v, answered url s)).
  { apply fetch_of_first_attempt. eapply attempt_delivers; try eassumption. reflexivity. }
  split; [exact Hfetch|].
  rewrite miss_goes_to_transport by (unfold stored; rewrite Hc, Hmiss; reflexivity).
  rewrite bind_unfold, Hfetch, bind_unfold, Hv. cbn [negb].
  destruct (create_or_update_writes url v (answered url s) db)
    as (s' & Hw & Hc' & _ & Hreq & Hsl & _).
  { change (_conn (answered url s)) with (_conn (take_slot s)).
    rewrite conn_take_slot. exact Hc. }
  { exact Hv. }
  rewrite Hw. exists s'. split; [reflexivity|]. split; [|split].
  - rewrite Hreq. reflexivity.
  - rewrite Hsl. change (sleeps (answered url s)) with (sleeps (take_slot s)).
    apply sleeps_take_slot.
  - rewrite Hc'. change (clock (answered url s)) with (clock (take_slot s)).
    rewrite clock_take_slot. reflexivity.
Qed.

Lemma not_found_json_is_cached_witness :
  @HttpFetcher.fetch Example.not_found_json Example.url false Example.empty_cache
  = (Ok Example.no_data, answered Example.url Example.empty_cache)
  /\ exists s',
       @CachedDataFetcher.fetch Example.not_found_json Example.url false false Example.empty_cache
       = (Ok Example.no_data, s')
       /\ requests s' = Example.url :: requests Example.empty_cache
       /\ sleeps s' = sleeps Example.empty_cache
       /\ _conn s' = Some (<[_normalize_url Example.url :=
                              mkRow (@dumps Example.not_found_json Example.no_data)
                                    (clock Example.empty_cache)]> ∅).
Proof.
  apply (@not_found_json_is_cached Example.not_found_json Example.url false Example.empty_cache ∅
           (Example.dumps_json Example.no_data) Example.no_data).
  - vm_compute. lia.
  - reflexivity.
  - vm_compute. reflexivity.
  - vm_compute. reflexivity.
  - reflexivity.
  - reflexivity.
  - reflexivity.
Defined.

(** C4, as stated, fails: a 404 whose content type is not JSON is logged
    as an error and gives absence, and nothing is written to the cache. *)
Lemma not_found_page_is_absence :
  @server Example.not_found_page (requests Example.empty_cache) Example.url
  = Response 404 "text/html" "<html>Not Found</html>"
  /\ (exists s',
        @HttpFetcher.fetch Example.not_found_page Example.url false Example.empty_cache
        = (Ok JNull, s')
        /\ log s' = [ERROR_non_json "<html>Not Found</html>" 404])
  /\ (exists s',
        @CachedDataFetcher.fetch Example.not_found_page Example.url false false Example.empty_cache
        = (Ok JNull, s')
        /\ _conn s' = Some ∅).
Proof.
  split; [reflexivity|].
  split; eexists; (split; [vm_compute; reflexivity | reflexivity]).
Qed.

(** A sweep of 50 days run 500 seconds after the row turned 50 days old
    deletes it; after a hit at time 1000 the same sweep keeps it. *)
Example hit_postpones_eviction :
  (exists s',
     flush CACHE_DATA_LIFESPAN (set_clock 4320500 Example.warm)
     = (Ok tt, s')
     /\ stored s' Example.key = None)
  /\ (exists s1 s2,
        @CachedDataFetcher.fetch Example.offline Example.url false false Example.warm
        = (Ok Example.visits, s1)
        /\ flush CACHE_DATA_LIFESPAN (set_clock 4320500 s1) = (Ok tt, s2)
        /\ stored s2 Example.key = Some (Example.dumps_json Example.visits)).
Proof.
  split.
  - eexists. split; [vm_compute; reflexivity|]. vm_compute. reflexivity.
  - eexists _, _. split; [vm_compute; reflexivity|].
    split; [vm_compute; reflexivity|]. vm_compute. reflexivity.
Qed.

(** ** Singleton *)

Section singleton_facts.
Import Singleton.

Lemma call_registered c init p inst :
  _instances p !! c = Some inst -> __call__ c init p = (inst, p).
Proof. intros Hin. unfold __call__. rewrite Hin. reflexivity. Qed.

Lemma construct_registered k p inst :
  _instances p !! class_of k = Some inst -> construct k p = (inst, p).
Proof. destruct k; apply call_registered. Qed.

Lemma call_http_registers n p :
  _instances (__call__ HttpFetcher (HttpFetcher_init n) p).2 !! HttpFetcher
  = Some (__call__ HttpFetcher (HttpFetcher_init n) p).1.
Proof.
  unfold __call__. destruct (_instances p !! HttpFetcher) eqn:Hin; [exact Hin|].
  cbn. apply lookup_insert_eq.
Qed.

(** After a construction the class is registered, with the instance
    that the construction returned. *)
Lemma construct_registers k p :
  _instances (construct k p).2 !! class_of k = Some (construct k p).1.
Proof.
  destruct k as [n|]; [apply call_http_registers|].
  cbn [construct class_of]. unfold __call__ at 1 2.
  destruct (_instances p !! CachedDataFetcher) eqn:Hin; [exact Hin|].
  destruct (CachedDataFetcher_init p) as [inst p']. cbn. apply lookup_insert_eq.
Qed.

Lemma call_http_keeps n p c r :
  _instances p !! c = Some r ->
  _instances (__call__ HttpFetcher (HttpFetcher_init n) p).2 !! c = Some r.
Proof.
  intros Hc. unfold __call__. destruct (_instances p !! HttpFetcher) eqn:Hin; [exact Hc|].
  cbn. rewrite lookup_insert_ne; [exact Hc|]. intros <-. congruence.
Qed.

(** A registration is never undone or replaced. *)
Lemma step_keeps_instance a p c r :
  _instances p !! c = Some r -> _instances (step p a) !! c = Some r.
Proof.
  intros Hc. destruct a as [[n|]|n]; cbn [step construct].
  - apply call_http_keeps, Hc.
  - unfold __call__ at 1. destruct (_instances p !! CachedDataFetcher) eqn:Hin; [exact Hc|].
    unfold CachedDataFetcher_init.
    pose proof (call_http_keeps None p c r Hc) as Hk.
    destruct (__call__ HttpFetcher (HttpFetcher_init None) p) as [api p1].
    cbn in *. rewrite lookup_insert_ne; [exact Hk|]. intros <-. congruence.
  - destruct (_instances p !! HttpFetcher) as [self|]; [|exact Hc].
    unfold set_rate. destruct (heap p !! self) as [[]|]; exact Hc.
Qed.

Lemma run_keeps_instance actions : forall p c r,
  _instances p !! c = Some r -> _instances (run actions p) !! c = Some r.
Proof.
  induction actions as [|a actions IH]; intros p c r Hc; [exact Hc|].
  cbn [run fold_left]. apply IH, step_keeps_instance, Hc.
Qed.


Lemma lookup_alloc_old (o : object) (p : process) r x :
  heap p !! r = Some x -> heap (alloc o p).2 !! r = Some x.
Proof. intros Hr. cbn. apply lookup_app_l_Some, Hr. Qed.

Lemma lookup_alloc_new (o : object) (p : process) :
  heap (alloc o p).2 !! (alloc o p).1 = Some o.
Proof. cbn. apply list_lookup_middle. reflexivity. Qed.

Lemma call_http_well_formed n p :
  well_formed p -> well_formed (__call__ HttpFetcher (HttpFetcher_init n) p).2.
Proof.
  intros Hwf. unfold __call__.
  destruct (_instances p !! HttpFetcher) as [inst|] eqn:Hin; [exact Hwf|].
  destruct Hwf as [Hhttp Hshare]. cbn. split.
  - intros r. cbn [_instances heap]. rewrite lookup_insert_eq. intros [= <-].
    eexists _, _. apply list_lookup_middle. reflexivity.
  - intros r. cbn [_instances heap]. rewrite lookup_insert_ne by discriminate. intros Hr.
    destruct (Hshare r Hr) as (cache & api & _ & Hapi). congruence.
Qed.

Lemma construct_well_formed k p : well_formed p -> well_formed (construct k p).2.
Proof.
  intros Hwf. destruct k as [n|]; [apply call_http_well_formed, Hwf|].
  cbn [construct]. unfold __call__ at 1.
  destruct (_instances p !! CachedDataFetcher) as [inst|] eqn:Hin; [exact Hwf|].
  unfold CachedDataFetcher_init.
  pose proof (call_http_well_formed None p Hwf) as [Hhttp1 Hshare1].
  pose proof (call_http_registers None p) as Hreg.
  destruct (__call__ HttpFetcher (HttpFetcher_init None) p) as [api p1].
  cbn [fst snd] in *. cbn [alloc fst snd]. split.
  - intros r. cbn [_instances heap]. rewrite lookup_insert_ne by discriminate. intros Hr.
    destruct (Hhttp1 r Hr) as (n & sem & Hobj). exists n, sem.
    rewrite <- app_assoc. apply lookup_app_l_Some, Hobj.
  - intros r. cbn [_instances heap]. rewrite lookup_insert_eq. intros [= <-].
    exists (length (heap p1)), api. split.
    + replace (length (heap p1 ++ [RequestsCacheObject]))
        with (length (heap p1 ++ [RequestsCacheObject]) + 0) by lia.
      rewrite lookup_app_r by lia.
      replace (_ + 0 - _) with 0 by lia. reflexivity.
    + rewrite lookup_insert_ne by discriminate. exact Hreg.
Qed.

Lemma set_rate_well_formed self n p : well_formed p -> well_formed (set_rate self n p).
Proof.
  intros Hwf. unfold set_rate.
  destruct (heap p !! self) as [[old sem| |]|] eqn:Hself; try exact Hwf.
  destruct Hwf as [Hhttp Hshare]. split.
  - intros r Hr. cbn [_instances heap] in *. destruct (Hhttp r Hr) as (n' & sem' & Hobj).
    destruct (decide (self = r)) as [->|Hne].
    + eexists _, _. apply list_lookup_insert_eq. eapply lookup_lt_Some, Hobj.
    + exists n', sem'. rewrite list_lookup_insert_ne by exact Hne. exact Hobj.
  - intros r Hr. cbn [_instances heap] in *.
    destruct (Hshare r Hr) as (cache & api & Hobj & Hapi).
    exists cache, api. split; [|exact Hapi].
    rewrite list_lookup_insert_ne; [exact Hobj|]. intros ->. congruence.
Qed.

Lemma step_well_formed a p : well_formed p -> well_formed (step p a).
Proof.
  intros Hwf. destruct a as [k|n]; cbn [step].
  - apply construct_well_formed, Hwf.
  - destruct (_instances p !! HttpFetcher); [apply set_rate_well_formed|]; exact Hwf.
Qed.

Lemma run_well_formed actions : forall p, well_formed p -> well_formed (run actions p).
Proof.
  induction actions as [|a actions IH]; intros p Hwf; [exact Hwf|].
  cbn [run fold_left]. apply IH, step_well_formed, Hwf.
Qed.

Lemma initial_well_formed : well_formed initial.
Proof. split; intros r Hr; cbn in Hr; rewrite lookup_empty in Hr; discriminate. Qed.

Lemma lookup_snoc_inv {A} (l : list A) (x : A) r o :
  (l ++ [x]) !! r = Some o -> l !! r = Some o \/ (r = length l /\ o = x).
Proof.
  intros Hl. apply lookup_app_Some in Hl as [Hl|[Hle Hl]]; [left; exact Hl|].
  right. destruct (r - length l) as [|i] eqn:Hi; [|destruct i; discriminate].
  cbn in Hl. injection Hl as <-. split; [lia|reflexivity].
Qed.

Lemma has_class_snoc c p r x insts :
  has_class c p r -> has_class c (mkProcess insts (heap p ++ [x])) r.
Proof.
  intros (o & Ho & Hc). exists o. split; [|exact Hc].
  cbn. apply lookup_app_l_Some, Ho.
Qed.

Lemma one_of_each_initial : one_of_each initial.
Proof.
  repeat split; cbn; intros; discriminate.
Qed.

Lemma one_of_each_call_http n p :
  one_of_each p -> one_of_each (__call__ HttpFetcher (HttpFetcher_init n) p).2.
Proof.
  intros Hinv. unfold __call__.
  destruct (_instances p !! HttpFetcher) as [inst|] eqn:Hin; [exact Hinv|].
  destruct Hinv as (Ha & Hb & Hc & Hd). cbn [HttpFetcher_init alloc snd fst].
  split; [|split; [|split]].
  - intros r o c Ho Hcls. cbn [heap _instances] in *.
    apply lookup_snoc_inv in Ho as [Ho|[-> ->]].
    + pose proof (Ha r o c Ho Hcls) as Hreg.
      destruct c; [congruence|]. rewrite lookup_insert_ne by discriminate. exact Hreg.
    + cbn in Hcls. injection Hcls as <-. apply lookup_insert_eq.
  - intros c r Hreg. cbn [_instances] in Hreg. destruct c.
    + rewrite lookup_insert_eq in Hreg. injection Hreg as <-.
      eexists. split; [cbn; apply list_lookup_middle; reflexivity | reflexivity].
    + rewrite lookup_insert_ne in Hreg by discriminate.
      apply has_class_snoc, Hb, Hreg.
  - intros r api cache Ho. cbn [heap _instances] in *.
    apply lookup_snoc_inv in Ho as [Ho|[_ Ho]]; [|discriminate].
    destruct (Hc r api cache Ho) as [Hapi _]. congruence.
  - intros r Ho. cbn [heap] in *.
    apply lookup_snoc_inv in Ho as [Ho|[_ Ho]]; [|discriminate].
    destruct (Hd r Ho) as (inst & api & Hinst).
    exists inst, api. apply lookup_app_l_Some, Hinst.
Qed.

Lemma call_http_other n p :
  _instances (__call__ HttpFetcher (HttpFetcher_init n) p).2 !! CachedDataFetcher
  = _instances p !! CachedDataFetcher.
Proof.
  unfold __call__. destruct (_instances p !! HttpFetcher); [reflexivity|].
  cbn. apply lookup_insert_ne. discriminate.
Qed.

Lemma one_of_each_construct k p : one_of_each p -> one_of_each (construct k p).2.
Proof.
  intros Hinv. destruct k as [n|]; [apply one_of_each_call_http, Hinv|].
  cbn [construct]. unfold __call__ at 1.
  destruct (_instances p !! CachedDataFetcher) as [inst|] eqn:Hin; [exact Hinv|].
  unfold CachedDataFetcher_init.
  pose proof (one_of_each_call_http None p Hinv) as (Ha & Hb & Hc & Hd).
  pose proof (call_http_registers None p) as Hreg.
  pose proof (call_http_other None p) as Hother. rewrite Hin in Hother.
  destruct (__call__ HttpFetcher (HttpFetcher_init None) p) as [api p1].
  cbn [fst snd] in *. cbn [alloc fst snd heap _instances].
  assert (Hno_cdf : forall r a c, heap p1 !! r <> Some (CachedDataFetcherObject a c)).
  { intros r a c Ho. pose proof (Ha r _ CachedDataFetcher Ho eq_refl). congruence. }
  assert (Hno_cache : forall r, heap p1 !! r <> Some RequestsCacheObject).
  { intros r Ho. destruct (Hd r Ho) as (i & a & Hi). exact (Hno_cdf _ _ _ Hi). }
  split; [|split; [|split]].
  - intros r o c Ho Hcls. cbn [heap _instances] in *.
    apply lookup_snoc_inv in Ho as [Ho|[-> ->]].
    + apply lookup_snoc_inv in Ho as [Ho|[-> ->]]; [|discriminate].
      destruct c.
      * rewrite lookup_insert_ne by discriminate. exact (Ha r o _ Ho Hcls).
      * pose proof (Ha r o _ Ho Hcls). congruence.
    + cbn in Hcls. injection Hcls as <-. apply lookup_insert_eq.
  - intros c r Hr. cbn [_instances] in Hr. destruct c.
    + rewrite lookup_insert_ne in Hr by discriminate.
      destruct (Hb _ _ Hr) as (o & Ho & Hcls). exists o. split; [|exact Hcls].
      cbn [heap]. apply lookup_app_l_Some, lookup_app_l_Some, Ho.
    + rewrite lookup_insert_eq in Hr. injection Hr as <-.
      eexists. split; [cbn [heap]; apply list_lookup_middle; reflexivity | reflexivity].
  - intros r a c Ho. cbn [heap _instances] in *.
    apply lookup_snoc_inv in Ho as [Ho|[-> Ho]].
    + apply lookup_snoc_inv in Ho as [Ho|[_ Ho]]; [|discriminate].
      exfalso. exact (Hno_cdf _ _ _ Ho).
    + injection Ho as -> ->. split.
      * rewrite lookup_insert_ne by discriminate. exact Hreg.
      * apply lookup_app_l_Some, list_lookup_middle. reflexivity.
  - intros r Ho. cbn [heap] in *.
    apply lookup_snoc_inv in Ho as [Ho|[_ Ho]]; [|discriminate].
    apply lookup_snoc_inv in Ho as [Ho|[-> _]].
    + exfalso. exact (Hno_cache _ Ho).
    + eexists _, api. apply list_lookup_middle. reflexivity.
Qed.

Lemma one_of_each_set_rate self n p : one_of_each p -> one_of_each (set_rate self n p).
Proof.
  intros Hinv. unfold set_rate.
  destruct (heap p !! self) as [[old sem| |]|] eqn:Hself; try exact Hinv.
  destruct Hinv as (Ha & Hb & Hc & Hd).
  assert (Hlt : self < length (heap p)) by (eapply lookup_lt_Some, Hself).
  assert (Hlook : forall r o,
            <[self := HttpFetcherObject n (sem + (n - old))]> (heap p) !! r = Some o ->
            (r = self /\ o = HttpFetcherObject n (sem + (n - old)))
            \/ (r <> self /\ heap p !! r = Some o)).
  { intros r o Ho. destruct (decide (r = self)) as [->|Hne].
    - rewrite list_lookup_insert_eq in Ho by exact Hlt. injection Ho as <-. left. split; reflexivity.
    - rewrite list_lookup_insert_ne in Ho by congruence. right. split; assumption. }
  split; [|split; [|split]]; cbn [heap _instances].
  - intros r o c Ho Hcls. apply Hlook in Ho as [[-> ->]|[_ Ho]].
    + cbn in Hcls. injection Hcls as <-. exact (Ha self _ _ Hself eq_refl).
    + exact (Ha r o c Ho Hcls).
  - intros c r Hr. destruct (Hb c r Hr) as (o & Ho & Hcls).
    destruct (decide (r = self)) as [->|Hne].
    + eexists. split; [cbn [heap]; apply list_lookup_insert_eq, Hlt|].
      rewrite Hself in Ho. injection Ho as <-. exact Hcls.
    + exists o. split; [|exact Hcls]. cbn [heap].
      rewrite list_lookup_insert_ne by congruence. exact Ho.
  - intros r a c Ho. apply Hlook in Ho as [[_ Ho]|[_ Ho]]; [discriminate|].
    destruct (Hc r a c Ho) as [Hapi Hcache]. split; [exact Hapi|].
    rewrite list_lookup_insert_ne; [exact Hcache|]. intros ->. congruence.
  - intros r Ho. apply Hlook in Ho as [[_ Ho]|[_ Ho]]; [discriminate|].
    destruct (Hd r Ho) as (inst & api & Hinst). exists inst, api.
    rewrite list_lookup_insert_ne; [exact Hinst|]. intros ->. congruence.
Qed.

Lemma one_of_each_step a p : one_of_each p -> one_of_each (step p a).
Proof.
  intros Hinv. destruct a as [k|n]; cbn [step].
  - apply one_of_each_construct, Hinv.
  - destruct (_instances p !! HttpFetcher); [apply one_of_each_set_rate|]; exact Hinv.
Qed.

Lemma one_of_each_run actions : forall p, one_of_each p -> one_of_each (run actions p).
Proof.
  induction actions as [|a actions IH]; intros p Hinv; [exact Hinv|].
  cbn [run fold_left]. apply IH, one_of_each_step, Hinv.
Qed.

(** C9. Whatever the process did before, a construction registers its
    instance, which is an object of its class in the heap, and whatever
    the process does afterwards that instance stays registered: every
    later construction of the same class, with any arguments, returns
    it and changes nothing in the process, so no object is created and
    no field is overwritten. It is the only object of its class. A
    [CachedDataFetcher] holds the registered [HttpFetcher], which is the
    only one, so there is one throttle, and its cache is the only
    [RequestsCache]. A first [HttpFetcher] has the ceiling of its own
    arguments. *)
Theorem singleton_constructions_return_first_instance
    (before after : list action) (k k' : construction) :
  class_of k' = class_of k ->
  let p0 := run before initial in
  let inst := (construct k p0).1 in
  let p2 := run after (construct k p0).2 in
  _instances p2 !! class_of k = Some inst
  /\ has_class (class_of k) p2 inst
  /\ construct k' p2 = (inst, p2)
  /\ (forall r, has_class (class_of k) p2 r -> r = inst)
  /\ (forall r api cache,
        heap p2 !! r = Some (CachedDataFetcherObject api cache) ->
        _instances p2 !! HttpFetcher = Some api
        /\ has_class HttpFetcher p2 api
        /\ (forall r', has_class HttpFetcher p2 r' -> r' = api)
        /\ heap p2 !! cache = Some RequestsCacheObject
        /\ (forall r', heap p2 !! r' = Some RequestsCacheObject -> r' = cache))
  /\ shares_transport p2
  /\ (forall n, k = NewHttpFetcher n ->
        _instances p0 !! HttpFetcher = None ->
        heap (construct k p0).2 !! inst
        = Some (HttpFetcherObject (match n with Some c => c | None => 9%Z end)
                                  (match n with Some c => c | None => 9%Z end))).
Proof.
  intros Hclass p0 inst p2.
  assert (Hreg : _instances p2 !! class_of k = Some inst).
  { apply run_keeps_instance, construct_registers. }
  assert (Hinv : one_of_each p2).
  { apply one_of_each_run, one_of_each_construct, one_of_each_run, one_of_each_initial. }
  destruct Hinv as (Ha & Hb & Hc & Hd).
  split; [exact Hreg|]. split; [apply Hb, Hreg|]. split.
  { apply construct_registered. rewrite Hclass. exact Hreg. }
  split.
  { intros r (o & Ho & Hcls). pose proof (Ha r o _ Ho Hcls). congruence. }
  split.
  { intros r api cache Hr. destruct (Hc r api cache Hr) as [Hapi Hcache].
    split; [exact Hapi|]. split; [apply Hb, Hapi|]. split.
    - intros r' (o & Ho & Hcls). pose proof (Ha r' o _ Ho Hcls). congruence.
    - split; [exact Hcache|]. intros r' Hr'.
      destruct (Hd r' Hr') as (inst' & api' & Hinst').
      pose proof (Ha inst' _ CachedDataFetcher Hinst' eq_refl) as H1.
      pose proof (Ha r _ CachedDataFetcher Hr eq_refl) as H2.
      assert (inst' = r) as -> by congruence.
      rewrite Hr in Hinst'. injection Hinst' as _ ->. reflexivity. }
  split.
  { apply run_well_formed, construct_well_formed, run_well_formed, initial_well_formed. }
  intros n -> Hnone. subst inst. cbn [construct]. unfold __call__. rewrite Hnone.
  cbn [HttpFetcher_init alloc fst snd heap]. apply list_lookup_middle. reflexivity.
Qed.

Lemma singleton_constructions_return_first_instance_witness :
  let p0 := run [Construct (NewHttpFetcher (Some 5%Z))] initial in
  let inst := (construct NewCachedDataFetcher p0).1 in
  let p2 := run [SetRate 2; Construct NewCachedDataFetcher]
                (construct NewCachedDataFetcher p0).2 in
  _instances p2 !! CachedDataFetcher = Some inst
  /\ has_class CachedDataFetcher p2 inst
  /\ construct NewCachedDataFetcher p2 = (inst, p2)
  /\ (forall r, has_class CachedDataFetcher p2 r -> r = inst)
  /\ shares_transport p2.
Proof.
  intros p0 inst p2.
  pose proof (singleton_constructions_return_first_instance
                [Construct (NewHttpFetcher (Some 5%Z))]
                [SetRate 2; Construct NewCachedDataFetcher]
                NewCachedDataFetcher NewCachedDataFetcher eq_refl) as Hall.
  cbv zeta in Hall. destruct Hall as (H1 & H2 & H3 & H4 & _ & H6 & _).
  repeat split; assumption.
Defined.

(** The process of the witness, object by object: the first
    [HttpFetcher(5)] at address 0, its ceiling moved to 2 by [set_rate],
    the cache at 1, the [CachedDataFetcher] at 2 holding both, and no
    fourth object after two more constructions. *)
Example one_transport_one_cache :
  let p0 := run [Construct (NewHttpFetcher (Some 5%Z))] initial in
  let p2 := run [SetRate 2; Construct NewCachedDataFetcher; Construct (NewHttpFetcher None)]
                (construct NewCachedDataFetcher p0).2 in
  heap p2 = [HttpFetcherObject 2 2; RequestsCacheObject; CachedDataFetcherObject 0 1]
  /\ _instances p2 !! HttpFetcher = Some 0
  /\ _instances p2 !! CachedDataFetcher = Some 2.
Proof. repeat split. Qed.

(** The second [HttpFetcher(max_nb_requests=2)] of a process returns the
    first object, whose ceiling is still 9. *)
Example later_arguments_are_ignored :
  let p1 := (construct (NewHttpFetcher None) initial).2 in
  construct (NewHttpFetcher (Some 2%Z)) p1 = (0, p1)
  /\ heap p1 !! 0 = Some (HttpFetcherObject 9 9).
Proof. split; vm_compute; reflexivity. Qed.

End singleton_facts.

(** * Further properties of DataFetcher.py *)

(** ** chunks *)

Section chunk_sizes.
Context {A : Type}.

Lemma range_step_bound (stop step i : nat) :
  0 < step -> i ∈ range_step stop step -> i < stop.
Proof.
  intros Hstep Hin. unfold range_step in Hin.
  apply list_elem_of_In, in_map_iff in Hin. destruct Hin as (k & <- & Hk).
  apply in_seq in Hk.
  pose proof (Nat.div_mod_eq (stop + step - 1) step) as Hd.
  pose proof (Nat.mod_upper_bound (stop + step - 1) step ltac:(lia)) as Hm.
  nia.
Qed.

(** X1: for a chunk size [n > 0], the chunks of a list, one after the
    other, are the list; no chunk is empty or longer than [n]; every
    chunk but the last has exactly [n] elements; and there are
    [ceil(len / n)] chunks. *)
Theorem chunks_partition (lst : list A) (n : nat) :
  0 < n ->
  concat (chunks lst n) = lst
  /\ Forall (fun chunk => 0 < length chunk <= n) (chunks lst n)
  /\ (forall i chunk, chunks lst n !! i = Some chunk ->
        S i < length (chunks lst n) -> length chunk = n)
  /\ length (chunks lst n) = (length lst + n - 1) / n.
Proof.
  intros Hn. split; [apply chunks_concat, Hn|]. split; [|split].
  - apply Forall_forall. intros chunk Hin. unfold chunks in Hin.
    apply list_elem_of_In, in_map_iff in Hin. destruct Hin as (i & <- & Hi).
    apply list_elem_of_In, range_step_bound in Hi; [|exact Hn].
    rewrite length_take, length_drop. lia.
  - intros i chunk Hi Hlast. unfold chunks, range_step in *.
    rewrite !length_map, length_seq in Hlast.
    rewrite !list_lookup_fmap in Hi.
    destruct (seq 0 ((length lst + n - 1) / n) !! i) as [k|] eqn:Hk; [|discriminate].
    apply lookup_seq in Hk as [-> Hk]. cbn in Hi. injection Hi as <-.
    rewrite length_take, length_drop.
    pose proof (Nat.div_mod_eq (length lst + n - 1) n) as Hd.
    pose proof (Nat.mod_upper_bound (length lst + n - 1) n ltac:(lia)) as Hm.
    nia.
  - unfold chunks, range_step. rewrite !length_map, length_seq. reflexivity.
Qed.

End chunk_sizes.

Lemma chunks_partition_witness :
  concat (chunks [1; 2; 3; 4; 5; 6; 7] 3) = [1; 2; 3; 4; 5; 6; 7]
  /\ Forall (fun chunk => 0 < length chunk <= 3) (chunks [1; 2; 3; 4; 5; 6; 7] 3)
  /\ (forall i chunk, chunks [1; 2; 3; 4; 5; 6; 7] 3 !! i = Some chunk ->
        S i < length (chunks [1; 2; 3; 4; 5; 6; 7] 3) -> length chunk = 3)
  /\ length (chunks [1; 2; 3; 4; 5; 6; 7] 3) = (length [1; 2; 3; 4; 5; 6; 7] + 3 - 1) / 3.
Proof. apply (chunks_partition [1; 2; 3; 4; 5; 6; 7] 3). lia. Defined.

(** ** RequestsCache: lookups, writes, sweep and close *)

Section cache_more.
Context `{Environment}.

(** X2: round trip. With a connection open, a payload other than
    [None] that [json.loads] reads back from its [json.dumps] text is
    returned by [retrieve] once [create_or_update] has stored it, under
    the URL it was stored for and under every URL with the same
    normalised key; the lookup changes nothing. *)
Theorem stored_payload_is_retrieved (url url' : string) (v : json) (s : state)
    (db : gmap string row) :
  _conn s = Some db ->
  is_None v = false ->
  loads (dumps v) = Some v ->
  _normalize_url url' = _normalize_url url ->
  exists s1,
    create_or_update url v s = (Ok tt, s1)
    /\ retrieve url' s1 = (Ok v, s1).
Proof.
  intros Hc Hv Hl Hk.
  destruct (create_or_update_writes url v s db Hc Hv) as (s1 & Hw & Hc1 & _).
  exists s1. split; [exact Hw|].
  rewrite retrieve_stored. unfold stored. rewrite Hc1, Hk, lookup_insert_eq.
  cbn. rewrite Hl. reflexivity.
Qed.



(** X4: with [skip_cache] set, or with no connection open, a fetch of
    [CachedDataFetcher] is the fetch of the transport: same result, same
    final state, whatever the cache holds. *)
Theorem fetch_without_cache_is_the_transport (url : string) (nc skip_cache : bool)
    (s : state) :
  skip_cache = true \/ _conn s = None ->
  CachedDataFetcher.fetch url nc skip_cache s = HttpFetcher.fetch url nc s.
Proof.
  intros Hby. unfold CachedDataFetcher.fetch.
  assert (Hfirst :
    (if negb skip_cache then retrieve url else ret JNull) s = (Ok JNull, s)).
  { destruct skip_cache; [reflexivity|]. destruct Hby as [|Hc]; [discriminate|].
    cbn [negb]. rewrite retrieve_stored. unfold stored. rewrite Hc. reflexivity. }
  rewrite bind_unfold, Hfirst. cbn [truthy negb]. rewrite bind_unfold.
  destruct (keeps_fetch url nc s) as (Hc1 & _).
  destruct (HttpFetcher.fetch url nc s) as [[v| |] s1]; try reflexivity.
  cbn [snd] in Hc1. rewrite bind_unfold.
  destruct skip_cache; cbn [negb andb]; [reflexivity|].
  destruct Hby as [|Hc]; [discriminate|].
  destruct (is_None v); cbn [negb]; [reflexivity|].
  unfold create_or_update. rewrite bind_unfold. cbn [get_state].
  rewrite Hc1, Hc. reflexivity.
Qed.

(** X5: the sweep. A negative age raises [ValueError] and changes
    nothing. With an age of [max_age >= 0] days the sweep returns, and
    the table then holds exactly the rows last written less than
    [86400 * max_age] seconds ago, unchanged; a row that is exactly that
    old is deleted. The clock, the requests and the log stay as they
    were. *)
Theorem flush_keeps_younger_rows (max_age : Z) (s : state) (db : gmap string row) :
  _conn s = Some db ->
  ((max_age < 0)%Z -> flush max_age s = (Raise ValueError, s))
  /\ ((0 <= max_age)%Z ->
      exists s' db',
        flush max_age s = (Ok tt, s')
        /\ _conn s' = Some db'
        /\ (forall k r, db' !! k = Some r <->
              db !! k = Some r /\ (clock s - last_accessed r < 86400 * max_age)%Z)
        /\ clock s' = clock s /\ requests s' = requests s /\ log s' = log s).
Proof.
  intros Hc. split.
  - intros Hneg. unfold flush.
    destruct (max_age <? 0)%Z eqn:Hlt; [reflexivity|lia].
  - intros Hage. unfold flush.
    destruct (max_age <? 0)%Z eqn:Hneg; [lia|].
    rewrite bind_unfold. cbn [get_state]. rewrite Hc, bind_unfold.
    unfold modify at 1. unfold _update_count, modify. cbn [_conn set_conn _actions_pending].
    eexists _, _. split; [reflexivity|]. split; [|split].
    + destruct (100 <=? _)%Z; reflexivity.
    + intros k r. rewrite map_lookup_filter_Some. cbn. split.
      * intros [Hk Hy]. split; [exact Hk|lia].
      * intros [Hk Hy]. split; [exact Hk|lia].
    + destruct (100 <=? _)%Z; repeat split.
Qed.

Lemma keeps_cache_pending {A} (m : M A) : keeps_cache m -> keeps_pending_in_range m.
Proof.
  intros Hk s Hs. destruct (Hk s) as (_ & Hp & _). unfold pending_in_range in *.
  rewrite Hp. exact Hs.
Qed.

Lemma pending_bind {A B} (m : M A) (k : A -> M B) :
  keeps_pending_in_range m -> (forall a, keeps_pending_in_range (k a)) ->
  keeps_pending_in_range (bind m k).
Proof.
  intros Hm Hk s Hs. specialize (Hm s Hs). rewrite bind_unfold.
  destruct (m s) as [[a|e|] s1]; cbn [snd] in *; [|exact Hm|exact Hm].
  apply Hk, Hm.
Qed.

Lemma pending_ret {A} (a : A) : keeps_pending_in_range (ret a).
Proof. intros s Hs. exact Hs. Qed.

Lemma pending_raise {A} (e : exn) : keeps_pending_in_range (@raise A e).
Proof. intros s Hs. exact Hs. Qed.

Lemma pending_update_count (count : Z) :
  (0 <= count)%Z -> keeps_pending_in_range (_update_count count).
Proof.
  intros Hc s Hs. unfold _update_count, modify, pending_in_range in *. cbn [snd].
  destruct (_conn s); [|exact Hs].
  destruct (100 <=? _actions_pending s + count)%Z eqn:Hle; cbn; lia.
Qed.

Lemma pending_insert_or_replace k text : keeps_pending_in_range (insert_or_replace k text).
Proof.
  intros s Hs. unfold insert_or_replace, modify. cbn [snd].
  destruct (_conn s); exact Hs.
Qed.

Lemma pending_retrieve url : keeps_pending_in_range (retrieve url).
Proof.
  intros s Hs. destruct (retrieve_returns url s) as (s0 & Hr & _ & Hp & _).
  rewrite Hr. unfold pending_in_range in *. cbn [snd]. rewrite Hp. exact Hs.
Qed.

Lemma pending_retrieve_all urls : keeps_pending_in_range (retrieve_all urls).
Proof.
  intros s Hs. rewrite retrieve_all_unfold.
  destruct (classify_spec (cache_results_of s urls) urls [] [] s) as (hits & Heq & _).
  rewrite Heq. exact Hs.
Qed.

Lemma pending_create_or_update url v : keeps_pending_in_range (create_or_update url v).
Proof.
  unfold create_or_update. apply pending_bind; [intros s Hs; exact Hs|].
  intros s0. destruct (_conn s0); [|apply pending_ret].
  destruct (is_None v); [apply pending_ret|].
  apply pending_bind; [apply pending_insert_or_replace|].
  intros _. apply pending_update_count. lia.
Qed.

Lemma pending_executemany values : keeps_pending_in_range (executemany_insert values).
Proof.
  induction values as [|[k t] values IH]; [apply pending_ret|].
  cbn [executemany_insert]. apply pending_bind; [apply pending_insert_or_replace|].
  intros _. exact IH.
Qed.

Lemma pending_create_or_update_all data : keeps_pending_in_range (create_or_update_all data).
Proof.
  unfold create_or_update_all. apply pending_bind; [intros s Hs; exact Hs|].
  intros s0. destruct (_conn s0); [|apply pending_ret].
  apply pending_bind; [apply pending_executemany|].
  intros _. apply pending_update_count. lia.
Qed.

Lemma pending_flush max_age : keeps_pending_in_range (flush max_age).
Proof.
  unfold flush. destruct (max_age <? 0)%Z; [apply pending_raise|].
  apply pending_bind; [intros s Hs; exact Hs|].
  intros s0. destruct (_conn s0); [|apply pending_ret].
  apply pending_bind; [intros s Hs; exact Hs|].
  intros _. apply pending_update_count. lia.
Qed.

Lemma pending_close : keeps_pending_in_range RequestsCache_close.
Proof.
  intros s Hs. unfold RequestsCache_close, modify, pending_in_range in *. cbn [snd].
  destruct (_conn s); [|exact Hs].
  destruct (0 <? _actions_pending s)%Z; cbn; lia.
Qed.

Lemma pending_fetch url nc skip : keeps_pending_in_range (CachedDataFetcher.fetch url nc skip).
Proof.
  unfold CachedDataFetcher.fetch. apply pending_bind.
  { destruct (negb skip); [apply pending_retrieve | apply pending_ret]. }
  intros r. apply pending_bind.
  { destruct (negb (truthy r)); [apply keeps_cache_pending, keeps_fetch | apply pending_ret]. }
  intros r'. apply pending_bind; [|intros _; apply pending_ret].
  destruct (negb skip && negb (is_None r')); [apply pending_create_or_update | apply pending_ret].
Qed.

Lemma pending_fetch_all urls nc skip :
  keeps_pending_in_range (CachedDataFetcher.fetch_all urls nc skip).
Proof.
  unfold CachedDataFetcher.fetch_all. apply pending_bind.
  { destruct (negb skip); [|apply pending_ret].
    apply pending_bind; [apply pending_retrieve_all|]. intros [hits missed]. apply pending_ret. }
  intros [results misses]. apply pending_bind; [apply keeps_cache_pending, keeps_fetch_all|].
  intros api. apply pending_bind.
  { destruct results; [apply pending_raise | apply pending_ret]. }
  intros results'. apply pending_bind; [|intros _; apply pending_ret].
  destruct (negb skip); [|apply pending_ret].
  destruct results'; cbn [CachedDataFetcher.py_create_or_update_all].
  - apply pending_bind; [intros s Hs; exact Hs|].
    intros s0. destruct (_conn s0); [apply pending_raise | apply pending_ret].
  - apply pending_create_or_update_all.
Qed.

(** X6: the write counter stays below the commit threshold. If
    [0 <= _actions_pending < 100] holds before a cache write, a batched
    write of any size, a sweep, a close, or a whole [fetch] or
    [fetch_all] of [CachedDataFetcher], it holds afterwards, however the
    call ends: no more than 99 statements ever wait for a commit. *)
Theorem pending_writes_stay_below_commit_threshold (s : state) :
  pending_in_range s ->
  (forall url v, pending_in_range (create_or_update url v s).2)
  /\ (forall data, pending_in_range (create_or_update_all data s).2)
  /\ (forall max_age, pending_in_range (flush max_age s).2)
  /\ pending_in_range (RequestsCache_close s).2
  /\ (forall url nc skip_cache,
        pending_in_range (CachedDataFetcher.fetch url nc skip_cache s).2)
  /\ (forall urls nc skip_cache,
        pending_in_range (CachedDataFetcher.fetch_all urls nc skip_cache s).2).
Proof.
  intros Hs. repeat split.
  all: first [ apply pending_create_or_update | apply pending_create_or_update_all
             | apply pending_flush | apply pending_close | apply pending_fetch
             | apply pending_fetch_all ]; exact Hs.
Qed.

Lemma create_or_update_each_writes data : forall s db,
  _conn s = Some db ->
  exists s',
    create_or_update_each data s = (Ok tt, s')
    /\ _conn s' = Some (written (clock s) (values_of_results data) db)
    /\ clock s' = clock s.
Proof.
  induction data as [|[u v] data IH]; intros s db Hc.
  - exists s. repeat split. exact Hc.
  - cbn [create_or_update_each]. rewrite bind_unfold.
    unfold values_of_results. cbn [List.filter snd fst].
    destruct (is_None v) eqn:Hv; cbn [negb].
    + assert (Hw : create_or_update u v s = (Ok tt, s)).
      { unfold create_or_update. rewrite bind_unfold. cbn [get_state].
        rewrite Hc, Hv. reflexivity. }
      rewrite Hw. apply IH, Hc.
    + destruct (create_or_update_writes u v s db Hc Hv) as (s1 & Hw & Hc1 & Hk1 & _).
      rewrite Hw. destruct (IH s1 _ Hc1) as (s' & Hrun & Hc' & Hk').
      exists s'. split; [exact Hrun|]. split; [|congruence].
      rewrite Hc', Hk1. reflexivity.
Qed.

(** X7: a batched write leaves the table that one [create_or_update]
    per item of the dictionary, in order, leaves: the same rows with the
    same texts and time stamps, [None] payloads skipped in both, and both
    return. Only the write counter may differ. *)
Theorem batched_write_is_one_write_per_item (data : dict json) (s : state) :
  (create_or_update_all data s).1 = (create_or_update_each data s).1
  /\ _conn (create_or_update_all data s).2 = _conn (create_or_update_each data s).2
  /\ clock (create_or_update_all data s).2 = clock (create_or_update_each data s).2.
Proof.
  destruct (_conn s) as [db|] eqn:Hc.
  - destruct (create_or_update_all_writes data s db Hc) as (s1 & Hw & Hc1 & Hk1 & _).
    destruct (create_or_update_each_writes data s db Hc) as (s2 & Hw2 & Hc2 & Hk2).
    rewrite Hw, Hw2. cbn [fst snd]. repeat split; congruence.
  - assert (Hall : create_or_update_all data s = (Ok tt, s)).
    { unfold create_or_update_all. rewrite bind_unfold. cbn [get_state].
      rewrite Hc. reflexivity. }
    assert (Heach : create_or_update_each data s = (Ok tt, s)).
    { clear Hall. induction data as [|[u v] data IH]; [reflexivity|].
      cbn [create_or_update_each]. rewrite bind_unfold.
      unfold create_or_update. rewrite bind_unfold. cbn [get_state]. rewrite Hc.
      cbn [ret]. exact IH. }
    rewrite Hall, Heach. repeat split.
Qed.

(** X8: [close] always returns and leaves no connection; a second
    [close] changes nothing; a counter that was in range is back at 0
    when a connection was open; and after it every lookup misses and
    every write is dropped. *)
Theorem close_is_idempotent_and_final (s : state) :
  exists s',
    RequestsCache_close s = (Ok tt, s')
    /\ _conn s' = None
    /\ RequestsCache_close s' = (Ok tt, s')
    /\ (pending_in_range s -> _conn s <> None -> _actions_pending s' = 0%Z)
    /\ (forall url, retrieve url s' = (Ok JNull, s'))
    /\ (forall url v, create_or_update url v s' = (Ok tt, s')).
Proof.
  eexists. split; [reflexivity|].
  assert (Hc : _conn (match _conn s with
                      | Some _ => set_conn None
                          (if (0 <? _actions_pending s)%Z then set_actions_pending 0 s else s)
                      | None => s end) = None).
  { destruct (_conn s) eqn:Hc; [reflexivity|exact Hc]. }
  split; [exact Hc|]. split; [|split; [|split]].
  - unfold RequestsCache_close, modify. rewrite Hc. reflexivity.
  - intros Hs Hopen. unfold pending_in_range in Hs.
    destruct (_conn s); [|congruence].
    destruct (0 <? _actions_pending s)%Z eqn:Hp; cbn; lia.
  - intros url. rewrite retrieve_stored. unfold stored. rewrite Hc. reflexivity.
  - intros url v. unfold create_or_update. rewrite bind_unfold. cbn [get_state].
    rewrite Hc. reflexivity.
Qed.

End cache_more.

Lemma stored_payload_is_retrieved_witness :
  exists s1,
    @create_or_update Example.offline Example.url Example.visits Example.empty_cache
    = (Ok tt, s1)
    /\ @retrieve Example.offline
         "https://api.example.com/v1/website/acme.com/visits?api_key=OTHER" s1
       = (Ok Example.visits, s1).
Proof.
  apply (@stored_payload_is_retrieved Example.offline Example.url
           "https://api.example.com/v1/website/acme.com/visits?api_key=OTHER"
           Example.visits Example.empty_cache ∅).
  - reflexivity.
  - reflexivity.
  - vm_compute. reflexivity.
  - vm_compute. reflexivity.
Defined.


Lemma fetch_without_cache_is_the_transport_witness :
  @CachedDataFetcher.fetch Example.online Example.url false true Example.warm
  = @HttpFetcher.fetch Example.online Example.url false Example.warm.
Proof.
  apply (@fetch_without_cache_is_the_transport Example.online Example.url false true
           Example.warm).
  left. reflexivity.
Defined.

Lemma flush_keeps_younger_rows_witness :
  flush (-1) Example.warm = (Raise ValueError, Example.warm).
Proof.
  apply (flush_keeps_younger_rows (-1) Example.warm
           (Example.table (Example.dumps_json Example.visits)) eq_refl).
  lia.
Defined.

Lemma pending_writes_stay_below_commit_threshold_witness :
  pending_in_range
    (@CachedDataFetcher.fetch Example.online Example.url false false Example.empty_cache).2.
Proof.
  apply (@pending_writes_stay_below_commit_threshold Example.online Example.empty_cache).
  unfold pending_in_range. simpl. lia.
Defined.

(** ** HttpFetcher: requests, slots and error statuses *)

Section transport_more.
Context `{Environment}.

Lemma logs_only_ret {A} (a : A) : logs_only (ret a).
Proof. intros s. split; [discriminate|]. exists (log s). symmetry. apply set_log_same. Qed.

Lemma logs_only_raise {A} (e : exn) : logs_only (@raise A e).
Proof. intros s. split; [discriminate|]. exists (log s). symmetry. apply set_log_same. Qed.

Lemma logs_only_logger r : logs_only (logger r).
Proof. intros s. split; [discriminate|]. eexists. reflexivity. Qed.

Lemma logs_only_bind {A B} (m : M A) (k : A -> M B) :
  logs_only m -> (forall a, logs_only (k a)) -> logs_only (bind m k).
Proof.
  intros Hm Hk s. rewrite bind_unfold. destruct (Hm s) as (Hnb & l & Hl).
  destruct (m s) as [[a|e|] s1]; cbn [fst snd] in *.
  - destruct (Hk a s1) as (Hnb' & l' & Hl'). split; [exact Hnb'|].
    exists l'. rewrite Hl', Hl. apply set_log_set_log.
  - split; [discriminate|]. exists l. exact Hl.
  - contradiction.
Qed.

Lemma logs_only_response_json body : logs_only (HttpFetcher.response_json body).
Proof.
  unfold HttpFetcher.response_json. destruct (all_chars _ body); [apply logs_only_ret|].
  destruct (loads body); [apply logs_only_ret | apply logs_only_raise].
Qed.

Lemma logs_only_py_get o key default : logs_only (HttpFetcher.py_get o key default).
Proof. destruct o; first [apply logs_only_ret | apply logs_only_raise]. Qed.

(** Once a response has arrived, an attempt ends in the state [answered],
    up to the log: the slot it took is scheduled for release. *)
Lemma attempt_answered url s status content_type body :
  0 < _sem_throttle s + timers s ->
  server (requests s) url = Response status content_type body ->
  exists r l,
    HttpFetcher._fetch_retry_attempt url s = (r, set_log l (answered url s))
    /\ r <> Blocked.
Proof.
  intros Hslot Hsrv. rewrite (attempt_response url s _ _ _ Hslot Hsrv).
  match goal with |- exists r l, ?m _ = _ /\ _ => assert (Hlo : logs_only m) end.
  { destruct (_ || _)%bool.
    { apply logs_only_bind; [apply logs_only_logger | intros; apply logs_only_raise]. }
    destruct (_ && _)%bool.
    { apply logs_only_bind; [apply logs_only_response_json|]. intros content.
      apply logs_only_bind; [apply logs_only_py_get|]. intros meta.
      apply logs_only_bind; [apply logs_only_py_get|]. intros code.
      apply logs_only_bind; [apply logs_only_py_get|]. intros msg.
      apply logs_only_raise. }
    destruct (_ && _)%bool; [apply logs_only_raise|].
    destruct (String.eqb _ _); [apply logs_only_response_json|].
    apply logs_only_bind; [apply logs_only_logger | intros; apply logs_only_ret]. }
  destruct (Hlo (answered url s)) as (Hnb & l & Hl).
  match goal with |- exists r l, ?m _ = _ /\ _ =>
    destruct (m (answered url s)) as [r s1] end.
  cbn [fst snd] in *. subst s1. exists r, l. split; [reflexivity|exact Hnb].
Qed.

(** What one attempt does to the requests and the waits. *)
Lemma attempt_shape url s :
  exists r s1,
    HttpFetcher._fetch_retry_attempt url s = (r, s1)
    /\ sleeps s1 = sleeps s
    /\ ((r = Blocked /\ requests s1 = requests s)
        \/ (r <> Blocked /\ requests s1 = url :: requests s)).
Proof.
  destruct (Nat.eq_dec (_sem_throttle s + timers s) 0) as [Hz|Hnz].
  - rewrite (attempt_blocked url s Hz). eexists _, _. split; [reflexivity|].
    split; [reflexivity|]. left. split; reflexivity.
  - destruct (server (requests s) url) as [|status ct body] eqn:Hsrv.
    + rewrite (attempt_connection_failed url s ltac:(lia) Hsrv).
      eexists _, _. split; [reflexivity|]. split; [apply sleeps_take_slot|].
      right. split; [discriminate|reflexivity].
    + destruct (attempt_answered url s _ _ _ ltac:(lia) Hsrv) as (r & l & Hrun & Hnb).
      rewrite Hrun. eexists _, _. split; [reflexivity|].
      split; [apply sleeps_take_slot|]. right. split; [exact Hnb|reflexivity].
Qed.

(** The retry loop sends [k <= left + 1] requests, all for [url], and
    draws [j] waits, the Fibonacci numbers in order, with [j <= left] and
    [j <= k <= j + 1]. *)
Lemma retry_shape url : forall left tries s,
  1 <= tries ->
  exists k j,
    k <= S left /\ j <= left /\ j <= k <= S j
    /\ requests (HttpFetcher.on_exception left tries
                   (HttpFetcher._fetch_retry_attempt url) s).2
       = repeat url k ++ requests s
    /\ sleeps (HttpFetcher.on_exception left tries
                 (HttpFetcher._fetch_retry_attempt url) s).2
       = rev (map HttpFetcher.fibo (seq (tries - 1) j)) ++ sleeps s.
Proof.
  induction left as [|left IH]; intros tries s Htries.
  - destruct (attempt_shape url s) as (r & s1 & Hrun & Hsl & Hreq).
    cbn [HttpFetcher.on_exception]. rewrite Hrun.
    destruct r as [a|e|]; [| |].
    + destruct Hreq as [[? _]|[_ Hreq]]; [discriminate|].
      exists 1, 0. cbn [snd]. rewrite Hreq, Hsl. repeat split; lia.
    + destruct Hreq as [[? _]|[_ Hreq]]; [discriminate|].
      exists 1, 0. destruct (HttpFetcher.is_retriable e); cbn [snd];
        rewrite Hreq, Hsl; repeat split; lia.
    + destruct Hreq as [[_ Hreq]|[? _]]; [|congruence].
      exists 0, 0. cbn [snd]. rewrite Hreq, Hsl. repeat split; lia.
  - destruct (attempt_shape url s) as (r & s1 & Hrun & Hsl & Hreq).
    cbn [HttpFetcher.on_exception]. rewrite Hrun.
    destruct r as [a|e|]; [| |].
    + destruct Hreq as [[? _]|[_ Hreq]]; [discriminate|].
      exists 1, 0. cbn [snd]. rewrite Hreq, Hsl. repeat split; lia.
    + destruct Hreq as [[? _]|[_ Hreq]]; [discriminate|].
      destruct (HttpFetcher.is_retriable e).
      * rewrite bind_unfold. unfold HttpFetcher.sleep, modify.
        destruct (IH (S tries) (set_sleeps (HttpFetcher.fibo (tries - 1) :: sleeps s1) s1))
          as (k & j & Hk & Hj & Hkj & Hr & Hs); [lia|].
        exists (S k), (S j). split; [lia|]. split; [lia|]. split; [lia|]. split.
        -- rewrite Hr. change (requests (set_sleeps _ s1)) with (requests s1).
           rewrite Hreq. apply repeat_snoc.
        -- rewrite Hs. cbn [sleeps set_sleeps seq map rev]. rewrite Hsl.
           replace (S tries - 1) with (S (tries - 1)) by lia.
           rewrite <- app_assoc. reflexivity.
      * exists 1, 0. cbn [snd]. rewrite Hreq, Hsl. repeat split; lia.
    + destruct Hreq as [[_ Hreq]|[? _]]; [|congruence].
      exists 0, 0. cbn [snd]. rewrite Hreq, Hsl. repeat split; lia.
Qed.

(** The handlers of [fetch] write to the log only. *)
Lemma fetch_state url nc s :
  exists l,
    (HttpFetcher.fetch url nc s).2
    = set_log l (HttpFetcher._fetch_retry url s).2.
Proof.
  unfold HttpFetcher.fetch, try_except.
  destruct (HttpFetcher._fetch_retry url s) as [[v|e|] s1]; cbn [snd].
  - exists (log s1). symmetry. apply set_log_same.
  - destruct (_ || _)%bool; cbn [snd].
    + rewrite bind_unfold. eexists. reflexivity.
    + exists (log s1). symmetry. apply set_log_same.
  - exists (log s1). symmetry. apply set_log_same.
Qed.

Lemma fetch_requests url nc s :
  exists k, requests (HttpFetcher.fetch url nc s).2 = repeat url k ++ requests s.
Proof.
  destruct (retry_shape url (MAX_HTTP_RETRIES - 1) 1 s) as (k & j & _ & _ & _ & Hr & _);
    [lia|].
  destruct (fetch_state url nc s) as (l & Hl). exists k. rewrite Hl. exact Hr.
Qed.

(** X9: however a fetch of the transport ends (a payload, [None], an
    exception, or a wait without end), it has sent at most
    [MAX_HTTP_RETRIES] = 3 requests, all of them for its own URL, and has
    slept at most twice, for the Fibonacci waits 1 and 1 in order; the
    number of waits is the number of requests or one less. *)
Theorem fetch_sends_at_most_three_requests (url : string) (nc : bool) (s : state) :
  exists k j,
    k <= MAX_HTTP_RETRIES /\ j <= k <= S j /\ j <= MAX_HTTP_RETRIES - 1
    /\ requests (HttpFetcher.fetch url nc s).2 = repeat url k ++ requests s
    /\ sleeps (HttpFetcher.fetch url nc s).2
       = rev (map HttpFetcher.fibo (seq 0 j)) ++ sleeps s.
Proof.
  destruct (retry_shape url (MAX_HTTP_RETRIES - 1) 1 s) as (k & j & Hk & Hj & Hkj & Hr & Hs);
    [lia|].
  destruct (fetch_state url nc s) as (l & Hl).
  exists k, j. rewrite Hl. unfold HttpFetcher._fetch_retry.
  cbn [requests sleeps set_log]. unfold MAX_HTTP_RETRIES in *.
  repeat split; try lia; assumption.
Qed.

Lemma retry_answered url : forall left tries s,
  0 < _sem_throttle s + timers s ->
  (forall sent, server sent url <> ConnectionFailed) ->
  (HttpFetcher.on_exception left tries (HttpFetcher._fetch_retry_attempt url) s).1
    <> Blocked
  /\ _sem_throttle (HttpFetcher.on_exception left tries
                      (HttpFetcher._fetch_retry_attempt url) s).2
     + timers (HttpFetcher.on_exception left tries
                 (HttpFetcher._fetch_retry_attempt url) s).2
     = _sem_throttle s + timers s.
Proof.
  induction left as [|left IH]; intros tries s Hslot Hsrv.
  - destruct (server (requests s) url) as [|status ct body] eqn:Hs;
      [exfalso; exact (Hsrv _ Hs)|].
    destruct (attempt_answered url s _ _ _ Hslot Hs) as (r & l & Hrun & Hnb).
    cbn [HttpFetcher.on_exception]. rewrite Hrun.
    pose proof (slots_answered url s Hslot) as Hsl.
    destruct r as [a|e|]; [| |congruence].
    + cbn [fst snd]. split; [discriminate|exact Hsl].
    + destruct (HttpFetcher.is_retriable e); cbn [fst snd];
        (split; [discriminate|exact Hsl]).
  - destruct (server (requests s) url) as [|status ct body] eqn:Hs;
      [exfalso; exact (Hsrv _ Hs)|].
    destruct (attempt_answered url s _ _ _ Hslot Hs) as (r & l & Hrun & Hnb).
    cbn [HttpFetcher.on_exception]. rewrite Hrun.
    pose proof (slots_answered url s Hslot) as Hsl.
    destruct r as [a|e|]; [| |congruence].
    + cbn [fst snd]. split; [discriminate|exact Hsl].
    + destruct (HttpFetcher.is_retriable e);
        [|cbn [fst snd]; split; [discriminate|exact Hsl]].
      rewrite bind_unfold. unfold HttpFetcher.sleep, modify.
      destruct (IH (S tries)
                  (set_sleeps (HttpFetcher.fibo (tries - 1)
                               :: sleeps (set_log l (answered url s)))
                              (set_log l (answered url s)))) as (Hnb' & Hsl').
      * change (0 < _sem_throttle (answered url s) + timers (answered url s)). lia.
      * exact Hsrv.
      * split; [exact Hnb'|]. rewrite Hsl'. exact Hsl.
Qed.

(** X10: when the server answers every request for the URL (any status,
    any body, but no connection failure) and a throttle slot is free or
    scheduled, the fetch of the transport does not wait without end, and
    the number of slots, free or scheduled, is afterwards what it was:
    every slot taken has been scheduled for release. *)
Theorem answered_fetch_returns_its_slot (url : string) (nc : bool) (s : state) :
  0 < _sem_throttle s + timers s ->
  (forall sent, server sent url <> ConnectionFailed) ->
  (HttpFetcher.fetch url nc s).1 <> Blocked
  /\ _sem_throttle (HttpFetcher.fetch url nc s).2 + timers (HttpFetcher.fetch url nc s).2
     = _sem_throttle s + timers s.
Proof.
  intros Hslot Hsrv.
  destruct (retry_answered url (MAX_HTTP_RETRIES - 1) 1 s Hslot Hsrv) as (Hnb & Hsl).
  destruct (fetch_state url nc s) as (l & Hl). rewrite Hl.
  split; [|exact Hsl].
  unfold HttpFetcher.fetch, try_except. fold (HttpFetcher._fetch_retry url) in Hnb.
  destruct (HttpFetcher._fetch_retry url s) as [[v|e|] s1]; cbn [fst] in *;
    [discriminate| |congruence].
  destruct (_ || _)%bool; [rewrite bind_unfold|]; discriminate.
Qed.

Lemma fatal_status_branches status :
  fatal_status status = true ->
  ((status =? 429) || ((500 <=? status) && (status <? 600)))%Z = false
  /\ ((400 <=? status) && negb (status =? 404))%Z = true.
Proof. unfold fatal_status. lia. Qed.

(** X11: an error status that is not retried. A response whose status
    is 400 or above, other than 404, 429 and the 5xx range, and that is
    not a 400 with a JSON body, ends the fetch after this one request:
    no retry, no wait, the response text logged as an error, and [None]
    returned. *)
Theorem error_status_is_not_retried (url : string) (nc : bool) (s : state)
    (status : Z) (content_type body : string) :
  0 < _sem_throttle s + timers s ->
  server (requests s) url = Response status content_type body ->
  fatal_status status = true ->
  (status =? 400)%Z && String.eqb content_type "application/json" = false ->
  HttpFetcher.fetch url nc s =
    (Ok JNull, set_log (ERROR_http url (BodyText body) :: log s) (answered url s)).
Proof.
  intros Hslot Hsrv Hfatal Hplain.
  destruct (fatal_status_branches status Hfatal) as (Hretry & Herr).
  unfold HttpFetcher.fetch, try_except, HttpFetcher._fetch_retry.
  change (MAX_HTTP_RETRIES - 1) with 2. cbn [HttpFetcher.on_exception].
  rewrite (attempt_response url s _ _ _ Hslot Hsrv), Hretry, Hplain, Herr.
  cbn [raise HttpFetcher.is_retriable is_ClientResponseError orb].
  rewrite bind_unfold. unfold logger, modify, ret.
  change (log (answered url s)) with (log (take_slot s)). rewrite log_take_slot.
  reflexivity.
Qed.

(** X12: a 400 response with a JSON body that decodes to an object
    whose [meta] member is an object (or is missing) ends the fetch after
    this one request with [None], and the error logged carries the
    [error_code] and [error_message] members of [meta], [None] standing
    for a missing one. *)
Theorem structured_error_is_logged (url : string) (nc : bool) (s : state)
    (body : string) (content meta : dict json) :
  0 < _sem_throttle s + timers s ->
  server (requests s) url = Response 400 "application/json" body ->
  all_chars HttpFetcher.is_space body = false ->
  loads body = Some (JObj content) ->
  match dict_get content "meta" with Some m => m | None => JObj [] end = JObj meta ->
  HttpFetcher.fetch url nc s =
    (Ok JNull,
     set_log (ERROR_http url
                (SimilarwebError
                   (match dict_get meta "error_code" with Some c => c | None => JNull end)
                   (match dict_get meta "error_message" with Some m => m | None => JNull end))
              :: log s) (answered url s)).
Proof.
  intros Hslot Hsrv Hblank Hl Hmeta.
  unfold HttpFetcher.fetch, try_except, HttpFetcher._fetch_retry.
  change (MAX_HTTP_RETRIES - 1) with 2. cbn [HttpFetcher.on_exception].
  rewrite (attempt_response url s _ _ _ Hslot Hsrv).
  change ((400 =? 429)%Z || ((500 <=? 400)%Z && (400 <? 600)%Z)) with false.
  change ((400 =? 400)%Z && String.eqb "application/json" "application/json") with true.
  cbv iota. rewrite bind_unfold. unfold HttpFetcher.response_json.
  rewrite Hblank, Hl. cbn [ret HttpFetcher.py_get]. rewrite bind_unfold. cbn [ret].
  rewrite Hmeta. rewrite bind_unfold. cbn [HttpFetcher.py_get ret].
  rewrite bind_unfold. cbn [HttpFetcher.py_get ret raise].
  cbn [HttpFetcher.is_retriable is_ClientResponseError orb].
  rewrite bind_unfold. unfold logger, modify, ret.
  change (log (answered url s)) with (log (take_slot s)). rewrite log_take_slot.
  reflexivity.
Qed.

(** X13: how a 400 response with a JSON content type ends the fetch,
    after one request and no wait. An empty or blank body, a body that
    decodes to anything but an object, and an object whose [meta] member
    is not an object make [fetch] raise [AttributeError]; a body that
    does not decode makes it raise [ValueError]; neither is caught by
    [fetch]. Only an object whose [meta] is an object or is missing gives
    [None]. *)
Theorem bad_request_outcomes (url : string) (nc : bool) (s : state) (body : string) :
  0 < _sem_throttle s + timers s ->
  server (requests s) url = Response 400 "application/json" body ->
  (HttpFetcher.fetch url nc s).1 =
    (if all_chars HttpFetcher.is_space body then Raise AttributeError
     else match loads body with
          | None => Raise ValueError
          | Some (JObj content) =>
              match dict_get content "meta" with
              | None | Some (JObj _) => Ok JNull
              | Some _ => Raise AttributeError
              end
          | Some _ => Raise AttributeError
          end)
  /\ requests (HttpFetcher.fetch url nc s).2 = url :: requests s
  /\ sleeps (HttpFetcher.fetch url nc s).2 = sleeps s.
Proof.
  intros Hslot Hsrv.
  unfold HttpFetcher.fetch, try_except, HttpFetcher._fetch_retry.
  change (MAX_HTTP_RETRIES - 1) with 2. cbn [HttpFetcher.on_exception].
  rewrite (attempt_response url s _ _ _ Hslot Hsrv).
  change ((400 =? 429)%Z || ((500 <=? 400)%Z && (400 <? 600)%Z)) with false.
  change ((400 =? 400)%Z && String.eqb "application/json" "application/json") with true.
  cbv iota. rewrite bind_unfold. unfold HttpFetcher.response_json.
  assert (Hreq : requests (answered url s) = url :: requests s) by reflexivity.
  assert (Hsl : sleeps (answered url s) = sleeps s) by apply sleeps_take_slot.
  destruct (all_chars HttpFetcher.is_space body).
  { cbn. repeat split; assumption. }
  destruct (loads body) as [content|]; [|cbn; repeat split; assumption].
  destruct content as [ | | | | |members]; try (cbn; repeat split; assumption).
  cbn [ret HttpFetcher.py_get]. rewrite bind_unfold. cbn [ret].
  destruct (dict_get members "meta") as [meta|].
  - destruct meta; cbn; repeat split; assumption.
  - rewrite bind_unfold. cbn [HttpFetcher.py_get ret].
    rewrite bind_unfold. cbn [HttpFetcher.py_get ret raise].
    cbn [HttpFetcher.is_retriable is_ClientResponseError orb].
    rewrite bind_unfold. cbn. repeat split; assumption.
Qed.

(** X14: the retry policy where throttle slots suffice. With at least
    three slots free or scheduled, [k < 3] failures that are retried (no
    connection, status 429 or 5xx) followed by a JSON response of
    accepted status give its payload after [k + 1] requests and the
    first [k] Fibonacci waits; three such failures in a row give [None]
    after three requests and the waits 1 and 1. *)
Theorem retry_policy_with_free_slots (url : string) (nc : bool) (s : state) :
  MAX_HTTP_RETRIES <= _sem_throttle s + timers s ->
  (forall k status body v,
     k < MAX_HTTP_RETRIES ->
     (forall i, i < k ->
        retriable_outcome (server (repeat url i ++ requests s) url) = true) ->
     server (repeat url k ++ requests s) url = Response status "application/json" body ->
     accepted_status status = true ->
     all_chars HttpFetcher.is_space body = false ->
     loads body = Some v ->
     exists s',
       HttpFetcher.fetch url nc s = (Ok v, s')
       /\ requests s' = repeat url (S k) ++ requests s
       /\ sleeps s' = rev (map HttpFetcher.fibo (seq 0 k)) ++ sleeps s)
  /\ ((forall i, i < MAX_HTTP_RETRIES ->
         retriable_outcome (server (repeat url i ++ requests s) url) = true) ->
      exists s',
        HttpFetcher.fetch url nc s = (Ok JNull, s')
        /\ requests s' = repeat url MAX_HTTP_RETRIES ++ requests s
        /\ sleeps s' = [1; 1]%Z ++ sleeps s).
Proof.
  unfold MAX_HTTP_RETRIES. intros Hslots. split.
  - intros k status body v Hk Hfail Hsrv Hacc Hblank Hl.
    eapply retries_then_payload; try eassumption; lia.
  - intros Hfail. apply retries_exhausted; assumption.
Qed.

End transport_more.

Lemma answered_fetch_returns_its_slot_witness :
  (@HttpFetcher.fetch Example.online Example.url false Example.empty_cache).1 <> Blocked
  /\ _sem_throttle (@HttpFetcher.fetch Example.online Example.url false Example.empty_cache).2
     + timers (@HttpFetcher.fetch Example.online Example.url false Example.empty_cache).2
     = _sem_throttle Example.empty_cache + timers Example.empty_cache.
Proof.
  apply (@answered_fetch_returns_its_slot Example.online Example.url false Example.empty_cache).
  - simpl. lia.
  - intros sent. simpl. discriminate.
Defined.

Lemma error_status_is_not_retried_witness :
  @HttpFetcher.fetch (Example.env (Example.answers 403 "text/plain" "Forbidden"))
    Example.url false Example.empty_cache
  = (Ok JNull,
     set_log (ERROR_http Example.url (BodyText "Forbidden") :: log Example.empty_cache)
       (answered Example.url Example.empty_cache)).
Proof.
  apply (@error_status_is_not_retried
           (Example.env (Example.answers 403 "text/plain" "Forbidden"))
           Example.url false Example.empty_cache 403 "text/plain" "Forbidden").
  - simpl. lia.
  - reflexivity.
  - reflexivity.
  - reflexivity.
Defined.

Lemma structured_error_is_logged_witness :
  @HttpFetcher.fetch
    (Example.env (Example.answers 400 "application/json" (Example.dumps_json Example.no_data)))
    Example.url false Example.empty_cache
  = (Ok JNull,
     set_log (ERROR_http Example.url (SimilarwebError (JNum 401) (JStr "Data not found"))
              :: log Example.empty_cache)
       (answered Example.url Example.empty_cache)).
Proof.
  apply (@structured_error_is_logged
           (Example.env (Example.answers 400 "application/json"
                           (Example.dumps_json Example.no_data)))
           Example.url false Example.empty_cache (Example.dumps_json Example.no_data)
           [("meta", JObj [("status", JStr "Error"); ("error_code", JNum 401);
                           ("error_message", JStr "Data not found")])]
           [("status", JStr "Error"); ("error_code", JNum 401);
            ("error_message", JStr "Data not found")]).
  - simpl. lia.
  - reflexivity.
  - vm_compute. reflexivity.
  - vm_compute. reflexivity.
  - reflexivity.
Defined.

Lemma bad_request_outcomes_witness :
  (@HttpFetcher.fetch (Example.env (Example.answers 400 "application/json" "[]"))
     Example.url false Example.empty_cache).1
  = Raise AttributeError.
Proof.
  destruct (@bad_request_outcomes
              (Example.env (Example.answers 400 "application/json" "[]"))
              Example.url false Example.empty_cache "[]") as (Hout & _).
  - simpl. lia.
  - reflexivity.
  - rewrite Hout. vm_compute. reflexivity.
Defined.

Lemma retry_policy_with_free_slots_witness :
  exists s',
    @HttpFetcher.fetch (Example.env Example.recovers) Example.url false Example.empty_cache
    = (Ok Example.visits, s')
    /\ requests s' = repeat Example.url 3 ++ requests Example.empty_cache
    /\ sleeps s' = rev (map HttpFetcher.fibo (seq 0 2)) ++ sleeps Example.empty_cache.
Proof.
  destruct (@retry_policy_with_free_slots (Example.env Example.recovers) Example.url false
              Example.empty_cache) as (Hpayload & _).
  - vm_compute. lia.
  - apply (Hpayload 2 200%Z (Example.dumps_json Example.visits) Example.visits).
    + vm_compute. lia.
    + intros i Hi. destruct i as [|[|i]]; [reflexivity | reflexivity | lia].
    + reflexivity.
    + reflexivity.
    + vm_compute. reflexivity.
    + vm_compute. reflexivity.
Defined.

(** ** Batches, the second fetch, and the rate *)


Lemma dict_get_update_absent {V} (other : dict V) : forall (d : dict V) u,
  dict_get other u = None -> dict_get (dict_update d other) u = dict_get d u.
Proof.
  induction other as [|[k v] other IH]; intros d u Hu; [reflexivity|].
  change (dict_update d ((k, v) :: other)) with (dict_update (dict_set d k v) other).
  cbn [dict_get] in Hu. destruct (String.eqb k u) eqn:Hk; [discriminate|].
  rewrite IH by exact Hu. rewrite dict_get_set, Hk. reflexivity.
Qed.

Section batches.
Context `{Environment}.


Lemma mapM_fetch_requests nc urls : forall s,
  exists new,
    requests (mapM (fun url => HttpFetcher.fetch url nc) urls s).2 = new ++ requests s
    /\ forall u, u ∈ new -> u ∈ urls.
Proof.
  induction urls as [|url urls IH]; intros s.
  - exists []. split; [reflexivity|]. intros u Hu. inversion Hu.
  - cbn [mapM]. rewrite bind_unfold.
    destruct (fetch_requests url nc s) as (k & Hk).
    destruct (HttpFetcher.fetch url nc s) as [[v| |] s1]; cbn [snd] in *.
    + rewrite bind_unfold. destruct (IH s1) as (new & Hnew & Hin).
      exists (new ++ repeat url k). split.
      * destruct (mapM _ urls s1) as [[vs| |] s2]; cbn [snd ret] in *;
          rewrite Hnew, Hk, app_assoc; reflexivity.
      * intros u [Hu|Hu]%elem_of_app; [right; apply Hin, Hu|].
        apply list_elem_of_In, repeat_spec in Hu. subst. left.
    + exists (repeat url k). split; [exact Hk|].
      intros u Hu. apply list_elem_of_In, repeat_spec in Hu. subst. left.
    + exists (repeat url k). split; [exact Hk|].
      intros u Hu. apply list_elem_of_In, repeat_spec in Hu. subst. left.
Qed.

Lemma http_fetch_all_requests urls nc s :
  exists new,
    requests (HttpFetcher.fetch_all urls nc s).2 = new ++ requests s
    /\ forall u, u ∈ new -> u ∈ urls.
Proof.
  destruct (mapM_fetch_requests nc urls s) as (new & Hnew & Hin).
  exists new. split; [|exact Hin].
  unfold HttpFetcher.fetch_all. rewrite bind_unfold.
  destruct (mapM _ urls s) as [[vs| |] s1]; exact Hnew.
Qed.

Lemma hit_is_served (urls : list string) (s : state) (hits api : dict json)
    (missed : list string) u text :
  (forall u, dict_get hits u =
     if decide (u ∈ urls /\ is_Some (cache_results_of s urls !! _normalize_url u))
     then decoded <$> cache_results_of s urls !! _normalize_url u
     else dict_get [] u) ->
  (forall u, u ∈ missed -> u ∈ urls /\ stored s (_normalize_url u) = None) ->
  (forall u, is_Some (dict_get api u) <-> u ∈ missed) ->
  u ∈ urls -> stored s (_normalize_url u) = Some text ->
  dict_get (dict_update hits api) u = Some (decoded text).
Proof.
  intros Hget Hmissed Hapi Hu Hst. rewrite dict_get_update_absent.
  - rewrite Hget, decide_True.
    + rewrite (cache_results_stored s urls u Hu), Hst. reflexivity.
    + split; [exact Hu|]. rewrite (cache_results_stored s urls u Hu), Hst.
      eexists; reflexivity.
  - destruct (dict_get api u) eqn:Hau; [|reflexivity].
    assert (Hmem : u ∈ missed) by (apply Hapi; eexists; exact Hau).
    apply Hmissed in Hmem as [_ Hnone]. congruence.
Qed.

(** X16: a cache-enabled [fetch_all] sends requests for the URLs
    without a row only: every request it sends, however it ends, is for
    a URL of the list whose key the table does not hold. When it
    returns, every URL of the list with a row is mapped to what the row
    decodes to ([None] for a text that does not decode), without a
    request. *)
Theorem batch_requests_only_the_misses (urls : list string) (nc : bool) (s : state) :
  (exists new,
     requests (CachedDataFetcher.fetch_all urls nc false s).2 = new ++ requests s
     /\ forall u, u ∈ new -> u ∈ urls /\ stored s (_normalize_url u) = None)
  /\ forall d, (CachedDataFetcher.fetch_all urls nc false s).1 = Ok (PyDict d) ->
       forall u text, u ∈ urls -> stored s (_normalize_url u) = Some text ->
         dict_get d u = Some (decoded text).
Proof.
  unfold CachedDataFetcher.fetch_all. cbn [negb].
  rewrite bind_unfold, bind_unfold, retrieve_all_unfold.
  destruct (classify_spec (cache_results_of s urls) urls [] [] s) as (hits & Heq & Hget).
  rewrite Heq. cbn [ret app]. rewrite bind_unfold.
  set (missed := List.filter _ urls).
  set (s0 := set_log _ s).
  assert (Hmissed : forall u, u ∈ missed -> u ∈ urls /\ stored s (_normalize_url u) = None).
  { intros u Hu. apply list_elem_of_In, filter_In in Hu as [Hu Hnone].
    apply list_elem_of_In in Hu. split; [exact Hu|].
    apply bool_decide_eq_true in Hnone. rewrite <- (cache_results_stored s urls u Hu).
    exact Hnone. }
  destruct (http_fetch_all_requests missed nc s0) as (new & Hnew & Hin).
  change (requests s0) with (requests s) in Hnew.
  destruct (HttpFetcher.fetch_all missed nc s0) as [[api| |] s1] eqn:Hapi; cbn [snd] in Hnew.
  - rewrite bind_unfold. cbn [CachedDataFetcher.py_update ret].
    rewrite bind_unfold. cbn [CachedDataFetcher.py_create_or_update_all].
    assert (Hw : exists s2,
      create_or_update_all (dict_update hits api) s1 = (Ok tt, s2)
      /\ requests s2 = requests s1).
    { destruct (_conn s1) as [db|] eqn:Hc1.
      - destruct (create_or_update_all_writes (dict_update hits api) s1 db Hc1)
          as (s2 & Hw & _ & _ & Hreq & _). eauto.
      - exists s1. split; [|reflexivity].
        unfold create_or_update_all. rewrite bind_unfold. cbn [get_state].
        rewrite Hc1. reflexivity. }
    destruct Hw as (s2 & Hw & Hreq). rewrite Hw. cbn [fst snd ret]. split.
    + exists new. split; [congruence|]. intros u Hu. apply Hmissed, Hin, Hu.
    + intros d [= <-] u text Hu Hst.
      eapply hit_is_served; try eassumption.
      intros u'. apply (http_fetch_all_keys _ _ _ _ _ Hapi u').
  - cbn [fst snd]. split; [|discriminate].
    exists new. split; [exact Hnew|]. intros u Hu. apply Hmissed, Hin, Hu.
  - cbn [fst snd]. split; [|discriminate].
    exists new. split; [exact Hnew|]. intros u Hu. apply Hmissed, Hin, Hu.
Qed.

(** X17: the second fetch is served from the cache. After a
    cache-enabled fetch has returned a payload that is true in a
    condition and that [json.loads] reads back from its [json.dumps]
    text, a cache-enabled fetch of the same URL, or of any URL with the
    same normalised key, returns the same payload without a request. *)
Theorem fetched_payload_is_served_from_cache (url url' : string) (nc nc' : bool)
    (s s1 : state) (db : gmap string row) (v : json) :
  _conn s = Some db ->
  CachedDataFetcher.fetch url nc false s = (Ok v, s1) ->
  truthy v = true ->
  loads (dumps v) = Some v ->
  _normalize_url url' = _normalize_url url ->
  exists s2,
    CachedDataFetcher.fetch url' nc' false s1 = (Ok v, s2)
    /\ requests s2 = requests s1.
Proof.
  intros Hc Hrun Ht Hl Hk.
  pose proof (fetch_writes_back url nc s db v s1 Hc Hrun) as Hc1.
  rewrite (truthy_not_None v Ht) in Hc1.
  destruct (truthy_hit_skips_transport url' nc' s1 _ (dumps v) v Hc1) as (s2 & Hrun2 & Hreq & _).
  - unfold stored. rewrite Hc1, Hk, lookup_insert_eq. reflexivity.
  - exact Hl.
  - exact Ht.
  - exists s2. split; assumption.
Qed.

Lemma release_all n : forall s,
  repeatM n release_throttle s = (Ok tt, set_sem_throttle (n + _sem_throttle s) s).
Proof.
  induction n as [|n IH]; intros s.
  - cbn. destruct s; reflexivity.
  - cbn [repeatM]. rewrite bind_unfold. unfold release_throttle at 1, modify.
    rewrite IH. cbn [_sem_throttle set_sem_throttle]. rewrite Nat.add_succ_r. reflexivity.
Qed.

Lemma acquire_all n : forall s,
  n <= _sem_throttle s + timers s ->
  exists s',
    repeatM n HttpFetcher.acquire_throttle s = (Ok tt, s')
    /\ _sem_throttle s' + timers s' = _sem_throttle s + timers s - n
    /\ set_sem_throttle 0 (set_timers 0 s') = set_sem_throttle 0 (set_timers 0 s).
Proof.
  induction n as [|n IH]; intros s Hn.
  - exists s. split; [reflexivity|]. split; [lia|reflexivity].
  - cbn [repeatM]. rewrite bind_unfold, acquire_free by lia.
    destruct (IH (take_slot s)) as (s' & Hrun & Hsl & Hrest).
    + rewrite slots_take_slot by lia. lia.
    + exists s'. split; [exact Hrun|]. split.
      * rewrite Hsl, slots_take_slot by lia. lia.
      * rewrite Hrest. unfold take_slot. destruct (_sem_throttle s); reflexivity.
Qed.

Lemma acquire_too_many n : forall s,
  _sem_throttle s + timers s < n ->
  (repeatM n HttpFetcher.acquire_throttle s).1 = Blocked.
Proof.
  induction n as [|n IH]; intros s Hn; [lia|].
  cbn [repeatM]. rewrite bind_unfold.
  destruct (Nat.eq_dec (_sem_throttle s + timers s) 0) as [Hz|Hnz].
  - unfold HttpFetcher.acquire_throttle.
    destruct (_sem_throttle s); [|lia]. destruct (timers s); [reflexivity|lia].
  - rewrite acquire_free by lia. apply IH. rewrite slots_take_slot by lia. lia.
Qed.

(** X18: [set_rate] moves the throttle by the difference between the
    new ceiling and the old one. When the slots free or scheduled cover
    a decrease, it returns the new ceiling, the number of slots free or
    scheduled has moved by exactly that difference, and nothing else has
    changed; when they do not, it waits for a slot without end. *)
Theorem set_rate_moves_the_slots (_max_nb_requests max_nb_requests : Z) (s : state) :
  let delta := (max_nb_requests - _max_nb_requests)%Z in
  if (0 <=? Z.of_nat (_sem_throttle s + timers s) + delta)%Z then
    exists s',
      HttpFetcher_set_rate _max_nb_requests max_nb_requests s = (Ok max_nb_requests, s')
      /\ Z.of_nat (_sem_throttle s' + timers s')
         = (Z.of_nat (_sem_throttle s + timers s) + delta)%Z
      /\ set_sem_throttle 0 (set_timers 0 s') = set_sem_throttle 0 (set_timers 0 s)
  else (HttpFetcher_set_rate _max_nb_requests max_nb_requests s).1 = Blocked.
Proof.
  intros delta. unfold HttpFetcher_set_rate. fold delta. clearbody delta.
  rewrite bind_unfold.
  destruct (Z.leb_spec 0 (Z.of_nat (_sem_throttle s + timers s) + delta)) as [Hfits|Hfits].
  - destruct (Z.ltb_spec 0 delta) as [Hpos|Hpos].
    + rewrite release_all. eexists. split; [reflexivity|].
      cbn [_sem_throttle timers set_sem_throttle]. split; [lia|reflexivity].
    + destruct (Z.ltb_spec delta 0) as [Hneg|Hneg].
      * destruct (acquire_all (Z.to_nat (- delta)) s) as (s' & Hrun & Hsl & Hrest); [lia|].
        rewrite Hrun. exists s'. split; [reflexivity|]. split; [lia|exact Hrest].
      * exists s. split; [reflexivity|]. split; [lia|reflexivity].
  - destruct (Z.ltb_spec 0 delta) as [Hpos|Hpos]; [lia|].
    destruct (Z.ltb_spec delta 0) as [Hneg|Hneg]; [|lia].
    pose proof (acquire_too_many (Z.to_nat (- delta)) s ltac:(lia)) as Hb.
    destruct (repeatM _ _ s) as [[[]| |] s1]; cbn [fst] in *; congruence.
Qed.


(** X19: a rate of 0 is accepted and stops the transport. With every
    slot of the ceiling free or scheduled, [set_rate(0)] returns, and
    every fetch that follows waits for a slot without end, before any
    request is sent. *)
Theorem rate_zero_blocks_every_fetch (_max_nb_requests : Z) (s : state)
    (url : string) (nc : bool) :
  Z.of_nat (_sem_throttle s + timers s) = _max_nb_requests ->
  exists s',
    HttpFetcher_set_rate _max_nb_requests 0 s = (Ok 0%Z, s')
    /\ HttpFetcher.fetch url nc s' = (Blocked, s').
Proof.
  intros Hall. unfold HttpFetcher_set_rate. rewrite bind_unfold.
  assert (Hblocked : forall s', _sem_throttle s' + timers s' = 0 ->
            HttpFetcher.fetch url nc s' = (Blocked, s')).
  { intros s' Hz. unfold HttpFetcher.fetch, try_except, HttpFetcher._fetch_retry.
    change (MAX_HTTP_RETRIES - 1) with 2. cbn [HttpFetcher.on_exception].
    rewrite attempt_blocked by exact Hz. reflexivity. }
  destruct (Z.ltb_spec 0 (0 - _max_nb_requests)) as [Hpos|Hpos]; [lia|].
  destruct (Z.ltb_spec (0 - _max_nb_requests) 0) as [Hneg|Hneg].
  - destruct (acquire_all (Z.to_nat (- (0 - _max_nb_requests))) s)
      as (s' & Hrun & Hsl & _); [lia|].
    rewrite Hrun. exists s'. split; [reflexivity|]. apply Hblocked. lia.
  - exists s. split; [reflexivity|]. apply Hblocked. lia.
Qed.

End batches.

(** ** Write-back of the results *)

Lemma dict_set_elem {V} (d : dict V) k x u v :
  (u, v) ∈ dict_set d k x -> (u, v) ∈ d \/ (u, v) = (k, x).
Proof.
  induction d as [|[k0 v0] d IH]; cbn [dict_set].
  - intros Hin. apply list_elem_of_singleton in Hin. right. exact Hin.
  - destruct (String.eqb_spec k0 k) as [->|Hne].
    + intros [Heq|Hin]%elem_of_cons; [right; exact Heq | left; right; exact Hin].
    + intros [Heq|Hin]%elem_of_cons; [left; rewrite Heq; left|].
      destruct (IH Hin) as [Hd|Hk]; [left; right; exact Hd | right; exact Hk].
Qed.

Lemma dict_update_elem {V} (other : dict V) : forall (d : dict V) u v,
  (u, v) ∈ dict_update d other -> (u, v) ∈ d \/ (u, v) ∈ other.
Proof.
  induction other as [|[k x] other IH]; intros d u v Hin; [left; exact Hin|].
  change (dict_update d ((k, x) :: other)) with (dict_update (dict_set d k x) other) in Hin.
  destruct (IH _ _ _ Hin) as [Hd|Ho]; [|right; right; exact Ho].
  destruct (dict_set_elem _ _ _ _ _ Hd) as [Hd'|Heq]; [left; exact Hd'|].
  right. rewrite Heq. left.
Qed.

Lemma dict_get_elem {V} (d : dict V) u v : dict_get d u = Some v -> (u, v) ∈ d.
Proof.
  induction d as [|[k0 v0] d IH]; cbn [dict_get]; [discriminate|].
  destruct (String.eqb_spec k0 u) as [->|Hne].
  - intros [= ->]. left.
  - intros Hg. right. apply IH, Hg.
Qed.

Lemma elem_dict_get {V} (d : dict V) u v : (u, v) ∈ d -> is_Some (dict_get d u).
Proof.
  induction d as [|[k0 v0] d IH]; [intros Hin; inversion Hin|].
  cbn [dict_get]. destruct (String.eqb_spec k0 u) as [->|Hne]; [eexists; reflexivity|].
  intros [Heq|Hin]%elem_of_cons; [congruence | apply IH, Hin].
Qed.

Lemma filter_none {A} (f : A -> bool) (l : list A) :
  (forall x, x ∈ l -> f x = false) -> List.filter f l = [].
Proof.
  induction l as [|a l IH]; intros Hall; [reflexivity|].
  cbn [List.filter]. rewrite (Hall a) by left. apply IH. intros x Hx. apply Hall. right. exact Hx.
Qed.

Section write_back.
Context `{Environment}.

(** Every pair that the second loop of [retrieve_all] adds to [hits]
    is a url of the list with what its row decodes to. *)
Lemma classify_elements cr urls : forall hits missed s hits' missed' s',
  classify cr urls hits missed s = (Ok (hits', missed'), s') ->
  forall u v, (u, v) ∈ hits' ->
    (u, v) ∈ hits
    \/ (u ∈ urls /\ exists text, cr !! _normalize_url u = Some text /\ v = decoded text).
Proof.
  induction urls as [|url urls IH]; intros hits missed s hits' missed' s' Hrun u v Hin.
  - cbn in Hrun. injection Hrun as <- _ _. left. exact Hin.
  - cbn [classify] in Hrun.
    destruct (cr !! _normalize_url url) as [text|] eqn:Hcr.
    + assert (Hstep : forall s1,
                classify cr urls (dict_set hits url (decoded text)) missed s1
                = (Ok (hits', missed'), s') ->
                (u, v) ∈ hits
                \/ (u ∈ url :: urls
                    /\ exists text, cr !! _normalize_url u = Some text /\ v = decoded text)).
      { intros s1 Hrun1.
        destruct (IH _ _ _ _ _ _ Hrun1 u v Hin) as [Hd|[Hu Hrow]].
        - destruct (dict_set_elem _ _ _ _ _ Hd) as [Hold|Heq]; [left; exact Hold|].
          injection Heq as -> ->. right. split; [left|]. exists text. split; [exact Hcr|reflexivity].
        - right. split; [right; exact Hu | exact Hrow]. }
      unfold decoded in Hstep. destruct (loads text) as [v0|].
      * eapply Hstep, Hrun.
      * rewrite bind_unfold in Hrun. eapply Hstep, Hrun.
    + destruct (IH _ _ _ _ _ _ Hrun u v Hin) as [Hd|[Hu Hrow]]; [left; exact Hd|].
      right. split; [right; exact Hu | exact Hrow].
Qed.

(** What a cache-enabled [fetch_all] that returns is made of. *)
Lemma fetch_all_inv urls nc s results s' :
  CachedDataFetcher.fetch_all urls nc false s = (Ok results, s') ->
  exists hits missed s0 api s1,
    classify (cache_results_of s urls) urls [] [] s = (Ok (hits, missed), s0)
    /\ (forall u, dict_get hits u =
          if decide (u ∈ urls /\ is_Some (cache_results_of s urls !! _normalize_url u))
          then decoded <$> cache_results_of s urls !! _normalize_url u
          else dict_get [] u)
    /\ (forall u, u ∈ missed -> u ∈ urls /\ stored s (_normalize_url u) = None)
    /\ requests s0 = requests s /\ _conn s0 = _conn s /\ clock s0 = clock s
    /\ HttpFetcher.fetch_all missed nc s0 = (Ok api, s1)
    /\ results = PyDict (dict_update hits api)
    /\ create_or_update_all (dict_update hits api) s1 = (Ok tt, s').
Proof.
  intros Hrun. unfold CachedDataFetcher.fetch_all in Hrun. cbn [negb] in Hrun.
  rewrite bind_unfold, bind_unfold, retrieve_all_unfold in Hrun.
  destruct (classify_spec (cache_results_of s urls) urls [] [] s) as (hits & Heq & Hget).
  rewrite Heq in Hrun. cbn [ret app] in Hrun. rewrite bind_unfold in Hrun.
  destruct (HttpFetcher.fetch_all _ nc _) as [[api| |] s1] eqn:Hapi; try discriminate.
  rewrite bind_unfold in Hrun. cbn [CachedDataFetcher.py_update ret] in Hrun.
  rewrite bind_unfold in Hrun. cbn [CachedDataFetcher.py_create_or_update_all] in Hrun.
  destruct (create_or_update_all_returns (dict_update hits api) s1) as (s2 & Hw).
  rewrite Hw in Hrun. injection Hrun as <- <-.
  eexists hits, _, _, api, s1. split; [exact Heq|]. split; [exact Hget|].
  split.
  { intros u Hu. apply list_elem_of_In, filter_In in Hu as [Hu Hnone].
    apply list_elem_of_In in Hu. split; [exact Hu|].
    apply bool_decide_eq_true in Hnone. rewrite <- (cache_results_stored s urls u Hu).
    exact Hnone. }
  repeat split; assumption.
Qed.

Lemma batch_hit_is_rewritten (urls : list string) (nc : bool) (s s' : state)
    (db : gmap string row) results u text v :
  _conn s = Some db ->
  CachedDataFetcher.fetch_all urls nc false s = (Ok results, s') ->
  u ∈ urls ->
  stored s (_normalize_url u) = Some text ->
  loads text = Some v ->
  is_None v = false ->
  exists d new db',
    results = PyDict d
    /\ dict_get d u = Some v
    /\ requests s' = new ++ requests s
    /\ (u ∉ new)
    /\ _conn s' = Some db'
    /\ db' !! _normalize_url u = Some (mkRow (dumps v) (clock s)).
Proof.
  intros Hc Hrun Hu Hst Hl Hv.
  destruct (fetch_all_inv urls nc s results s' Hrun)
    as (hits & missed & s0 & api & s1 & Hcl & Hget & Hmissed & Hreq0 & Hc0 & Hk0
        & Hapi & -> & Hw).
  assert (Hdec : decoded text = v) by (unfold decoded; rewrite Hl; reflexivity).
  assert (Hkeys : forall u', is_Some (dict_get api u') <-> u' ∈ missed).
  { intros u'. apply (http_fetch_all_keys _ _ _ _ _ Hapi u'). }
  assert (Hserved : dict_get (dict_update hits api) u = Some v).
  { rewrite <- Hdec. eapply hit_is_served; eassumption. }
  destruct (http_fetch_all_requests missed nc s0) as (new & Hnew & Hin).
  rewrite Hapi in Hnew. cbn [snd] in Hnew.
  destruct (keeps_fetch_all missed nc s0) as (Hc1 & _ & Hk1).
  rewrite Hapi in Hc1, Hk1. cbn [snd] in Hc1, Hk1.
  destruct (create_or_update_all_writes (dict_update hits api) s1 db)
    as (s2 & Hw2 & Hc2 & _ & Hreq2 & _); [congruence|].
  rewrite Hw in Hw2. injection Hw2 as <-.
  eexists _, new, _. split; [reflexivity|]. split; [exact Hserved|].
  split; [congruence|]. split.
  { intros Hnewu. apply Hin, Hmissed in Hnewu as [_ Hnone]. congruence. }
  split; [exact Hc2|].
  destruct (written_key (clock s1) (values_of_results (dict_update hits api)) db
              (_normalize_url u)) as (text' & Htext & Hrow).
  { eapply values_of_results_key; [apply dict_get_elem, Hserved | exact Hv]. }
  rewrite Hrow. f_equal.
  apply values_of_results_inv in Htext as (u' & v' & Hin' & _ & Hkey & ->).
  assert (Hv' : v' = v).
  { destruct (dict_update_elem _ _ _ _ Hin') as [Hh|Ha].
    - destruct (classify_elements _ _ _ _ _ _ _ _ Hcl u' v' Hh) as [Hnil|(Hu' & t & Hcr & ->)];
        [inversion Hnil|].
      rewrite (cache_results_stored s urls u' Hu'), <- Hkey, Hst in Hcr.
      injection Hcr as <-. exact Hdec.
    - apply elem_dict_get, Hkeys, Hmissed in Ha as [_ Hnone].
      rewrite <- Hkey in Hnone. congruence. }
  rewrite Hv'. f_equal. congruence.
Qed.

Lemma batch_of_hits_returns (urls : list string) (nc : bool) (s : state) :
  (forall u, u ∈ urls -> is_Some (stored s (_normalize_url u))) ->
  exists d s',
    CachedDataFetcher.fetch_all urls nc false s = (Ok (PyDict d), s')
    /\ requests s' = requests s.
Proof.
  intros Hall. unfold CachedDataFetcher.fetch_all. cbn [negb].
  rewrite bind_unfold, bind_unfold, retrieve_all_unfold.
  destruct (classify_spec (cache_results_of s urls) urls [] [] s) as (hits & Heq & _).
  rewrite Heq. cbn [ret app]. rewrite bind_unfold.
  assert (Hnone : List.filter
            (fun u => bool_decide (cache_results_of s urls !! _normalize_url u = None)) urls
            = []).
  { apply filter_none. intros u Hu.
    apply bool_decide_eq_false. rewrite (cache_results_stored s urls u Hu).
    destruct (Hall u Hu) as (text & ->). discriminate. }
  rewrite Hnone. unfold HttpFetcher.fetch_all. rewrite bind_unfold. cbn [mapM ret combine fold_left].
  rewrite bind_unfold. cbn [CachedDataFetcher.py_update ret dict_update fold_left].
  rewrite bind_unfold. cbn [CachedDataFetcher.py_create_or_update_all].
  set (s0 := set_log _ s).
  destruct (_conn s0) as [db|] eqn:Hc0.
  - destruct (create_or_update_all_writes hits s0 db Hc0) as (s2 & Hw & _ & _ & Hreq & _).
    rewrite Hw. cbn [ret]. eexists _, _. split; [reflexivity|]. exact Hreq.
  - unfold create_or_update_all. rewrite bind_unfold. cbn [get_state]. rewrite Hc0.
    cbn [ret]. eexists _, _. split; reflexivity.
Qed.

(** C10. With the cache open and not bypassed, [fetch] writes back the
    result it returns unless it is [None], a cache hit included: the row
    of a hit is rewritten with [last_accessed] set to the current time,
    without a request; [fetch_all] writes a row stamped with the current
    time for every result other than [None] and leaves every other key
    as it was; a row so rewritten survives every sweep run less than
    [max_age] days later. In a batch too a hit is rewritten: a listed
    URL whose row decodes to a payload other than [None] is returned
    with that payload, no request is sent for it, and its row then holds
    the payload stamped with the current time; and a batch made of hits
    only returns, without any request. *)
Theorem results_are_written_back
    (url : string) (urls : list string) (nc : bool) (s : state)
    (db : gmap string row) :
  _conn s = Some db ->
  (forall v s',
     CachedDataFetcher.fetch url nc false s = (Ok v, s') ->
     _conn s' = Some (if is_None v then db
                      else <[_normalize_url url := mkRow (dumps v) (clock s)]> db))
  /\ (forall text v,
        stored s (_normalize_url url) = Some text ->
        loads text = Some v -> truthy v = true ->
        exists s',
          CachedDataFetcher.fetch url nc false s = (Ok v, s')
          /\ requests s' = requests s
          /\ _conn s' = Some (<[_normalize_url url := mkRow (dumps v) (clock s)]> db))
  /\ (forall results s',
        CachedDataFetcher.fetch_all urls nc false s = (Ok results, s') ->
        exists d db',
          results = PyDict d /\ _conn s' = Some db'
          /\ (forall u v, (u, v) ∈ d -> is_None v = false ->
                exists r, db' !! _normalize_url u = Some r
                          /\ last_accessed r = clock s)
          /\ (forall k,
                (forall u v, (u, v) ∈ d -> is_None v = false -> _normalize_url u <> k) ->
                db' !! k = db !! k))
  /\ (forall v s' later max_age,
        CachedDataFetcher.fetch url nc false s = (Ok v, s') ->
        is_None v = false ->
        (0 <= max_age)%Z ->
        (later < clock s + 86400 * max_age)%Z ->
        exists s'',
          flush max_age (set_clock later s') = (Ok tt, s'')
          /\ stored s'' (_normalize_url url) = Some (dumps v))
  /\ (forall results s' u text v,
        CachedDataFetcher.fetch_all urls nc false s = (Ok results, s') ->
        u ∈ urls ->
        stored s (_normalize_url u) = Some text ->
        loads text = Some v ->
        is_None v = false ->
        exists d new db',
          results = PyDict d
          /\ dict_get d u = Some v
          /\ requests s' = new ++ requests s
          /\ (u ∉ new)
          /\ _conn s' = Some db'
          /\ db' !! _normalize_url u = Some (mkRow (dumps v) (clock s)))
  /\ ((forall u, u ∈ urls -> is_Some (stored s (_normalize_url u))) ->
      exists d s',
        CachedDataFetcher.fetch_all urls nc false s = (Ok (PyDict d), s')
        /\ requests s' = requests s).
Proof.
  intros Hc. split; [|split; [|split; [|split; [|split]]]].
  - intros v s' Hrun. eapply fetch_writes_back; eassumption.
  - intros text v Hst Hl Ht. eapply truthy_hit_skips_transport; eassumption.
  - intros results s' Hrun.
    destruct (fetch_all_writes_back urls nc s db results s' Hc Hrun) as (d & -> & Hc').
    eexists d, _. split; [reflexivity|]. split; [exact Hc'|]. split.
    + intros u v Hin Hv.
      destruct (written_key (clock s) (values_of_results d) db (_normalize_url u))
        as (text & _ & Hl); [eapply values_of_results_key; eassumption|].
      eexists. split; [exact Hl | reflexivity].
    + intros k Hk. apply written_other. intros Hin.
      apply list_elem_of_In, in_map_iff in Hin. destruct Hin as ([k' text] & Heq & Hin).
      cbn in Heq. subst k'.
      apply list_elem_of_In, values_of_results_inv in Hin.
      destruct Hin as (u & v & Hin & Hv & -> & _). exact (Hk u v Hin Hv eq_refl).
  - intros v s' later max_age Hrun Hv Hage Hlater.
    pose proof (fetch_writes_back url nc s db v s' Hc Hrun) as Hc'. rewrite Hv in Hc'.
    destruct (flush_row max_age (set_clock later s')
                (<[_normalize_url url := mkRow (dumps v) (clock s)]> db))
      as (s'' & db'' & Hf & Hc'' & Hrow); [exact Hc' | exact Hage |].
    exists s''. split; [exact Hf|].
    unfold stored. rewrite Hc'', Hrow, lookup_insert_eq. cbn [last_accessed clock set_clock].
    rewrite decide_True by lia. reflexivity.
  - intros results s' u text v Hrun Hu Hst Hl Hv.
    eapply batch_hit_is_rewritten; eassumption.
  - apply batch_of_hits_returns.
Qed.

End write_back.

Lemma results_are_written_back_witness :
  exists d new db',
    PyDict [(Example.url, Example.visits)] = PyDict d
    /\ dict_get d Example.url = Some Example.visits
    /\ requests (@CachedDataFetcher.fetch_all Example.offline [Example.url] false false
                   Example.warm).2
       = new ++ requests Example.warm
    /\ (Example.url ∉ new)
    /\ _conn (@CachedDataFetcher.fetch_all Example.offline [Example.url] false false
                Example.warm).2
       = Some db'
    /\ db' !! _normalize_url Example.url
       = Some (mkRow (@dumps Example.offline Example.visits) (clock Example.warm)).
Proof.
  destruct (@results_are_written_back Example.offline Example.url [Example.url] false
              Example.warm (Example.table (Example.dumps_json Example.visits)) eq_refl)
    as (_ & _ & _ & _ & Hbatch & _).
  apply (Hbatch _ _ Example.url (Example.dumps_json Example.visits) Example.visits).
  - vm_compute. reflexivity.
  - left.
  - vm_compute. reflexivity.
  - vm_compute. reflexivity.
  - reflexivity.
Defined.

(** A hit of [fetch] too, on the same table: the payload comes back
    with no request and the row is stamped with the time of the call. *)
Example single_hit_is_rewritten :
  exists s',
    @CachedDataFetcher.fetch Example.offline Example.url false false Example.warm
    = (Ok Example.visits, s')
    /\ requests s' = requests Example.warm
    /\ _conn s' =
         Some (<[_normalize_url Example.url :=
                   mkRow (@dumps Example.offline Example.visits) (clock Example.warm)]>
                 (Example.table (Example.dumps_json Example.visits))).
Proof. eexists. split; [vm_compute; reflexivity|]. split; reflexivity. Qed.



Lemma fetched_payload_is_served_from_cache_witness :
  exists s2,
    @CachedDataFetcher.fetch Example.online
      "https://api.example.com/v1/website/acme.com/visits?api_key=OTHER" true false
      (@CachedDataFetcher.fetch Example.online Example.url false false Example.empty_cache).2
    = (Ok Example.visits, s2)
    /\ requests s2
       = requests
           (@CachedDataFetcher.fetch Example.online Example.url false false
              Example.empty_cache).2.
Proof.
  apply (@fetched_payload_is_served_from_cache Example.online Example.url
           "https://api.example.com/v1/website/acme.com/visits?api_key=OTHER"
           false true Example.empty_cache _ ∅ Example.visits).
  - reflexivity.
  - vm_compute. reflexivity.
  - reflexivity.
  - vm_compute. reflexivity.
  - vm_compute. reflexivity.
Defined.

Lemma rate_zero_blocks_every_fetch_witness :
  exists s',
    HttpFetcher_set_rate 9 0 Example.empty_cache = (Ok 0%Z, s')
    /\ @HttpFetcher.fetch Example.online Example.url false s' = (Blocked, s').
Proof.
  apply (@rate_zero_blocks_every_fetch Example.online 9 Example.empty_cache Example.url false).
  reflexivity.
Defined.

(** ** HttpFetcher: accepted responses *)

Section answers.
Context `{Environment}.

(** X20: a response of accepted status (below 400, or 404) whose
    content type is not [application/json] gives [None] after this one
    request, with the response text logged as an error; a cache-enabled
    fetch that misses the cache returns [None] too and stores nothing. *)
Theorem non_json_answer_is_absence (url : string) (nc : bool) (s : state)
    (db : gmap string row) (status : Z) (content_type body : string) :
  0 < _sem_throttle s + timers s ->
  server (requests s) url = Response status content_type body ->
  accepted_status status = true ->
  String.eqb content_type "application/json" = false ->
  _conn s = Some db ->
  db !! _normalize_url url = None ->
  HttpFetcher.fetch url nc s
  = (Ok JNull, set_log (ERROR_non_json body status :: log s) (answered url s))
  /\ exists s',
       CachedDataFetcher.fetch url nc false s = (Ok JNull, s')
       /\ _conn s' = Some db
       /\ requests s' = url :: requests s
       /\ sleeps s' = sleeps s.
Proof.
  intros Hslot Hsrv Hacc Hct Hc Hmiss.
  assert (Hfetch : HttpFetcher.fetch url nc s
            = (Ok JNull, set_log (ERROR_non_json body status :: log s) (answered url s))).
  { apply fetch_of_first_attempt. eapply attempt_non_json; eassumption. }
  split; [exact Hfetch|].
  rewrite miss_goes_to_transport by (unfold stored; rewrite Hc, Hmiss; reflexivity).
  rewrite bind_unfold, Hfetch, bind_unfold. cbn [is_None negb ret].
  eexists. split; [reflexivity|]. split; [|split].
  - change (_conn (take_slot s) = Some db). rewrite conn_take_slot. exact Hc.
  - reflexivity.
  - change (sleeps (take_slot s) = sleeps s). apply sleeps_take_slot.
Qed.

(** X21: how a response of accepted status with a JSON content type
    ends the fetch, after one request and no wait: a blank body gives
    [None], a body that decodes gives its payload, and a body that does
    not decode makes [fetch] raise [ValueError], which none of its
    handlers catches. *)
Theorem accepted_json_outcomes (url : string) (nc : bool) (s : state)
    (status : Z) (body : string) :
  0 < _sem_throttle s + timers s ->
  server (requests s) url = Response status "application/json" body ->
  accepted_status status = true ->
  HttpFetcher.fetch url nc s
  = (if all_chars HttpFetcher.is_space body then Ok JNull
     else match loads body with
          | Some v => Ok v
          | None => Raise ValueError
          end,
     answered url s).
Proof.
  intros Hslot Hsrv Hacc.
  unfold HttpFetcher.fetch, try_except, HttpFetcher._fetch_retry.
  change (MAX_HTTP_RETRIES - 1) with 2. cbn [HttpFetcher.on_exception].
  rewrite (attempt_response url s _ _ _ Hslot Hsrv).
  unfold accepted_status in Hacc.
  assert (H429 : (status =? 429)%Z = false) by lia.
  assert (H5 : ((500 <=? status) && (status <? 600))%Z = false) by lia.
  assert (H400 : (status =? 400)%Z = false) by lia.
  assert (H4 : ((400 <=? status) && negb (status =? 404))%Z = false) by lia.
  rewrite H429, H5, H400, H4. cbn [orb andb].
  change (String.eqb "application/json" "application/json") with true. cbv iota.
  unfold HttpFetcher.response_json.
  destruct (all_chars HttpFetcher.is_space body); [reflexivity|].
  destruct (loads body); reflexivity.
Qed.

End answers.

Lemma non_json_answer_is_absence_witness :
  @HttpFetcher.fetch (Example.env (Example.answers 200 "text/html" "<html>Login</html>"))
    Example.url false Example.empty_cache
  = (Ok JNull,
     set_log (ERROR_non_json "<html>Login</html>" 200 :: log Example.empty_cache)
       (answered Example.url Example.empty_cache))
  /\ exists s',
       @CachedDataFetcher.fetch
         (Example.env (Example.answers 200 "text/html" "<html>Login</html>"))
         Example.url false false Example.empty_cache = (Ok JNull, s')
       /\ _conn s' = Some ∅
       /\ requests s' = Example.url :: requests Example.empty_cache
       /\ sleeps s' = sleeps Example.empty_cache.
Proof.
  apply (@non_json_answer_is_absence
           (Example.env (Example.answers 200 "text/html" "<html>Login</html>"))
           Example.url false Example.empty_cache ∅ 200 "text/html" "<html>Login</html>").
  - simpl. lia.
  - reflexivity.
  - reflexivity.
  - reflexivity.
  - reflexivity.
  - reflexivity.
Defined.

Lemma accepted_json_outcomes_witness :
  @HttpFetcher.fetch (Example.env (Example.answers 200 "application/json" "{oops"))
    Example.url false Example.empty_cache
  = (if all_chars HttpFetcher.is_space "{oops" then Ok JNull
     else match Example.loads_known "{oops" with
          | Some v => Ok v
          | None => Raise ValueError
          end,
     answered Example.url Example.empty_cache).
Proof.
  apply (@accepted_json_outcomes
           (Example.env (Example.answers 200 "application/json" "{oops"))
           Example.url false Example.empty_cache 200 "{oops").
  - simpl. lia.
  - reflexivity.
  - reflexivity.
Defined.

(** * Callers of the fetcher: helpers.py and gui.py *)

(** ** get_available_date_range *)

Section probe.
Context `{Environment}.

Lemma fetch_skip_cache url nc s :
  CachedDataFetcher.fetch url nc true s = HttpFetcher.fetch url nc s.
Proof.
  unfold CachedDataFetcher.fetch. cbn [negb andb]. rewrite bind_unfold.
  cbn [ret truthy negb]. rewrite bind_unfold.
  destruct (HttpFetcher.fetch url nc s) as [[v| |] s1]; reflexivity.
Qed.

(** After the fetch, the probe writes to the log at most. *)
Lemma probe_state s :
  exists l, (get_available_date_range s).2
            = set_log l (HttpFetcher.fetch describe_url false s).2.
Proof.
  unfold get_available_date_range. rewrite bind_unfold, fetch_skip_cache.
  destruct (HttpFetcher.fetch describe_url false s) as [[v| |] s1]; cbn [snd];
    [|exists (log s1); symmetry; apply set_log_same ..].
  assert (Hlo : logs_only
    (if negb (is_None v) then
       let* response := HttpFetcher.py_get v "response" (JObj []) in
       let* traffic := HttpFetcher.py_get response "traffic_and_engagement" (JObj []) in
       let* countries := HttpFetcher.py_get traffic "countries" (JObj []) in
       HttpFetcher.py_get countries "world" (JObj [])
     else ret (JObj []))).
  { destruct (negb (is_None v)); [|apply logs_only_ret].
    repeat (apply logs_only_bind; [apply logs_only_py_get|intros ?]).
    apply logs_only_py_get. }
  destruct (Hlo s1) as (_ & l & Hl). exists l. exact Hl.
Qed.

(** X22: [get_available_date_range] goes past the cache: whatever the
    table holds, it leaves the table, the write counter and the clock as
    they were, and sends at most three requests, all for the [describe]
    URL. It gives [{}] when the fetch gives [None], and when the
    document is an object in which [response], or a later member of the
    path, is missing; it gives the range at
    [response.traffic_and_engagement.countries.world] for every
    document that has this path, whatever else it holds; and it raises
    [AttributeError] when the document is neither [None] nor an
    object. *)
Theorem date_range_probe_bypasses_cache (s : state) :
  (_conn (get_available_date_range s).2 = _conn s
   /\ _actions_pending (get_available_date_range s).2 = _actions_pending s
   /\ clock (get_available_date_range s).2 = clock s)
  /\ (exists k, k <= MAX_HTTP_RETRIES
        /\ requests (get_available_date_range s).2 = repeat describe_url k ++ requests s)
  /\ (forall s1, HttpFetcher.fetch describe_url false s = (Ok JNull, s1) ->
        get_available_date_range s = (Ok (JObj []), s1))
  /\ (forall members response traffic countries world s1,
        HttpFetcher.fetch describe_url false s = (Ok (JObj members), s1) ->
        dict_get members "response" = Some (JObj response) ->
        dict_get response "traffic_and_engagement" = Some (JObj traffic) ->
        dict_get traffic "countries" = Some (JObj countries) ->
        dict_get countries "world" = Some world ->
        get_available_date_range s = (Ok world, s1))
  /\ (forall members response traffic countries s1,
        HttpFetcher.fetch describe_url false s = (Ok (JObj members), s1) ->
        dict_get members "response" = Some (JObj response) ->
        dict_get response "traffic_and_engagement" = None
        \/ (dict_get response "traffic_and_engagement" = Some (JObj traffic)
            /\ (dict_get traffic "countries" = None
                \/ (dict_get traffic "countries" = Some (JObj countries)
                    /\ dict_get countries "world" = None))) ->
        get_available_date_range s = (Ok (JObj []), s1))
  /\ (forall members s1,
        HttpFetcher.fetch describe_url false s = (Ok (JObj members), s1) ->
        dict_get members "response" = None ->
        get_available_date_range s = (Ok (JObj []), s1))
  /\ (forall v s1,
        HttpFetcher.fetch describe_url false s = (Ok v, s1) ->
        match v with JNull | JObj _ => False | _ => True end ->
        get_available_date_range s = (Raise AttributeError, s1)).
Proof.
  destruct (probe_state s) as (l & Hl).
  split; [|split; [|split; [|split; [|split; [|split]]]]].
  - rewrite Hl. cbn [_conn _actions_pending clock set_log].
    destruct (keeps_fetch describe_url false s) as (Hc & Hp & Hk). repeat split; assumption.
  - destruct (retry_shape describe_url (MAX_HTTP_RETRIES - 1) 1 s)
      as (k & j & Hk & _ & _ & Hr & _); [lia|].
    destruct (fetch_state describe_url false s) as (l' & Hl').
    exists k. split; [unfold MAX_HTTP_RETRIES in *; lia|].
    rewrite Hl, Hl'. exact Hr.
  - intros s1 Hrun. unfold get_available_date_range.
    rewrite bind_unfold, fetch_skip_cache, Hrun. reflexivity.
  - intros members response traffic countries world s1 Hrun Hr Ht Hcs Hw.
    unfold get_available_date_range.
    rewrite bind_unfold, fetch_skip_cache, Hrun. cbn [is_None negb].
    rewrite bind_unfold. cbn [HttpFetcher.py_get ret]. rewrite Hr.
    rewrite bind_unfold. cbn [HttpFetcher.py_get ret]. rewrite Ht.
    rewrite bind_unfold. cbn [HttpFetcher.py_get ret]. rewrite Hcs.
    cbn [HttpFetcher.py_get ret]. rewrite Hw. reflexivity.
  - intros members response traffic countries s1 Hrun Hr Hmissing.
    unfold get_available_date_range.
    rewrite bind_unfold, fetch_skip_cache, Hrun. cbn [is_None negb].
    rewrite bind_unfold. cbn [HttpFetcher.py_get ret]. rewrite Hr.
    rewrite bind_unfold. cbn [HttpFetcher.py_get ret].
    destruct Hmissing as [Ht|(Ht & [Hcs|(Hcs & Hw)])]; rewrite Ht.
    + reflexivity.
    + rewrite bind_unfold. cbn [HttpFetcher.py_get ret]. rewrite Hcs. reflexivity.
    + rewrite bind_unfold. cbn [HttpFetcher.py_get ret]. rewrite Hcs.
      cbn [HttpFetcher.py_get ret]. rewrite Hw. reflexivity.
  - intros members s1 Hrun Hnone. unfold get_available_date_range.
    rewrite bind_unfold, fetch_skip_cache, Hrun. cbn [is_None negb].
    rewrite bind_unfold. cbn [HttpFetcher.py_get ret]. rewrite Hnone. reflexivity.
  - intros v s1 Hrun Hv. unfold get_available_date_range.
    rewrite bind_unfold, fetch_skip_cache, Hrun.
    destruct v; try contradiction; reflexivity.
Qed.

End probe.

(** ** mask *)

Section mask_facts.
Context {char : Type} (star : char).

Lemma slice_index_neg (len : nat) (n : Z) :
  (0 < n)%Z -> slice_index len (- n) = len - Z.to_nat n.
Proof.
  intros Hn. unfold slice_index.
  destruct (Z.ltb_spec (- n) 0) as [H|H]; lia.
Qed.

Lemma slice_index_pos (len : nat) (n : Z) :
  (0 <= n)%Z -> slice_index len n = Nat.min len (Z.to_nat n).
Proof.
  intros Hn. unfold slice_index.
  destruct (Z.ltb_spec n 0) as [H|H]; lia.
Qed.

(** X23: [mask] keeps the length of the string for every [show_last].
    For [show_last > 0] the last [show_last] characters stay in clear
    and every character before them becomes a star, so a string no
    longer than [show_last] is not masked at all. For [show_last = 0]
    nothing is masked: the result is the string itself. For a negative
    [show_last] it is the head that is masked, the first [-show_last]
    characters, and the tail stays in clear. *)
Theorem mask_shape (unmasked : list char) (show_last : Z) :
  length (mask star unmasked show_last) = length unmasked
  /\ ((0 < show_last)%Z ->
      mask star unmasked show_last
      = repeat star (length unmasked - Z.to_nat show_last)
        ++ drop (length unmasked - Z.to_nat show_last) unmasked)
  /\ (show_last = 0%Z -> mask star unmasked show_last = unmasked)
  /\ ((show_last < 0)%Z ->
      mask star unmasked show_last
      = repeat star (Nat.min (length unmasked) (Z.to_nat (- show_last)))
        ++ drop (Z.to_nat (- show_last)) unmasked).
Proof.
  unfold mask, slice_to, slice_from. split; [|split; [|split]].
  - rewrite length_app, repeat_length, length_take, length_drop.
    unfold slice_index. lia.
  - intros Hpos. rewrite slice_index_neg by exact Hpos.
    rewrite length_take. f_equal. f_equal. lia.
  - intros ->. cbn [Z.opp]. rewrite slice_index_pos by lia.
    change (Z.to_nat 0) with 0. rewrite Nat.min_0_r. reflexivity.
  - intros Hneg. rewrite slice_index_pos by lia. rewrite length_take.
    f_equal; [f_equal; lia|].
    destruct (Nat.le_ge_cases (length unmasked) (Z.to_nat (- show_last))) as [Hle|Hle].
    + rewrite Nat.min_l by exact Hle. rewrite !drop_ge by lia. reflexivity.
    + rewrite Nat.min_r by exact Hle. reflexivity.
Qed.

End mask_facts.

(** An API key of six characters is logged in clear by
    [mask(api_key)], and [show_last=0] hides nothing. *)
Example short_key_is_not_masked :
  mask "*"%char (list_ascii_of_string "s3cr3t") 6 = list_ascii_of_string "s3cr3t"
  /\ mask "*"%char (list_ascii_of_string "0123456789abcdef") 6
     = list_ascii_of_string "**********abcdef"
  /\ mask "*"%char (list_ascii_of_string "0123456789abcdef") 0
     = list_ascii_of_string "0123456789abcdef".
Proof. repeat split. Qed.

(** ** Dates *)

Lemma append_assoc (a b c : string) : (a +:+ b) +:+ c = a +:+ b +:+ c.
Proof.
  induction a as [|x a IH]; [reflexivity|].
  rewrite !append_cons, IH. reflexivity.
Qed.

Lemma concat_two (a b : string) : String.concat "-" [a; b] = a +:+ "-" +:+ b.
Proof. reflexivity. Qed.

Lemma split_on_absent sep s : has_char sep s = false -> split_on sep s = [s].
Proof.
  induction s as [|a s IH]; [reflexivity|]. simpl.
  intros Hc. apply orb_false_iff in Hc as [Ha Hs]. rewrite Ha, (IH Hs). reflexivity.
Qed.

Lemma split_on_parts sep s :
  Forall (fun part => has_char sep part = false) (split_on sep s).
Proof.
  induction s as [|a s IH]; [repeat constructor|]. simpl.
  destruct (Ascii.eqb a sep) eqn:Ha; [constructor; [reflexivity|exact IH]|].
  destruct (split_on sep s) as [|h t]; [repeat constructor; simpl; rewrite Ha; reflexivity|].
  inversion IH as [|? ? Hh Ht]; subst. constructor; [|exact Ht].
  simpl. rewrite Ha. exact Hh.
Qed.

Lemma split_on_nonempty sep s : split_on sep s <> [].
Proof.
  destruct s as [|a s]; [discriminate|]. simpl.
  destruct (Ascii.eqb a sep); [discriminate|]. destruct (split_on sep s); discriminate.
Qed.

Lemma year_month_of_fields (y m rest : string) :
  has_char "-" y = false -> has_char "-" m = false ->
  date_to_year_month (y +:+ "-" +:+ m +:+ "-" +:+ rest) = y +:+ "-" +:+ m
  /\ date_to_year_month (y +:+ "-" +:+ m) = y +:+ "-" +:+ m
  /\ date_to_year_month y = y.
Proof.
  intros Hy Hm. unfold date_to_year_month. repeat split.
  - change ("-" +:+ m +:+ "-" +:+ rest) with (String "-" (m +:+ String "-" rest)).
    rewrite (split_on_app "-" y _ Hy), (split_on_app "-" m _ Hm).
    reflexivity.
  - change ("-" +:+ m) with (String "-" m).
    rewrite (split_on_app "-" y _ Hy), (split_on_absent "-" m Hm). reflexivity.
  - rewrite (split_on_absent "-" y Hy). reflexivity.
Qed.

(** X24: [date_to_year_month] keeps the first two fields between
    hyphens: it maps [Y-M-rest] to [Y-M] whatever [rest] is, leaves a
    string with no hyphen as it is, and applying it twice is applying it
    once; [first_day_of_month] of [Y-M-rest] is [Y-M-01]. *)
Theorem year_month_is_the_first_two_fields (date : string) :
  date_to_year_month (date_to_year_month date) = date_to_year_month date
  /\ (forall y m rest,
        has_char "-" y = false -> has_char "-" m = false ->
        date = y +:+ "-" +:+ m +:+ "-" +:+ rest ->
        date_to_year_month date = y +:+ "-" +:+ m
        /\ first_day_of_month date = y +:+ "-" +:+ m +:+ "-01")
  /\ (has_char "-" date = false -> date_to_year_month date = date).
Proof.
  split; [|split].
  - pose proof (split_on_parts "-" date) as Hparts.
    pose proof (split_on_nonempty "-" date) as Hne.
    unfold date_to_year_month at 2 3.
    destruct (split_on "-" date) as [|y [|m rest]]; [congruence| |].
    + inversion Hparts as [|? ? Hy _]; subst. cbn [take String.concat].
      apply (year_month_of_fields y "" "" Hy eq_refl).
    + inversion Hparts as [|? ? Hy Hrest]; subst.
      inversion Hrest as [|? ? Hm _]; subst.
      cbn [take]. rewrite concat_two.
      apply (year_month_of_fields y m "" Hy Hm).
  - intros y m rest Hy Hm ->. unfold first_day_of_month.
    destruct (year_month_of_fields y m rest Hy Hm) as (-> & _). split; [reflexivity|].
    rewrite !append_assoc. reflexivity.
  - intros Hd. apply (year_month_of_fields date "" "" Hd eq_refl).
Qed.

(** X25: round trip of the month codec of the form. For each of the
    twelve month names and every year that is not empty and holds no
    hyphen, [encode_month] returns a date (no [KeyError]) that
    [decode_month] maps back to the same month name and year (no
    [ValueError]). *)
Theorem month_codec_round_trip (month year : string) :
  In month (map fst MONTHS_NUMBERS) ->
  nonempty year = true ->
  has_char "-" year = false ->
  exists date,
    encode_month month year = Some date
    /\ decode_month date = Some (month, year).
Proof.
  intros Hmonth Hyear Hdash. unfold encode_month. rewrite Hyear.
  assert (Hdec : forall number,
            has_char "-" number = false ->
            month_name_of MONTHS_NUMBERS number = month ->
            decode_month (year +:+ "-" +:+ number) = Some (month, year)).
  { intros number Hn Hname. unfold decode_month.
    rewrite has_char_app. change ("-" +:+ number) with (String "-" number).
    cbn [has_char]. rewrite Ascii.eqb_refl, orb_true_r.
    rewrite (split_on_app "-" year _ Hdash), (split_on_absent "-" number Hn).
    cbn [take]. rewrite Hname. reflexivity. }
  cbn [map fst MONTHS_NUMBERS] in Hmonth.
  repeat (destruct Hmonth as [<-|Hmonth];
          [eexists; split; [reflexivity|]; apply Hdec; reflexivity|]).
  destruct Hmonth.
Qed.

Lemma month_codec_round_trip_witness :
  exists date,
    encode_month "Mar" "2024" = Some date
    /\ decode_month date = Some ("Mar", "2024").
Proof.
  apply (month_codec_round_trip "Mar" "2024").
  - simpl. tauto.
  - reflexivity.
  - reflexivity.
Defined.

(** A year that holds a hyphen does not come back, and an unknown month
    name is a [KeyError]. *)
Example month_codec_edges :
  encode_month "Mar" "20-24" = Some "20-24-03"
  /\ decode_month "20-24-03" = Some ("", "20")
  /\ encode_month "March" "2024" = None
  /\ encode_month "Mar" "" = Some "".
Proof. repeat split. Qed.

(** ** months_between and months_before *)

Lemma string_ltb_asym a b : String.ltb a b = true -> String.ltb b a = false.
Proof.
  unfold String.ltb. rewrite (String.compare_antisym a b).
  destruct (String.compare b a); simpl; congruence.
Qed.

Lemma string_ltb_total a b : String.ltb a b = false -> String.ltb b a = false -> a = b.
Proof.
  unfold String.ltb. rewrite (String.compare_antisym a b).
  destruct (String.compare b a) eqn:Hc; simpl; try congruence.
  intros _ _. symmetry. apply String.compare_eq_iff, Hc.
Qed.

(** The loop ends within [turns] turns, whatever the numbers are, as
    long as no month is above 12. *)
Lemma months_loop_ends end_year end_month : forall fuel year month result,
  (month <= 12)%Z -> (end_month <= 12)%Z ->
  turns year month end_year <= fuel ->
  months_loop fuel year month end_year end_month result <> Blocked.
Proof.
  unfold turns.
  induction fuel as [|fuel IH]; intros year month result Hm Hem Hfuel.
  - cbn [months_loop].
    destruct (Z.ltb_spec year end_year) as [Hy|Hy]; [lia|].
    destruct (Z.ltb_spec month end_month) as [Hmm|Hmm]; [lia|]. discriminate.
  - cbn [months_loop].
    destruct (Z.ltb_spec year end_year) as [Hy|Hy];
      destruct (Z.ltb_spec month end_month) as [Hmm|Hmm]; cbn [orb];
      try discriminate;
      (destruct (Z.ltb_spec month 12) as [H12|H12]; apply IH; lia).
Qed.

Lemma nth_month_0 year month :
  (1 <= month <= 12)%Z -> nth_month year month 0 = (year, month).
Proof.
  intros Hm. unfold nth_month. rewrite Z.add_0_r.
  rewrite Z.div_small, Z.mod_small by lia. f_equal; lia.
Qed.

Lemma nth_month_next year month i :
  (1 <= month < 12)%Z -> nth_month year month (S i) = nth_month year (month + 1) i.
Proof. intros Hm. unfold nth_month. f_equal; f_equal; f_equal; lia. Qed.

Lemma nth_month_wrap year i :
  nth_month year 12 (S i) = nth_month (year + 1) 1 i.
Proof.
  unfold nth_month.
  replace (12 - 1 + Z.of_nat (S i))%Z with (Z.of_nat i + 1 * 12)%Z by lia.
  replace (1 - 1 + Z.of_nat i)%Z with (Z.of_nat i) by lia.
  rewrite Z.div_add, Z.mod_add by lia. f_equal; lia.
Qed.

Lemma months_loop_lists end_year end_month : forall n fuel year month result,
  (1 <= month <= 12)%Z -> (1 <= end_month <= 12)%Z ->
  (12 * (end_year - year) + end_month - month = Z.of_nat n)%Z ->
  turns year month end_year <= fuel ->
  months_loop fuel year month end_year end_month result
  = Ok (result ++ map (format_nth_month year month) (seq 0 (S n))).
Proof.
  unfold turns.
  induction n as [|n IH]; intros fuel year month result Hm Hem Hn Hfuel.
  - assert (year = end_year /\ month = end_month) as [-> ->] by lia.
    destruct fuel; cbn [months_loop]; rewrite !Z.ltb_irrefl; cbn [orb seq map];
      unfold format_nth_month; rewrite nth_month_0 by lia; reflexivity.
  - destruct fuel as [|fuel].
    { exfalso. lia. }
    cbn [months_loop].
    assert (Hcond : ((year <? end_year) || (month <? end_month))%Z = true) by lia.
    rewrite Hcond. destruct (Z.ltb_spec month 12) as [H12|H12].
    + rewrite (IH fuel year (month + 1)%Z) by lia.
      rewrite <- app_assoc. f_equal. f_equal.
      change (seq 0 (S (S n))) with (0 :: seq 1 (S n)).
      rewrite (map_cons (format_nth_month year month)).
      unfold format_nth_month at 2. rewrite nth_month_0 by lia.
      cbn [app fst snd]. f_equal. rewrite <- seq_shift, map_map.
      apply map_ext. intros i. unfold format_nth_month.
      rewrite nth_month_next by lia. reflexivity.
    + assert (month = 12%Z) as -> by lia.
      rewrite (IH fuel (year + 1)%Z 1%Z) by lia.
      rewrite <- app_assoc. f_equal. f_equal.
      change (seq 0 (S (S n))) with (0 :: seq 1 (S n)).
      rewrite (map_cons (format_nth_month year 12)).
      unfold format_nth_month at 2. rewrite nth_month_0 by lia.
      cbn [app fst snd]. f_equal. rewrite <- seq_shift, map_map.
      apply map_ext. intros i. unfold format_nth_month.
      rewrite nth_month_wrap. reflexivity.
Qed.

Section months_facts.
Variable int : string -> option Z.

(** X26: [months_between] does not depend on the order of its two
    arguments, and its loop always ends: for all strings it returns a
    list or raises [ValueError], whatever [int] makes of the fields. *)
Theorem months_between_is_symmetric (start_month end_month : string) :
  months_between int start_month end_month = months_between int end_month start_month
  /\ months_between int start_month end_month <> Blocked.
Proof.
  split.
  - unfold months_between.
    destruct (String.ltb end_month start_month) eqn:H1.
    + rewrite (string_ltb_asym _ _ H1). reflexivity.
    + destruct (String.ltb start_month end_month) eqn:H2; [reflexivity|].
      rewrite (string_ltb_total _ _ H1 H2). reflexivity.
  - unfold months_between.
    destruct (if String.ltb end_month start_month then _ else _) as [a b].
    destruct (year_and_month int a) as [[year month]|]; [|discriminate].
    destruct (year_and_month int b) as [[end_year end_month']|]; [|discriminate].
    destruct (Z.ltb_spec 12 month) as [Hm|Hm]; [discriminate|].
    destruct (Z.ltb_spec 12 end_month') as [Hem|Hem]; [discriminate|].
    cbn [orb]. apply months_loop_ends; [lia | lia | reflexivity].
Qed.

(** X27: for two dates in string order whose fields read as a month
    [1..12] of a year, the second not before the first,
    [months_between] returns every month from the first to the second,
    both included, in order, each written [YYYY-MM]:
    [12 * (end_year - year) + end_month - month + 1] of them. *)
Theorem months_between_lists_consecutive_months (start_month end_month : string)
    (year month end_year end_month_number : Z) :
  String.ltb end_month start_month = false ->
  year_and_month int start_month = Some (year, month) ->
  year_and_month int end_month = Some (end_year, end_month_number) ->
  (1 <= month <= 12)%Z ->
  (1 <= end_month_number <= 12)%Z ->
  (0 <= 12 * (end_year - year) + end_month_number - month)%Z ->
  months_between int start_month end_month
  = Ok (map (format_nth_month year month)
            (seq 0 (S (Z.to_nat (12 * (end_year - year) + end_month_number - month))))).
Proof.
  intros Hord Hs He Hm Hem Hn. unfold months_between. rewrite Hord, Hs, He.
  destruct (Z.ltb_spec 12 month) as [H1|H1]; [lia|].
  destruct (Z.ltb_spec 12 end_month_number) as [H2|H2]; [lia|]. cbn [orb].
  rewrite (months_loop_lists end_year end_month_number
             (Z.to_nat (12 * (end_year - year) + end_month_number - month)));
    [reflexivity | lia | lia | lia | reflexivity].
Qed.

(** X28: [months_before(month, nb_months)] cuts the list of the months
    from 2018-01 to [month] from its end: for [nb_months > 0] it keeps
    the last [nb_months] of them (all of them when there are fewer); for
    [nb_months = 0] it keeps them all, not none; for a negative
    [nb_months] it drops the first [-nb_months]. *)
Theorem months_before_slices_from_the_end (month : string) (nb_months : Z)
    (months : list string) :
  months_between int "2018-01" (date_to_year_month month) = Ok months ->
  exists result,
    months_before int month nb_months = Ok result
    /\ ((0 < nb_months)%Z ->
        result = drop (length months - Z.to_nat nb_months) months)
    /\ (nb_months = 0%Z -> result = months)
    /\ ((nb_months < 0)%Z -> result = drop (Z.to_nat (- nb_months)) months).
Proof.
  intros Hall. unfold months_before. fold (date_to_year_month month). rewrite Hall.
  eexists. split; [reflexivity|]. unfold slice_from. split; [|split].
  - intros Hpos. rewrite slice_index_neg by exact Hpos. reflexivity.
  - intros ->. cbn [Z.opp]. rewrite slice_index_pos by lia.
    change (Z.to_nat 0) with 0. rewrite Nat.min_0_r. reflexivity.
  - intros Hneg. rewrite slice_index_pos by lia.
    destruct (Nat.le_ge_cases (length months) (Z.to_nat (- nb_months))) as [Hle|Hle].
    + rewrite Nat.min_l by exact Hle. rewrite !drop_ge by lia. reflexivity.
    + rewrite Nat.min_r by exact Hle. reflexivity.
Qed.

End months_facts.

Lemma months_between_lists_consecutive_months_witness :
  months_between int_of_digits "2023-11" "2024-02"
  = Ok (map (format_nth_month 2023 11) (seq 0 (S (Z.to_nat (12 * (2024 - 2023) + 2 - 11))))).
Proof.
  apply (months_between_lists_consecutive_months int_of_digits "2023-11" "2024-02"
           2023 11 2024 2).
  - reflexivity.
  - reflexivity.
  - reflexivity.
  - lia.
  - lia.
  - lia.
Defined.

Lemma months_before_slices_from_the_end_witness :
  months_before int_of_digits "2018-04-30" 0
  = Ok ["2018-01"; "2018-02"; "2018-03"; "2018-04"].
Proof.
  destruct (months_before_slices_from_the_end int_of_digits "2018-04-30" 0
              ["2018-01"; "2018-02"; "2018-03"; "2018-04"])
    as (result & Hrun & _ & Hzero & _).
  - vm_compute. reflexivity.
  - rewrite Hrun, (Hzero eq_refl). reflexivity.
Defined.

(** Four months from November 2023; and a month before 2018 gives the
    months up to 2018-01, the arguments being put in order. *)
Example months_examples :
  months_between int_of_digits "2023-11" "2024-02"
  = Ok ["2023-11"; "2023-12"; "2024-01"; "2024-02"]
  /\ months_before int_of_digits "2017-11-30" 12
     = Ok ["2017-11"; "2017-12"; "2018-01"]
  /\ months_between int_of_digits "2024-13" "2024-01" = Raise ValueError.
Proof. repeat split. Qed.
